(** * gokeyless: the server-side connection job source and the client-side
    connection cache / SKI router

    A shallow embedding of [server/conn.go] (module [Server]) and of the
    client's [Dial], [DialAny], [registerSKI] and [RegisterPublicKey]
    (module [Client]), with the properties of the specification proved over
    them. *)

From Stdlib Require Import ZArith Lia Bool.
From stdpp Require Import base option list gmap strings.

Local Open Scope Z_scope.

(** ** Go machine integers *)

(** Go's [int] on the 64-bit targets the server is built for: [x++] wraps. *)
Definition int_min : Z := - 2 ^ 63.
Definition int_max : Z := 2 ^ 63 - 1.
Definition wrap_int (z : Z) : Z := (z + 2 ^ 63) mod 2 ^ 64 - 2 ^ 63.
Definition int_incr (z : Z) : Z := wrap_int (z + 1).

(** ** A state monad with the three ways a Go call can end

    A call returns, panics, or never comes back; [St] is the state of the
    part of the world the call can touch. *)

Inductive outcome (St A : Type) :=
| Returns (a : A) (s : St)
| Panics (msg : string) (s : St)
| Blocks (s : St).
Arguments Returns {St A} a s.
Arguments Panics {St A} msg s.
Arguments Blocks {St A} s.

Definition GoM (St A : Type) := St -> outcome St A.

Definition ret {St A} (a : A) : GoM St A := fun s => Returns a s.

Definition bind {St A B} (m : GoM St A) (k : A -> GoM St B) : GoM St B :=
  fun s =>
    match m s with
    | Returns a s' => k a s'
    | Panics msg s' => Panics msg s'
    | Blocks s' => Blocks s'
    end.

Definition panic {St A} (msg : string) : GoM St A := fun s => Panics msg s.
Definition block {St A} : GoM St A := fun s => Blocks s.

Definition outcome_state {St A} (o : outcome St A) : St :=
  match o with
  | Returns _ s => s
  | Panics _ s => s
  | Blocks s => s
  end.

Declare Scope go_scope.
Delimit Scope go_scope with go.
Notation "x <- m ;; k" := (bind m (fun x => k))
  (at level 100, m at next level, right associativity) : go_scope.
Notation "m ;;; k" := (bind m (fun _ => k))
  (at level 100, right associativity) : go_scope.

(** * The server side: [server/conn.go] *)
Module Server.

(** ** Protocol types (package [protocol]): what [conn.go] uses of them *)

Definition Op := Z.
Definition Time := Z.
Definition Pool := nat.

Record Operation := mkOperation {
  Opcode : Op;
  Payload : list Z }.

Record Header := mkHeader {
  MajorVers : Z;
  MinorVers : Z;
  Length : Z;
  ID : Z }.

(** [protocol.Packet] embeds a [Header] and an [Operation]; [pkt.ID] and
    [pkt.Opcode] are the promoted fields. *)
Record Packet := mkPacket {
  PHeader : Header;
  POperation : Operation }.

Definition pkt_ID (p : Packet) : Z := ID (PHeader p).
Definition pkt_Opcode (p : Packet) : Op := Opcode (POperation p).

(** Go [error] values as [conn.go] tells them apart: the [io.EOF] sentinel,
    a [net.Error] with its [Timeout()] answer, anything else. *)
Inductive error :=
| io_EOF
| net_Error (is_timeout : bool) (msg : string)
| other_error (msg : string).

Definition is_net_timeout (e : error) : bool :=
  match e with
  | net_Error t _ => t
  | _ => false
  end.

Definition is_nonnil (err : option error) : bool :=
  match err with
  | Some _ => true
  | None => false
  end.

Definition is_EOF (e : error) : bool :=
  match e with
  | io_EOF => true
  | _ => false
  end.

(** ** Jobs and results *)

Record request := mkRequest {
  req_pkt : Packet;
  req_reqBegin : Time;
  req_connName : string }.

(** The fields of [response] that [SubmitResult] reads. *)
Record response := mkResponse {
  resp_id : Z;
  resp_op : Operation;
  resp_reqOpcode : Op;
  resp_reqBegin : Time;
  resp_err : option error }.

(** A value of type [interface{}] as it reaches [GetJob]'s caller or
    [SubmitResult]. *)
Inductive iface :=
| I_nil
| I_request (r : request)
| I_response (r : response)
| I_other (tag : string).

(** ** The connection *)

Record connEvent := mkConnEvent {
  ev_time : Time;
  ev_id : Z;
  ev_opcode : Op }.

Record connStats := mkConnStats {
  spawnTime : Time;
  reads : Z;
  writes : Z;
  lastRead : connEvent;
  lastWrite : connEvent;
  lock : bool  (* sync.Mutex: [true] while held *) }.

(** The transport [net.Conn]: whether [Close] has been called on it and the
    read deadline last set. *)
Record NetConn := mkNetConn {
  sock_closed : bool;
  readDeadline : option Time }.

Record conn := mkConn {
  sock : NetConn;
  name : string;
  timeout : Z;
  selector : Packet -> Pool;
  closed : Z;
  serverClosing : Z;
  stats : connStats }.

(** ** Observable effects *)

Inductive logmsg :=
| ServerClosing (n : string) (st : connStats)
| ClosedByClient (n : string) (st : connStats)
| EncounteredError (n : string) (e : error) (st : connStats).

Inductive event :=
| EvSetReadDeadline (t : Time)
| EvRead
| EvWrite (buf : list Z)
| EvClose
| EvDebugf (m : logmsg)
| EvErrorf (m : logmsg)
| EvConnFailure
| EvRequest (o : Op)
| EvRequestTotalDuration (o : Op) (begin : Time) (e : option error).

Definition is_error_level (e : event) : bool :=
  match e with
  | EvErrorf _ => true
  | _ => false
  end.

Definition is_log (e : event) : bool :=
  match e with
  | EvDebugf _ | EvErrorf _ => true
  | _ => false
  end.

Definition is_server_closing_log (e : event) : bool :=
  match e with
  | EvDebugf (ServerClosing _ _) => true
  | _ => false
  end.

Record state := mkState {
  st_conn : conn;
  st_trace : list event }.

Definition M (A : Type) := GoM state A.
Local Open Scope go_scope.

Definition get_conn : M conn := fun s => Returns (st_conn s) s.
Definition modify_conn (f : conn -> conn) : M unit :=
  fun s => Returns tt (mkState (f (st_conn s)) (st_trace s)).
Definition emit (e : event) : M unit :=
  fun s => Returns tt (mkState (st_conn s) (st_trace s ++ [e])).

(** Field updates. *)
Definition set_sock (n : NetConn) (c : conn) : conn :=
  mkConn n (name c) (timeout c) (selector c) (closed c) (serverClosing c) (stats c).
Definition set_closed (v : Z) (c : conn) : conn :=
  mkConn (sock c) (name c) (timeout c) (selector c) v (serverClosing c) (stats c).
Definition set_serverClosing (v : Z) (c : conn) : conn :=
  mkConn (sock c) (name c) (timeout c) (selector c) (closed c) v (stats c).
Definition set_stats (st : connStats) (c : conn) : conn :=
  mkConn (sock c) (name c) (timeout c) (selector c) (closed c) (serverClosing c) st.
Definition set_lock (b : bool) (st : connStats) : connStats :=
  mkConnStats (spawnTime st) (reads st) (writes st) (lastRead st) (lastWrite st) b.

(** ** The transport's contract ([net.Conn])

    What the peer and the network do is an input of each call; a transport
    on which [Close] was called answers every later call with an error at
    once. *)

Definition errClosed : error := other_error "use of closed network connection".

Inductive WriteResult :=
| WriteOk (n : Z)
| WriteErr (e : error)
| WriteStalls.

Definition conn_SetReadDeadline (t : Time) (answer : option error) : M (option error) :=
  emit (EvSetReadDeadline t);;;
  c <- get_conn;;
  if sock_closed (sock c) then ret (Some errClosed)
  else match answer with
       | Some e => ret (Some e)
       | None =>
           modify_conn (set_sock (mkNetConn false (Some t)));;;
           ret None
       end.

Definition pkt_ReadFrom (answer : error + Packet) : M (error + Packet) :=
  emit EvRead;;;
  c <- get_conn;;
  if sock_closed (sock c) then ret (inl errClosed) else ret answer.

Definition conn_Write (buf : list Z) (answer : WriteResult) : M (option error) :=
  emit (EvWrite buf);;;
  c <- get_conn;;
  if sock_closed (sock c) then ret (Some errClosed)
  else match answer with
       | WriteOk _ => ret None
       | WriteErr e => ret (Some e)
       | WriteStalls => block
       end.

Definition conn_Close : M unit :=
  emit EvClose;;;
  modify_conn (fun c => set_sock (mkNetConn true (readDeadline (sock c))) c).

(** ** [sync/atomic] and [sync.Mutex] *)

Definition LoadUint32_closed : M Z := c <- get_conn;; ret (closed c).
Definition LoadUint32_serverClosing : M Z := c <- get_conn;; ret (serverClosing c).
Definition StoreUint32_closed (v : Z) : M unit := modify_conn (set_closed v).

Definition CompareAndSwapUint32_serverClosing (old new : Z) : M bool :=
  c <- get_conn;;
  if serverClosing c =? old
  then modify_conn (set_serverClosing new);;; ret true
  else ret false.

(** In a sequential run nobody else can release a held mutex, and unlocking
    a free one is a fatal runtime error. *)
Definition stats_Lock : M unit :=
  c <- get_conn;;
  if lock (stats c) then block
  else modify_conn (fun c => set_stats (set_lock true (stats c)) c).

Definition stats_Unlock : M unit :=
  c <- get_conn;;
  if lock (stats c)
  then modify_conn (fun c => set_stats (set_lock false (stats c)) c)
  else panic "sync: unlock of unlocked mutex".

(** ** [conn.go] *)

Definition newConn (nm : string) (c : NetConn) (tmo : Z)
    (sel : Packet -> Pool) (now : Time) : conn :=
  mkConn c nm tmo sel 0 0
    (mkConnStats now 0 0 (mkConnEvent 0 0 0) (mkConnEvent 0 0 0) false).

Definition IsAlive : M bool :=
  v <- LoadUint32_closed;; ret (v =? 0).

Definition LogConnErr (err : option error) : M unit :=
  sc <- LoadUint32_serverClosing;;
  if is_nonnil err && (sc =? 1) then ret tt
  else
    c <- get_conn;;
    match err with
    | None => emit (EvDebugf (ServerClosing (name c) (stats c)))
    | Some e =>
        if is_EOF e then emit (EvDebugf (ClosedByClient (name c) (stats c)))
        else emit EvConnFailure;;;
             emit (EvErrorf (EncounteredError (name c) e (stats c)))
    end.

Definition Destroy : M unit :=
  swapped <- CompareAndSwapUint32_serverClosing 0 1;;
  let closing := negb swapped in
  if closing then ret tt
  else
    LogConnErr None;;;
    conn_Close;;;
    StoreUint32_closed 1.

(** What the outside world answers during one [GetJob] call. *)
Record GetJobEnv := mkGetJobEnv {
  now_deadline : Time;
  setDeadline_answer : option error;
  read_answer : error + Packet;
  now_begin : Time }.

Definition fail_conn (e : error) : M (iface * option Pool * bool) :=
  LogConnErr (Some e);;;
  conn_Close;;;
  StoreUint32_closed 1;;;
  ret (I_nil, None, false).

Definition record_read (pkt : Packet) (begin : Time) (st : connStats) : connStats :=
  mkConnStats (spawnTime st) (int_incr (reads st)) (writes st)
    (mkConnEvent begin (pkt_ID pkt) (pkt_Opcode pkt)) (lastWrite st) (lock st).

Definition GetJob (env : GetJobEnv) : M (iface * option Pool * bool) :=
  c0 <- get_conn;;
  err <- conn_SetReadDeadline (now_deadline env + timeout c0) (setDeadline_answer env);;
  match err with
  | Some e => fail_conn e
  | None =>
      r <- pkt_ReadFrom (read_answer env);;
      match r with
      | inl e =>
          if is_net_timeout e
          then Destroy;;; ret (I_nil, None, false)
          else fail_conn e
      | inr pkt =>
          emit (EvRequest (pkt_Opcode pkt));;;
          c <- get_conn;;
          let req := mkRequest pkt (now_begin env) (name c) in
          stats_Lock;;;
          modify_conn (fun c => set_stats (record_read pkt (now_begin env) (stats c)) c);;;
          stats_Unlock;;;
          c <- get_conn;;
          ret (I_request req, Some (selector c pkt), true)
      end
  end.

Record SubmitEnv := mkSubmitEnv {
  write_answer : WriteResult;
  now_write : Time }.

Definition record_write (pkt : Packet) (resp : response) (now : Time)
    (st : connStats) : connStats :=
  mkConnStats (spawnTime st) (reads st) (int_incr (writes st))
    (lastRead st) (mkConnEvent now (pkt_ID pkt) (resp_reqOpcode resp)) (lock st).

Section Codec.
(** The packet codec is an external collaborator: [Operation.Bytes] and
    [Packet.MarshalBinary] are taken as they are declared. *)
Variable Bytes : Operation -> Z.
Variable MarshalBinary : Packet -> list Z * option error.

Definition frame (resp : response) : Packet :=
  mkPacket (mkHeader 1 0 (Bytes (resp_op resp)) (resp_id resp)) (resp_op resp).

(** The bytes [MarshalBinary] gives for the packet of a Result. *)
Definition wire (resp : response) : list Z := (MarshalBinary (frame resp)).1.

Definition SubmitResult (env : SubmitEnv) (result : iface) : M bool :=
  match result with
  | I_response resp =>
      let pkt := frame resp in
      let '(buf, err) := MarshalBinary pkt in
      match err with
      | Some e => panic "unexpected internal error"
      | None =>
          werr <- conn_Write buf (write_answer env);;
          match werr with
          | Some e =>
              LogConnErr (Some e);;;
              conn_Close;;;
              StoreUint32_closed 1;;;
              ret false
          | None =>
              emit (EvRequestTotalDuration (resp_reqOpcode resp)
                      (resp_reqBegin resp) (resp_err resp));;;
              stats_Lock;;;
              modify_conn (fun c =>
                set_stats (record_write pkt resp (now_write env) (stats c)) c);;;
              stats_Unlock;;;
              ret true
          end
      end
  | _ => panic "interface conversion: interface {} is not server.response"
  end.
End Codec.

(** ** Concurrent [Destroy] calls

    Each goroutine running [Destroy] is at one of its four sequentially
    consistent steps (the CAS, the log call, the close, the store) or has
    returned; a schedule names the goroutine that takes the next step. *)

Inductive pc :=
| AtCAS
| AtLog
| AtClose
| AtStore
| Finished (won : bool).

Definition thread_step (p : pc) : M pc :=
  match p with
  | AtCAS =>
      swapped <- CompareAndSwapUint32_serverClosing 0 1;;
      ret (if negb swapped then Finished false else AtLog)
  | AtLog => LogConnErr None;;; ret AtClose
  | AtClose => conn_Close;;; ret AtStore
  | AtStore => StoreUint32_closed 1;;; ret (Finished true)
  | Finished w => ret (Finished w)
  end.

Definition exec_thread (p : pc) (s : state) : pc * state :=
  match thread_step p s with
  | Returns p' s' => (p', s')
  | Panics _ s' => (p, s')
  | Blocks s' => (p, s')
  end.

Record config := mkConfig {
  threads : list pc;
  shared : state }.

Definition sched_step (cf : config) (i : nat) : config :=
  match threads cf !! i with
  | Some p =>
      let '(p', s') := exec_thread p (shared cf) in
      mkConfig (<[i:=p']> (threads cf)) s'
  | None => cf
  end.

Definition run (sched : list nat) (cf : config) : config :=
  fold_left sched_step sched cf.

Definition finished (p : pc) : bool :=
  match p with
  | Finished _ => true
  | _ => false
  end.

Definition won_cas (p : pc) : bool :=
  match p with
  | AtCAS | Finished false => false
  | _ => true
  end.

(** One goroutine running alone for [k] steps. *)
Fixpoint solo (k : nat) (s : state) : pc * state :=
  match k with
  | O => (AtCAS, s)
  | S k' => let '(p, s') := solo k' s in exec_thread p s'
  end.

(** One goroutine taking [k] steps from where it stands. *)
Fixpoint thread_steps (k : nat) (p : pc) (s : state) : pc * state :=
  match k with
  | O => (p, s)
  | S k' => let '(p', s') := exec_thread p s in thread_steps k' p' s'
  end.

(** The schedule that lets goroutines [0 .. n-1] run to completion one after
    the other. *)
Fixpoint sequential_schedule (n : nat) : list nat :=
  match n with
  | O => []
  | S n' => sequential_schedule n' ++ replicate 4 n'
  end.

(** ** States *)

(** The connection is torn down: transport closed and [closed] set. *)
Definition dead (s : state) : Prop :=
  sock_closed (sock (st_conn s)) = true /\ closed (st_conn s) = 1.

(** No [Destroy] is in flight: the closing flag is either still clear or its
    winner has finished the shutdown. *)
Definition quiescent (s : state) : Prop :=
  serverClosing (st_conn s) = 0 \/ (serverClosing (st_conn s) = 1 /\ dead s).

(** The state a winning [Destroy] leaves behind. *)
Definition destroyed (s : state) : state :=
  let c := st_conn s in
  mkState
    (mkConn (mkNetConn true (readDeadline (sock c))) (name c) (timeout c)
       (selector c) 1 1 (stats c))
    (st_trace s
       ++ [EvDebugf (ServerClosing (name c) (stats c)); EvClose]).

(** The invariant of every reachable configuration, from [n] goroutines
    about to call [Destroy] on [s0]. *)
Definition reach_inv (n : nat) (s0 : state) (cf : config) : Prop :=
  (threads cf = replicate n AtCAS /\ shared cf = s0) \/
  (exists (w k : nat) (l : list pc),
      (w < n)%nat /\ (1 <= k <= 4)%nat /\ length l = n /\
      Forall (fun p => won_cas p = false) l /\
      threads cf = <[w := (solo k s0).1]> l /\
      shared cf = (solo k s0).2).


(** The events [LogConnErr] adds for a non-nil error [e] on connection [c]. *)
Definition conn_err_events (c : conn) (e : error) : list event :=
  if serverClosing c =? 1 then []
  else if is_EOF e then [EvDebugf (ClosedByClient (name c) (stats c))]
  else [EvConnFailure; EvErrorf (EncounteredError (name c) e (stats c))].

(** Modelled from the spec: the worker that turns a Job into its Result is
    not part of [conn.go]; the Result carries the Job's correlation ID, its
    opcode and its receipt time next to the outcome of the operation. *)
Definition worker_result (req : request) (outcome_op : Operation)
    (err : option error) : response :=
  mkResponse (pkt_ID (req_pkt req)) outcome_op (pkt_Opcode (req_pkt req))
    (req_reqBegin req) err.

(** The state a fatal error [e] leaves behind: logged according to
    [LogConnErr], transport closed, [closed] set. *)
Definition failed (e : error) (s : state) : state :=
  let c := st_conn s in
  mkState
    (mkConn (mkNetConn true (readDeadline (sock c))) (name c) (timeout c)
       (selector c) 1 (serverClosing c) (stats c))
    (st_trace s ++ conn_err_events c e ++ [EvClose]).

(** The state after [SetReadDeadline] succeeded and the read was attempted. *)
Definition reading (env : GetJobEnv) (s : state) : state :=
  let c := st_conn s in
  let t := now_deadline env + timeout c in
  mkState (set_sock (mkNetConn false (Some t)) c)
    (st_trace s ++ [EvSetReadDeadline t; EvRead]).

(** ** Sample values to run the model on *)

(** A codec with the conceptual wire layout: versions, 16-bit length, 32-bit
    correlation ID, opcode, payload. *)
Definition sample_Bytes (o : Operation) : Z :=
  Z.of_nat (length (Payload o)) mod 2 ^ 16.

Definition sample_MarshalBinary (p : Packet) : list Z * option error :=
  let h := PHeader p in
  ([MajorVers h; MinorVers h;
    Length h / 256; Length h mod 256;
    ID h / 2 ^ 24 mod 256; ID h / 2 ^ 16 mod 256; ID h / 256 mod 256; ID h mod 256;
    Opcode (POperation p)] ++ Payload (POperation p), None).

Definition sample_state : state :=
  mkState (newConn "10.0.0.7:51234" (mkNetConn false None) 30 (fun _ => 0%nat) 1000) [].

Definition sample_ping : Packet :=
  mkPacket (mkHeader 1 0 3 7) (mkOperation 241 [1; 2; 3]).

Definition sample_pong : response :=
  mkResponse 7 (mkOperation 242 [1; 2; 3]) 241 1001 None.

Definition sample_schedule : list nat :=
  [2; 0; 1; 2; 0; 1; 1; 2; 0; 2; 0; 2; 1; 0]%nat.

(** ** Histories of calls on one connection

    The methods a reader goroutine and the workers call on a connection, one
    after the other in any order; a call that panics or never comes back
    leaves the state it had reached. *)

Inductive call :=
| CallGetJob (env : GetJobEnv)
| CallSubmitResult (env : SubmitEnv) (result : iface)
| CallDestroy
| CallIsAlive.

Section Calls.
Variable Bytes : Operation -> Z.
Variable MarshalBinary : Packet -> list Z * option error.

Definition exec_call (s : state) (c : call) : state :=
  match c with
  | CallGetJob env => outcome_state (GetJob env s)
  | CallSubmitResult env result =>
      outcome_state (SubmitResult Bytes MarshalBinary env result s)
  | CallDestroy => outcome_state (Destroy s)
  | CallIsAlive => outcome_state (IsAlive s)
  end.

Definition exec_calls (cs : list call) (s : state) : state :=
  fold_left exec_call cs s.
End Calls.

(** What every history keeps of a connection made by [newConn] over an open
    transport: the stats mutex is free between calls, the flags are 0 or 1,
    [closed] is set exactly when the transport has been closed, and a
    connection the server is closing is closed. *)
Definition conn_inv (s : state) : Prop :=
  let c := st_conn s in
  lock (stats c) = false /\
  (closed c = 0 \/ closed c = 1) /\
  (closed c = 1 <-> sock_closed (sock c) = true) /\
  (serverClosing c = 0 \/ serverClosing c = 1) /\
  (serverClosing c = 1 -> closed c = 1).

Definition is_request_metric (e : event) : bool :=
  match e with
  | EvRequest _ => true
  | _ => false
  end.

Definition is_duration_metric (e : event) : bool :=
  match e with
  | EvRequestTotalDuration _ _ _ => true
  | _ => false
  end.

Definition is_conn_failure (e : event) : bool :=
  match e with
  | EvConnFailure => true
  | _ => false
  end.

Definition is_read (e : event) : bool :=
  match e with
  | EvRead => true
  | _ => false
  end.

Definition count (f : event -> bool) (tr : list event) : Z :=
  Z.of_nat (length (List.filter f tr)).

(** A history to run the model on: a request is read and answered, the peer
    closes, a late result is submitted, the server destroys the
    connection. *)
Definition sample_history : list call :=
  [CallGetJob (mkGetJobEnv 1000 None (inr sample_ping) 1001);
   CallSubmitResult (mkSubmitEnv (WriteOk 12) 1002) (I_response sample_pong);
   CallGetJob (mkGetJobEnv 1003 None (inl io_EOF) 1004);
   CallSubmitResult (mkSubmitEnv (WriteOk 12) 1005) (I_response sample_pong);
   CallDestroy;
   CallIsAlive].

End Server.

(** * The client side: connection cache and SKI router *)
Module Client.
Local Open Scope nat_scope.
Local Open Scope go_scope.

Definition SKI := list Z.
Definition Digest := list Z.
Definition PublicKey := list Z.
(** [*gokeyless.Conn]: an address in the heap of connection objects. *)
Definition ptr := nat.
(** The backing array of a [[]string]. *)
Definition loc := nat.

Inductive error :=
| errors_New (msg : string)
| tls_error (msg : string)
| key_error (msg : string).

Definition errNotInitialized : error :=
  errors_New "gokeyless/client: TLS client has not yet been initialized with certificate and keyserver CA".
Definition errNoServers : error := errors_New "no servers given".
Definition errCouldntDial : error :=
  errors_New "couldn't dial any of the servers given".

(** What the client reads of a [gokeyless.Conn]. *)
Record Conn := mkConn {
  IsOpen : bool;
  transport : nat }.

(** A Go slice header: backing array, offset into it, length, capacity. *)
Record slice := mkSlice {
  arr : loc;
  off : nat;
  len : nat;
  cap : nat }.

Definition nil_slice : slice := mkSlice 0 0 0 0.

Record Client := mkClient {
  Config : option nat;
  conns : gmap string ptr;
  allServers : gmap SKI slice }.

Inductive event :=
| EvDialing (server : string)
| EvTlsDial (server : string)
| EvCouldntDial (server : string) (e : error)
| EvRegistering (server : string) (ski : SKI).

Record world := mkWorld {
  client : Client;
  conn_heap : gmap ptr Conn;
  arrays : gmap loc (list string);
  trace : list event;
  rand_calls : nat;
  dial_calls : nat }.

Definition M (A : Type) := GoM world A.

Definition get_world : M world := fun w => Returns w w.
Definition get_client : M Client := fun w => Returns (client w) w.
Definition put_client (c : Client) : M unit :=
  fun w => Returns tt
    (mkWorld c (conn_heap w) (arrays w) (trace w) (rand_calls w) (dial_calls w)).
Definition put_conn_heap (h : gmap ptr Conn) : M unit :=
  fun w => Returns tt
    (mkWorld (client w) h (arrays w) (trace w) (rand_calls w) (dial_calls w)).
Definition put_arrays (a : gmap loc (list string)) : M unit :=
  fun w => Returns tt
    (mkWorld (client w) (conn_heap w) a (trace w) (rand_calls w) (dial_calls w)).
Definition emit (e : event) : M unit :=
  fun w => Returns tt
    (mkWorld (client w) (conn_heap w) (arrays w) (trace w ++ [e])
       (rand_calls w) (dial_calls w)).

(** ** Slices over the shared store of backing arrays *)

Definition read_array (l : loc) : M (list string) :=
  w <- get_world;;
  match arrays w !! l with
  | Some a => ret a
  | None => panic "invalid memory address"
  end.

(** [s[i]] *)
Definition slice_index (s : slice) (i : nat) : M string :=
  if i <? len s then
    a <- read_array (arr s);;
    match a !! (off s + i) with
    | Some x => ret x
    | None => panic "index out of range"
    end
  else panic "index out of range".

(** The elements [s[0], ..., s[len(s)-1]], as [range s] or [s...] read them. *)
Definition slice_read (s : slice) : M (list string) :=
  if len s =? 0 then ret []
  else
    a <- read_array (arr s);;
    if off s + len s <=? length a
    then ret (take (len s) (drop (off s) a))
    else panic "index out of range".

(** [s[:n]] *)
Definition slice_to (s : slice) (n : nat) : M slice :=
  if n <=? cap s then ret (mkSlice (arr s) (off s) n (cap s))
  else panic "slice bounds out of range".

(** [s[n:]] *)
Definition slice_from (s : slice) (n : nat) : M slice :=
  if n <=? len s then ret (mkSlice (arr s) (off s + n) (len s - n) (cap s - n))
  else panic "slice bounds out of range".

(** The runtime's growth policy for small slices: at least double. *)
Definition grow_cap (old needed : nat) : nat :=
  if old + old <? needed then needed else old + old.

(** [append(s, xs...)]: in place when the capacity allows, into a fresh
    array otherwise. The elements [xs] have been read before anything is
    written, as the runtime's overlapping copy guarantees. *)
Definition append (s : slice) (xs : list string) : M slice :=
  if len s + length xs <=? cap s then
    a <- read_array (arr s);;
    w <- get_world;;
    put_arrays (<[arr s := list_inserts (off s + len s) xs a]> (arrays w));;;
    ret (mkSlice (arr s) (off s) (len s + length xs) (cap s))
  else
    old <- slice_read s;;
    w <- get_world;;
    let newcap := grow_cap (cap s) (len s + length xs) in
    let l := fresh (dom (arrays w)) in
    put_arrays
      (<[l := old ++ xs ++ replicate (newcap - (len s + length xs)) ""%string]>
         (arrays w));;;
    ret (mkSlice l 0 (len s + length xs) newcap).

(** [append(s[:n], s[n+1:]...)]: the idiom that removes [s[n]]. *)
Definition slice_remove (s : slice) (n : nat) : M slice :=
  dst <- slice_to s n;;
  src <- slice_from s (n + 1);;
  xs <- slice_read src;;
  append dst xs.

(** The elements a slice header denotes in a world. *)
Definition view (w : world) (s : slice) : list string :=
  take (len s) (drop (off s) (default [] (arrays w !! arr s))).

(** The candidate list registered for a fingerprint. *)
Definition registry (w : world) (ski : SKI) : list string :=
  view w (default nil_slice (allServers (client w) !! ski)).

(** ** The cache of connections *)

(** Modelled from the spec: [gokeyless.NewConn] is not part of the client
    file; it wraps an established transport in a connection that is open. *)
Definition NewConn (raw : nat) : M ptr :=
  w <- get_world;;
  let p := fresh (dom (conn_heap w)) in
  put_conn_heap (<[p := mkConn true raw]> (conn_heap w));;;
  ret p.

Definition deref (p : ptr) : M Conn :=
  w <- get_world;;
  match conn_heap w !! p with
  | Some cn => ret cn
  | None => panic "invalid memory address or nil pointer dereference"
  end.

Definition set_conns (m : gmap string ptr) (c : Client) : Client :=
  mkClient (Config c) m (allServers c).
Definition set_allServers (m : gmap SKI slice) (c : Client) : Client :=
  mkClient (Config c) (conns c) m.

Section Env.
(** The outside world: the raw output of the random source at each call of
    [rand.Intn], and the answer of the network to each [tls.Dial]. *)
Variable rand_raw : nat -> nat.
Variable tls_answer : nat -> string -> error + nat.

Definition rand_Intn (n : nat) : M nat :=
  if n =? 0 then panic "invalid argument to Intn"
  else fun w =>
    Returns (rand_raw (rand_calls w) mod n)
      (mkWorld (client w) (conn_heap w) (arrays w) (trace w)
         (S (rand_calls w)) (dial_calls w)).

Definition tls_Dial (server : string) (cfg : nat) : M (error + nat) :=
  emit (EvTlsDial server);;;
  fun w =>
    Returns (tls_answer (dial_calls w) server)
      (mkWorld (client w) (conn_heap w) (arrays w) (trace w)
         (rand_calls w) (S (dial_calls w))).

Definition Dial (server : string) : M (option ptr * option error) :=
  c <- get_client;;
  match Config c with
  | None => ret (None, Some errNotInitialized)
  | Some cfg =>
      let cached := conns c !! server in
      is_open <- match cached with
                 | Some p => cn <- deref p;; ret (IsOpen cn)
                 | None => ret false
                 end;;
      match cached, is_open with
      | Some p, true => ret (Some p, None)
      | _, _ =>
          match cached with
          | Some _ => put_client (set_conns (delete server (conns c)) c)
          | None => ret tt
          end;;;
          emit (EvDialing server);;;
          r <- tls_Dial server cfg;;
          match r with
          | inl err => ret (None, Some err)
          | inr raw =>
              p <- NewConn raw;;
              c <- get_client;;
              put_client (set_conns (<[server := p]> (conns c)) c);;;
              c <- get_client;;
              ret (conns c !! server, None)
          end
      end
  end.

(** The first loop of [DialAny]: the cached connections of the candidates,
    in candidate order. *)
Definition collect_existing (cs : gmap string ptr) (servers : list string) : list ptr :=
  foldl (fun existing server =>
           match cs !! server with
           | Some conn => existing ++ [conn]
           | None => existing
           end) [] servers.

(** The second loop of [DialAny]. Every iteration that does not return
    shortens [servers] by one, so [len servers] iterations are enough. *)
Fixpoint dial_loop (fuel : nat) (servers : slice) : M (option ptr * option error) :=
  if len servers =? 0 then ret (None, Some errCouldntDial)
  else
    match fuel with
    | O => panic "out of fuel"
    | S fuel' =>
        n <- rand_Intn (len servers);;
        server <- slice_index servers n;;
        r <- Dial server;;
        match r with
        | (conn, None) => ret (conn, None)
        | (_, Some err) =>
            server <- slice_index servers n;;
            emit (EvCouldntDial server err);;;
            servers' <- slice_remove servers n;;
            dial_loop fuel' servers'
        end
    end.

Definition DialAny (ski : SKI) : M (option ptr * option error) :=
  c <- get_client;;
  let servers := default nil_slice (allServers c !! ski) in
  if len servers =? 0 then ret (None, Some errNoServers)
  else
    elems <- slice_read servers;;
    let existing := collect_existing (conns c) elems in
    if 0 <? length existing then
      n <- rand_Intn (length existing);;
      match existing !! n with
      | Some conn => ret (Some conn, None)
      | None => panic "index out of range"
      end
    else dial_loop (len servers) servers.

End Env.

(** ** Registration *)

Definition registerSKI (server : string) (ski : SKI) : M unit :=
  emit (EvRegistering server ski);;;
  c <- get_client;;
  s <- append (default nil_slice (allServers c !! ski)) [server];;
  c <- get_client;;
  put_client (set_allServers (<[ski := s]> (allServers c)) c).

Record PrivateKey := mkPrivateKey {
  public : PublicKey;
  ski_of : SKI;
  digest : Digest }.

(** The zero value of a digest. *)
Definition zero_digest : Digest := replicate 32 0%Z.

Section Keys.
(** [gokeyless.GetSKI] and [gokeyless.GetDigest], with Go's pair of a value
    and an error. *)
Variable GetSKI : PublicKey -> SKI * option error.
Variable GetDigest : PublicKey -> Digest * option error.

Definition RegisterPublicKey (server : string) (pub : PublicKey)
    : M (option PrivateKey * option error) :=
  let '(ski, err) := GetSKI pub in
  match err with
  | Some e => ret (None, Some e)
  | None =>
      registerSKI server ski;;;
      let '(digest, _) := GetDigest pub in
      ret (Some (mkPrivateKey pub ski digest), None)
  end.
End Keys.

(** ** Notions the properties are stated with *)

(** The servers of the "Couldn't dial server" log lines, in order. *)
Definition failed_dials (evs : list event) : list string :=
  omap (fun e => match e with
                 | EvCouldntDial server _ => Some server
                 | _ => None
                 end) evs.

(** The servers handed to [tls.Dial], in order. *)
Definition tls_dials (evs : list event) : list string :=
  omap (fun e => match e with
                 | EvTlsDial server => Some server
                 | _ => None
                 end) evs.

(** A slice header is backed by its array: [len <= cap], and the array
    reaches to the capacity. *)
Definition slice_ok (w : world) (s : slice) : Prop :=
  len s <= cap s /\
  (cap s = 0 \/
   exists a, arrays w !! arr s = Some a /\ off s + cap s <= length a).

Definition registry_ok (w : world) (ski : SKI) : Prop :=
  slice_ok w (default nil_slice (allServers (client w) !! ski)).

Definition outcome_value {St A} (o : outcome St A) : option A :=
  match o with
  | Returns a _ => Some a
  | _ => None
  end.

(** What [Dial] does once the cache cannot answer: the stale entry, if any,
    is gone, and the network decides. *)
Definition dialed (server : string) (w : world) : world :=
  mkWorld
    (set_conns (delete server (conns (client w))) (client w))
    (conn_heap w) (arrays w)
    (trace w ++ [EvDialing server; EvTlsDial server])
    (rand_calls w) (S (dial_calls w)).

Definition connected (server : string) (raw : nat) (w : world) : world :=
  let p := fresh (dom (conn_heap w)) in
  mkWorld
    (set_conns (<[server := p]> (delete server (conns (client w)))) (client w))
    (<[p := mkConn true raw]> (conn_heap w)) (arrays w)
    (trace w ++ [EvDialing server; EvTlsDial server])
    (rand_calls w) (S (dial_calls w)).

(** The world after [s[n]] was removed in place. *)
Definition removed (s : slice) (n : nat) (a : list string) (w : world) : world :=
  mkWorld (client w) (conn_heap w)
    (<[arr s :=
         list_inserts (off s + n)
           (take (len s - n - 1) (drop (off s + n + 1) a)) a]> (arrays w))
    (trace w) (rand_calls w) (dial_calls w).

(** The world after one call of [rand.Intn]. *)
Definition tick (w : world) : world :=
  mkWorld (client w) (conn_heap w) (arrays w) (trace w)
    (S (rand_calls w)) (dial_calls w).

(** ** Sample values to run the model on *)

Definition only_rsa_ski (pub : PublicKey) : SKI * option error :=
  match pub with
  | [] => ([], Some (key_error "unsupported public key"))
  | _ => (pub, None)
  end.

Definition no_digest (pub : PublicKey) : Digest * option error :=
  (zero_digest, Some (key_error "can't compute digest"))%string.

Definition sample_ski : SKI := [171; 205; 18]%Z.

(** The client [NewClient] returns: configured, nothing cached, nothing
    registered. *)
Definition new_world : world :=
  mkWorld (mkClient (Some 1) ∅ ∅) ∅ ∅ [] 0 0.

(** That client after [a:1] and then [b:1] were registered for
    [sample_ski]. *)
Definition sample_world : world :=
  outcome_state
    ((registerSKI "a:1" sample_ski;;; registerSKI "b:1" sample_ski) new_world).

(** The same client with a cached connection to [a:1] that has been closed
    since and an open one to [b:1]. *)
Definition sample_world_cached : world :=
  mkWorld
    (set_conns {[ "a:1"%string := 0; "b:1"%string := 1 ]} (client sample_world))
    {[ 0 := mkConn false 10; 1 := mkConn true 11 ]}
    (arrays sample_world) (trace sample_world) 0 0.

Definition unreachable (i : nat) (server : string) : error + nat :=
  inl (tls_error "connection refused").

Definition always_up (i : nat) (server : string) : error + nat := inr 42.

Definition only_b (i : nat) (server : string) : error + nat :=
  if String.eqb server "b:1" then inr 42 else inl (tls_error "connection refused").

(** ** [NewClient] and [RegisterCert] *)

Definition errNoCA : error :=
  errors_New "gokeyless/client: failed to read keyserver CA from PEM".

(** What the file system and the certificate parsers answer to [NewClient]:
    [tls.LoadX509KeyPair], [ioutil.ReadFile] and [AppendCertsFromPEM]. *)
Record NewClientEnv := mkNewClientEnv {
  LoadX509KeyPair_answer : string -> string -> error + nat;
  ReadFile_answer : string -> error + list Z;
  AppendCertsFromPEM_answer : list Z -> bool }.

(** Of the client [NewClient] builds, the model keeps the configuration and
    the two maps, both allocated and empty. The logger over [logOut] and the
    dialer are not part of [Client]: what the client logs is the world's
    trace. *)
Definition NewClient (env : NewClientEnv) (certFile keyFile caFile : string)
    : option Client * option error :=
  match LoadX509KeyPair_answer env certFile keyFile with
  | inl err => (None, Some err)
  | inr cert =>
      match ReadFile_answer env caFile with
      | inl err => (None, Some err)
      | inr pemCerts =>
          if negb (AppendCertsFromPEM_answer env pemCerts)
          then (None, Some errNoCA)
          else (Some (mkClient (Some cert) ∅ ∅), None)
      end
  end.

(** The world of a client that has just been made. *)
Definition world_of (c : Client) : world := mkWorld c ∅ ∅ [] 0 0.

(** What [RegisterCert] reads of an [x509.Certificate]. *)
Record Certificate := mkCertificate {
  cert_PublicKey : PublicKey;
  cert_Raw : list Z }.

(** ** Histories of calls on one client

    The calls of the client's users, one after the other, and the one thing
    that happens to the client's data behind its back: a connection object
    it has cached is closed by its user or found dead, which clears
    [IsOpen]. *)

Inductive call :=
| CallRegisterPublicKey (server : string) (pub : PublicKey)
| CallRegisterCert (server : string) (cert : Certificate)
| CallDial (server : string)
| CallDialAny (ski : SKI)
| ConnCloses (p : ptr).

Definition conn_closes (p : ptr) : M unit :=
  w <- get_world;;
  match conn_heap w !! p with
  | Some cn => put_conn_heap (<[p := mkConn false (transport cn)]> (conn_heap w))
  | None => ret tt
  end.

Section Calls.
Variable rand_raw : nat -> nat.
Variable tls_answer : nat -> string -> error + nat.
Variable GetSKI : PublicKey -> SKI * option error.
Variable GetDigest : PublicKey -> Digest * option error.

Definition RegisterCert (server : string) (cert : Certificate)
    : M (option PrivateKey * option error) :=
  RegisterPublicKey GetSKI GetDigest server (cert_PublicKey cert).

Definition exec_call (c : call) : M unit :=
  match c with
  | CallRegisterPublicKey server pub =>
      RegisterPublicKey GetSKI GetDigest server pub;;; ret tt
  | CallRegisterCert server cert => RegisterCert server cert;;; ret tt
  | CallDial server => Dial tls_answer server;;; ret tt
  | CallDialAny ski => DialAny rand_raw tls_answer ski;;; ret tt
  | ConnCloses p => conn_closes p
  end.

Fixpoint exec_calls (cs : list call) : M unit :=
  match cs with
  | [] => ret tt
  | c :: cs' => exec_call c;;; exec_calls cs'
  end.

(** The address a call registers for the fingerprint [k], if it registers
    one. *)
Definition registered_by (k : SKI) (c : call) : list string :=
  let for_key (server : string) (pub : PublicKey) :=
    match GetSKI pub with
    | (ski, None) => if decide (ski = k) then [server] else []
    | (_, Some _) => []
    end in
  match c with
  | CallRegisterPublicKey server pub => for_key server pub
  | CallRegisterCert server cert => for_key server (cert_PublicKey cert)
  | _ => []
  end.

(** The addresses a history registers for [k], in the order of the calls. *)
Definition registered (k : SKI) (cs : list call) : list string :=
  concat (map (registered_by k) cs).
End Calls.

(** [w'] continues [w] with the registrations [added]: the configuration is
    kept, the log has only grown, and the candidate list of every
    fingerprint [k] is [length (added k)] longer than before, holds only
    addresses of the old list and of [added k], and ends as the old list
    followed by [added k] ends. *)
Definition continues (added : SKI -> list string) (w w' : world) : Prop :=
  Config (client w') = Config (client w) /\
  (exists evs, trace w' = trace w ++ evs) /\
  forall k,
    length (registry w' k) = length (registry w k) + length (added k) /\
    last (registry w' k) = last (registry w k ++ added k) /\
    forall x, x ∈ registry w' k -> x ∈ registry w k ++ added k.

(** Every entry of the registry is a non-empty slice backed by an array of
    its own. *)
Definition registry_wf (w : world) : Prop :=
  forall k s,
    allServers (client w) !! k = Some s ->
    0 < len s /\ len s <= cap s /\
    (exists a, arrays w !! arr s = Some a /\ off s + cap s <= length a) /\
    forall k' s', k' <> k -> allServers (client w) !! k' = Some s' ->
                  arr s' <> arr s.

(** [x] is the element a slice header [s] over the array [a] has at index
    [i]. *)
Definition window (a : list string) (s : slice) (i : nat) (x : string) : Prop :=
  i < len s /\ a !! (off s + i) = Some x.

(** Every cached pointer points to a connection object. *)
Definition cache_wf (w : world) : Prop :=
  forall server p,
    conns (client w) !! server = Some p -> is_Some (conn_heap w !! p).

Definition world_wf (w : world) : Prop := registry_wf w /\ cache_wf w.

(** A history to run the model on. *)
Definition sample_calls : list call :=
  [CallRegisterPublicKey "a:1" [1; 2]%Z;
   CallRegisterCert "b:1" (mkCertificate [1; 2]%Z [48; 130]%Z);
   CallDialAny [1; 2]%Z;
   ConnCloses 0;
   CallDial "b:1";
   CallRegisterPublicKey "c:1" []%Z;
   CallDialAny [1; 2]%Z;
   CallDialAny [9]%Z].


(** ** The proxy test's [LoadX509KeyPair] *)

(** A [pem.Block], as far as the helper reads it. *)
Record Block := mkBlock {
  blk_Type : string;
  blk_Bytes : list Z }.

(** A [tls.Certificate]: the chain, the private key and the parsed leaf. *)
Record tls_Certificate := mkTlsCertificate {
  tc_Certificate : list (list Z);
  tc_PrivateKey : option PrivateKey;
  tc_Leaf : option Certificate }.

(** [tls.Certificate{}] *)
Definition zero_Certificate : tls_Certificate := mkTlsCertificate [] None None.

Definition errNoPEM : error :=
  errors_New "crypto/tls: failed to parse certificate PEM data".

(** What the file system, [pem.Decode] and [x509.ParseCertificate] answer. *)
Record LoadEnv := mkLoadEnv {
  load_ReadFile : string -> error + list Z;
  pem_Decode : list Z -> option Block * list Z;
  x509_ParseCertificate : list Z -> error + Certificate }.

Section Load.
Variable env : LoadEnv.
Variable GetSKI : PublicKey -> SKI * option error.
Variable GetDigest : PublicKey -> Digest * option error.

(** The [for] loop over the blocks of the file: [chain] is
    [cert.Certificate] so far. *)
Fixpoint decode_loop (fuel : nat) (certPEMBlock : list Z)
    (chain : list (list Z)) : M (list (list Z)) :=
  match fuel with
  | O => panic "out of fuel"
  | S fuel' =>
      let '(certDERBlock, rest) := pem_Decode env certPEMBlock in
      match certDERBlock with
      | None => ret chain
      | Some b =>
          decode_loop fuel' rest
            (if String.eqb (blk_Type b) "CERTIFICATE"
             then chain ++ [blk_Bytes b] else chain)
      end
  end.

Definition LoadX509KeyPair (serverAddr certFile : string)
    : M (tls_Certificate * option error) :=
  match load_ReadFile env certFile with
  | inl err => ret (zero_Certificate, Some err)
  | inr certPEMBlock =>
      chain <- decode_loop (S (length certPEMBlock)) certPEMBlock [];;
      match chain with
      | [] => ret (zero_Certificate, Some errNoPEM)
      | first :: _ =>
          match x509_ParseCertificate env first with
          | inl err => ret (zero_Certificate, Some err)
          | inr leaf =>
              r <- RegisterCert GetSKI GetDigest serverAddr leaf;;
              match r with
              | (_, Some err) => ret (zero_Certificate, Some err)
              | (key, None) => ret (mkTlsCertificate chain key (Some leaf), None)
              end
          end
      end
  end.
End Load.

(** A decoder to run the model on. It reads a file of one-byte blocks: [1]
    is a certificate, [2] a key, and anything else ends the decoding. *)
Definition sample_decode (data : list Z) : option Block * list Z :=
  match data with
  | z :: rest =>
      if (z =? 1)%Z then (Some (mkBlock "CERTIFICATE" [48; 130]%Z), rest)
      else if (z =? 2)%Z then (Some (mkBlock "RSA PRIVATE KEY" [48; 131]%Z), rest)
      else (None, data)
  | [] => (None, [])
  end.

Definition sample_load : LoadEnv :=
  mkLoadEnv (fun _ => inr [2; 1; 1]%Z) sample_decode
    (fun der => inr (mkCertificate [1; 2]%Z der)).

End Client.

(** * Properties of the server side *)
Module ServerSpec.
Import Server.
Local Open Scope go_scope.

Lemma int_incr_small z : int_min <= z < int_max -> int_incr z = z + 1.
Proof.
  unfold int_incr, wrap_int, int_min, int_max. intros Hz.
  rewrite Z.mod_small; lia.
Qed.

Ltac unfold_go :=
  unfold Destroy, fail_conn, LogConnErr, IsAlive, conn_Close, conn_Write,
    conn_SetReadDeadline, pkt_ReadFrom, stats_Lock, stats_Unlock,
    CompareAndSwapUint32_serverClosing, StoreUint32_closed,
    LoadUint32_closed, LoadUint32_serverClosing,
    bind, ret, emit, get_conn, modify_conn, panic, block in *.

Lemma Destroy_wins s :
  serverClosing (st_conn s) = 0 -> Destroy s = Returns tt (destroyed s).
Proof.
  destruct s as [[sk nm tmo sel cl sc st] tr]; simpl; intros ->.
  unfold destroyed; unfold_go; simpl.
  by rewrite <- app_assoc.
Qed.

Lemma Destroy_loses s :
  serverClosing (st_conn s) <> 0 -> Destroy s = Returns tt s.
Proof.
  destruct s as [[sk nm tmo sel cl sc st] tr]; simpl; intros Hsc.
  unfold_go; simpl.
  destruct (Z.eqb_spec sc 0); [done|]. done.
Qed.

Lemma Destroy_dead s s' :
  quiescent s -> Destroy s = Returns tt s' -> dead s' /\ quiescent s'.
Proof.
  intros [H0 | [H1 Hd]] HD.
  - rewrite Destroy_wins in HD by done. injection HD as <-.
    split; [by split | right; by repeat split].
  - rewrite Destroy_loses in HD by lia. injection HD as <-.
    split; [done | by right].
Qed.

(** ** The interleaving semantics of concurrent [Destroy] calls *)

Lemma solo_steps s :
  serverClosing (st_conn s) = 0 ->
  exists s1 s2 s3,
    solo 1 s = (AtLog, s1) /\ solo 2 s = (AtClose, s2) /\
    solo 3 s = (AtStore, s3) /\ solo 4 s = (Finished true, destroyed s) /\
    serverClosing (st_conn s1) = 1 /\ serverClosing (st_conn s2) = 1 /\
    serverClosing (st_conn s3) = 1.
Proof.
  destruct s as [[sk nm tmo sel cl sc st] tr]; simpl; intros ->.
  do 3 eexists. unfold exec_thread, thread_step, destroyed. unfold_go. simpl.
  repeat split; try reflexivity.
  by rewrite <- app_assoc.
Qed.

Lemma exec_thread_loser p s :
  serverClosing (st_conn s) = 1 ->
  won_cas p = false ->
  exec_thread p s = (Finished false, s).
Proof.
  destruct s as [[sk nm tmo sel cl sc st] tr]; simpl; intros -> Hp.
  destruct p as [| | | |[]]; try discriminate; reflexivity.
Qed.

Lemma solo_succ k s0 :
  serverClosing (st_conn s0) = 0 ->
  (1 <= k <= 4)%nat ->
  exec_thread (solo k s0).1 (solo k s0).2 = solo (Nat.min 4 (S k)) s0 /\
  serverClosing (st_conn (solo k s0).2) = 1.
Proof.
  intros H0 Hk.
  destruct (solo_steps s0 H0) as (s1 & s2 & s3 & E1 & E2 & E3 & E4 & C1 & C2 & C3).
  assert (k = 1 \/ k = 2 \/ k = 3 \/ k = 4)%nat as [->|[->|[->| ->]]] by lia.
  - split; [|by rewrite E1].
    change (Nat.min 4 2) with 2%nat.
    change (solo 2 s0) with (let '(p, s') := solo 1 s0 in exec_thread p s').
    by destruct (solo 1 s0).
  - split; [|by rewrite E2].
    change (Nat.min 4 3) with 3%nat.
    change (solo 3 s0) with (let '(p, s') := solo 2 s0 in exec_thread p s').
    by destruct (solo 2 s0).
  - split; [|by rewrite E3].
    change (Nat.min 4 4) with 4%nat.
    change (solo 4 s0) with (let '(p, s') := solo 3 s0 in exec_thread p s').
    by destruct (solo 3 s0).
  - split; [|by rewrite E4].
    change (Nat.min 4 5) with 4%nat. rewrite E4. reflexivity.
Qed.

Lemma sched_step_inv n s0 cf i :
  serverClosing (st_conn s0) = 0 ->
  reach_inv n s0 cf -> reach_inv n s0 (sched_step cf i).
Proof.
  intros H0 [[Ht Hs] | (w & k & l & Hw & Hk & Hl & Hlos & Ht & Hs)].
  - unfold sched_step. rewrite Ht.
    destruct (replicate n AtCAS !! i) as [p|] eqn:Hi; [|by left].
    apply lookup_replicate in Hi as [-> Hi].
    destruct (solo_steps s0 H0) as (s1 & ? & ? & E1 & _).
    change (solo 1 s0) with (exec_thread AtCAS s0) in E1.
    rewrite Hs, E1. right.
    exists i, 1%nat, (replicate n AtCAS). repeat split; try lia.
    + by rewrite length_replicate.
    + by apply Forall_replicate.
    + simpl. change (solo 1 s0) with (exec_thread AtCAS s0). by rewrite E1.
    + simpl. change (solo 1 s0) with (exec_thread AtCAS s0). by rewrite E1.
  - destruct (solo_succ k s0 H0 Hk) as [Hnext Hclosing].
    unfold sched_step. rewrite Ht, Hs.
    destruct (<[w:=(solo k s0).1]> l !! i) as [p|] eqn:Hi;
      [|right; exists w, k, l; rewrite Ht, Hs; done].
    destruct (decide (w = i)) as [<- | Hne].
    + rewrite list_lookup_insert_eq in Hi by lia. injection Hi as <-.
      rewrite Hnext. right.
      assert (1 <= Nat.min 4 (S k) <= 4)%nat as Hk' by lia.
      set (k' := Nat.min 4 (S k)) in *.
      exists w, k', l.
      destruct (solo k' s0) as [p' s']; simpl.
      repeat split; try lia; try done.
      by rewrite list_insert_insert_eq.
    + rewrite list_lookup_insert_ne in Hi by done.
      assert (won_cas p = false) as Hp.
      { rewrite Forall_lookup in Hlos. by eapply Hlos. }
      rewrite (exec_thread_loser p _ Hclosing Hp). right.
      exists w, k, (<[i:=Finished false]> l). repeat split; try lia; try done.
      * by rewrite length_insert.
      * by apply Forall_insert.
      * simpl. by rewrite list_insert_insert_ne.
Qed.

Lemma run_inv n s0 sched cf :
  serverClosing (st_conn s0) = 0 ->
  reach_inv n s0 cf -> reach_inv n s0 (run sched cf).
Proof.
  intros H0. revert cf. induction sched as [|i sched IH]; intros cf Hinv.
  - exact Hinv.
  - simpl. apply IH. by apply sched_step_inv.
Qed.

Lemma losers_finished l :
  Forall (fun p => won_cas p = false) l ->
  forallb finished l = true ->
  l = replicate (length l) (Finished false).
Proof.
  induction l as [|p l IH]; intros Hl Hf; [done|].
  inversion Hl as [|? ? Hp Hl']; subst.
  simpl in Hf. apply andb_prop in Hf as [Hp' Hf].
  simpl. f_equal; [|by apply IH].
  by destruct p as [| | | |[]].
Qed.

(** C1: for every connection whose closing flag is still clear and every
    number [n >= 1] of goroutines calling [Destroy] concurrently, whatever the
    interleaving of their steps, once all calls have returned exactly one
    caller [w] has won the compare-and-swap and every other call did nothing:
    the shared state is the one a single [Destroy] produces, with exactly one
    "server closing" log event followed by the close of the transport, and
    the [closed] flag set, so that [IsAlive] answers false. *)
Theorem Destroy_concurrent_exactly_once (n : nat) (s0 : state) (sched : list nat) :
  (1 <= n)%nat ->
  serverClosing (st_conn s0) = 0 ->
  let cf := run sched (mkConfig (replicate n AtCAS) s0) in
  forallb finished (threads cf) = true ->
  (exists w : nat,
      (w < n)%nat /\
      threads cf = <[w := Finished true]> (replicate n (Finished false))) /\
  Destroy s0 = Returns tt (shared cf) /\
  st_trace (shared cf) =
    st_trace s0
      ++ [EvDebugf (ServerClosing (name (st_conn s0)) (stats (st_conn s0)));
          EvClose] /\
  length (filter (fun e => is_server_closing_log e = true)
            (st_trace (shared cf))) =
    S (length (filter (fun e => is_server_closing_log e = true) (st_trace s0))) /\
  sock_closed (sock (st_conn (shared cf))) = true /\
  closed (st_conn (shared cf)) = 1 /\
  IsAlive (shared cf) = Returns false (shared cf).
Proof.
  intros Hn H0 cf Hfin.
  assert (reach_inv n s0 cf) as Hinv.
  { apply run_inv; [done|]. by left. }
  destruct (solo_steps s0 H0) as (s1 & s2 & s3 & E1 & E2 & E3 & E4 & _).
  destruct Hinv as [[Ht Hs] | (w & k & l & Hw & Hk & Hl & Hlos & Ht & Hs)].
  - exfalso. rewrite Ht in Hfin. destruct n; [lia|]. discriminate.
  - rewrite Ht in Hfin.
    assert (finished (solo k s0).1 = true) as Hwf.
    { rewrite forallb_forall in Hfin. apply Hfin.
      apply list_elem_of_In, list_elem_of_lookup. exists w.
      apply list_lookup_insert_eq. lia. }
    assert (k = 4)%nat as ->.
    { assert (k = 1 \/ k = 2 \/ k = 3 \/ k = 4)%nat as [->|[->|[->| ->]]] by lia;
        [rewrite E1 in Hwf|rewrite E2 in Hwf|rewrite E3 in Hwf|]; done. }
    rewrite E4 in Ht, Hs. simpl in Ht, Hs.
    assert (shared cf = destroyed s0) as Hsh by exact Hs.
    assert (threads cf = <[w:=Finished true]> l) as Hth by exact Ht.
    split.
    { exists w. split; [done|]. rewrite Hth.
      rewrite <- (list_insert_insert_eq l w (Finished true) (Finished false)).
      rewrite (losers_finished (<[w:=Finished false]> l)).
      - by rewrite length_insert, Hl.
      - by apply Forall_insert.
      - rewrite E4 in Hfin. simpl in Hfin.
        rewrite forallb_forall in Hfin |- *.
        intros p Hp. apply list_elem_of_In, list_elem_of_lookup in Hp as [j Hj].
        destruct (decide (w = j)) as [<- | Hne].
        + rewrite list_lookup_insert_eq in Hj by lia. by injection Hj as <-.
        + rewrite list_lookup_insert_ne in Hj by done.
          apply Hfin, list_elem_of_In, list_elem_of_lookup. exists j.
          by rewrite list_lookup_insert_ne. }
    rewrite Hsh. split; [by apply Destroy_wins|].
    split; [done|]. split.
    { simpl. rewrite filter_app, length_app. simpl. lia. }
    repeat split.
Qed.

Example Destroy_concurrent_witness :
  (1 <= 3)%nat /\
  serverClosing (st_conn sample_state) = 0 /\
  let cf := run sample_schedule (mkConfig (replicate 3 AtCAS) sample_state) in
  forallb finished (threads cf) = true /\
  (exists w : nat,
      (w < 3)%nat /\
      threads cf = <[w := Finished true]> (replicate 3 (Finished false))) /\
  Destroy sample_state = Returns tt (shared cf) /\
  closed (st_conn (shared cf)) = 1.
Proof.
  split; [lia|]. split; [reflexivity|]. intros cf.
  split; [vm_compute; reflexivity|].
  pose proof (Destroy_concurrent_exactly_once 3 sample_state sample_schedule
                ltac:(lia) eq_refl eq_refl) as H.
  destruct H as (Hw & HD & _ & _ & _ & Hc & _).
  exact (conj Hw (conj HD Hc)).
Defined.

(** Every goroutine takes at most four steps to return, from any state. *)
Lemma four_steps_finish p s : finished (thread_steps 4 p s).1 = true.
Proof.
  destruct s as [[sk nm tmo sel cl sc st] tr].
  destruct p; unfold thread_steps, exec_thread, thread_step; unfold_go; simpl;
    try destruct (Z.eqb_spec sc 0); simpl; reflexivity.
Qed.

Lemma run_app a b cf : run (a ++ b) cf = run b (run a cf).
Proof. unfold run. apply fold_left_app. Qed.

Lemma run_replicate_thread k i : forall cf p,
  threads cf !! i = Some p ->
  run (replicate k i) cf =
    mkConfig (<[i := (thread_steps k p (shared cf)).1]> (threads cf))
      (thread_steps k p (shared cf)).2.
Proof.
  induction k as [|k IH]; intros [l s] p Hp; simpl in Hp.
  - simpl. by rewrite list_insert_id.
  - change (run (replicate (S k) i) (mkConfig l s))
      with (run (replicate k i) (sched_step (mkConfig l s) i)).
    destruct (exec_thread p s) as [p' s'] eqn:E.
    assert (sched_step (mkConfig l s) i = mkConfig (<[i:=p']> l) s') as ->.
    { unfold sched_step. simpl. by rewrite Hp, E. }
    rewrite (IH _ p'); simpl; rewrite ?E; simpl.
    + by rewrite list_insert_insert_eq.
    + apply list_lookup_insert_eq. by eapply lookup_lt_Some.
Qed.

Lemma sequential_schedule_prefix n : forall cf,
  (n <= length (threads cf))%nat ->
  length (threads (run (sequential_schedule n) cf)) = length (threads cf) /\
  forall j, (j < n)%nat ->
    exists p, threads (run (sequential_schedule n) cf) !! j = Some p /\
              finished p = true.
Proof.
  induction n as [|n IH]; intros cf Hn.
  - split; [done | intros j Hj; lia].
  - simpl. rewrite run_app.
    destruct (IH cf ltac:(lia)) as [Hlen Hfin].
    set (cf1 := run (sequential_schedule n) cf) in *.
    destruct (lookup_lt_is_Some_2 (threads cf1) n ltac:(lia)) as [p Hp].
    change [n; n; n; n] with (replicate 4 n).
    rewrite (run_replicate_thread 4 n cf1 p Hp). simpl threads.
    split; [by rewrite length_insert|].
    intros j Hj. destruct (decide (n = j)) as [<- | Hne].
    + eexists. split; [apply list_lookup_insert_eq; lia|].
      apply four_steps_finish.
    + rewrite list_lookup_insert_ne by done. apply Hfin. lia.
Qed.

(** For every number of callers there is a schedule in which all of them
    return: the hypothesis of the theorem on concurrent [Destroy] calls can
    always be met. *)
Lemma sequential_schedule_completes n s0 :
  forallb finished
    (threads (run (sequential_schedule n) (mkConfig (replicate n AtCAS) s0)))
  = true.
Proof.
  set (cf0 := mkConfig (replicate n AtCAS) s0).
  destruct (sequential_schedule_prefix n cf0) as [Hlen Hfin].
  { simpl. by rewrite length_replicate. }
  simpl in Hlen. rewrite length_replicate in Hlen.
  apply forallb_forall. intros p Hp.
  apply list_elem_of_In, list_elem_of_lookup in Hp as [j Hj].
  destruct (Hfin j) as (p' & Hp' & Hf).
  { apply lookup_lt_Some in Hj. lia. }
  congruence.
Qed.

(** On a connection that is already closing, every further [Destroy], in any
    number and any interleaving, changes nothing. *)
Lemma Destroy_concurrent_noop sched : forall l s0,
  serverClosing (st_conn s0) = 1 ->
  Forall (fun p => won_cas p = false) l ->
  shared (run sched (mkConfig l s0)) = s0 /\
  Forall (fun p => won_cas p = false) (threads (run sched (mkConfig l s0))).
Proof.
  induction sched as [|i sched IH]; intros l s0 H1 Hl; [done|].
  change (run (i :: sched) (mkConfig l s0))
    with (run sched (sched_step (mkConfig l s0) i)).
  unfold sched_step. simpl.
  destruct (l !! i) as [p|] eqn:Hi; [|by apply IH].
  assert (won_cas p = false) as Hp.
  { rewrite Forall_lookup in Hl. by eapply Hl. }
  rewrite (exec_thread_loser p s0 H1 Hp).
  apply IH; [done|]. by apply Forall_insert.
Qed.

(** ** Fatal errors *)

Lemma LogConnErr_err e s :
  LogConnErr (Some e) s =
    Returns tt (mkState (st_conn s) (st_trace s ++ conn_err_events (st_conn s) e)).
Proof.
  destruct s as [c tr]. unfold conn_err_events. unfold_go. simpl.
  destruct (serverClosing c =? 1); simpl; [by rewrite app_nil_r|].
  destruct (is_EOF e); simpl; [done|]. by rewrite <- app_assoc.
Qed.

Lemma fail_conn_failed e s :
  fail_conn e s = Returns (I_nil, None, false) (failed e s).
Proof.
  unfold fail_conn. unfold bind at 1. rewrite LogConnErr_err.
  destruct s as [c tr]. unfold failed. unfold_go. simpl.
  by rewrite <- app_assoc.
Qed.

Lemma failed_dead e s : dead (failed e s).
Proof. by split. Qed.

Lemma dead_not_alive s : dead s -> IsAlive s = Returns false s.
Proof.
  intros [_ Hc]. unfold_go. by rewrite Hc.
Qed.

Section WithCodec.
Variable Bytes : Operation -> Z.
Variable MarshalBinary : Packet -> list Z * option error.
(** "According to MarshalBinary's documentation, it will never return a
    non-nil error." *)
Hypothesis MarshalBinary_total : forall p, (MarshalBinary p).2 = None.

Lemma SubmitResult_unfold env resp s :
  SubmitResult Bytes MarshalBinary env (I_response resp) s =
    (werr <- conn_Write (wire Bytes MarshalBinary resp) (write_answer env);;
     match werr with
     | Some e =>
         LogConnErr (Some e);;;
         conn_Close;;;
         StoreUint32_closed 1;;;
         ret false
     | None =>
         emit (EvRequestTotalDuration (resp_reqOpcode resp)
                 (resp_reqBegin resp) (resp_err resp));;;
         stats_Lock;;;
         modify_conn (fun c =>
           set_stats (record_write (frame Bytes resp) resp (now_write env) (stats c)) c);;;
         stats_Unlock;;;
         ret true
     end) s.
Proof.
  unfold SubmitResult, wire.
  pose proof (MarshalBinary_total (frame Bytes resp)) as Hm.
  destruct (MarshalBinary (frame Bytes resp)) as [buf err]. simpl in Hm.
  by subst err.
Qed.

Lemma SubmitResult_write_fails env resp s e :
  conn_Write (wire Bytes MarshalBinary resp) (write_answer env) s =
    Returns (Some e)
      (mkState (st_conn s)
         (st_trace s ++ [EvWrite (wire Bytes MarshalBinary resp)])) ->
  SubmitResult Bytes MarshalBinary env (I_response resp) s =
    Returns false
      (failed e (mkState (st_conn s) (st_trace s ++ [EvWrite (wire Bytes MarshalBinary resp)]))).
Proof.
  intros Hw. rewrite SubmitResult_unfold. unfold bind at 1. rewrite Hw.
  pose proof (fail_conn_failed e
    (mkState (st_conn s) (st_trace s ++ [EvWrite (wire Bytes MarshalBinary resp)]))) as Hf.
  unfold fail_conn in Hf. unfold bind at 1 in Hf. unfold bind at 1.
  destruct (LogConnErr (Some e) _) as [[] s1| |]; try discriminate.
  unfold bind at 1 in Hf. unfold bind at 1.
  destruct (conn_Close s1) as [[] s2| |]; try discriminate.
  unfold bind at 1 in Hf. unfold bind at 1.
  destruct (StoreUint32_closed 1 s2) as [[] s3| |]; try discriminate.
  unfold ret in *. congruence.
Qed.

Lemma conn_Write_closed buf answer s :
  sock_closed (sock (st_conn s)) = true ->
  conn_Write buf answer s =
    Returns (Some errClosed) (mkState (st_conn s) (st_trace s ++ [EvWrite buf])).
Proof.
  destruct s as [c tr]. simpl. intros Hc. unfold_go. simpl. by rewrite Hc.
Qed.

Lemma conn_Write_err buf e s :
  sock_closed (sock (st_conn s)) = false ->
  conn_Write buf (WriteErr e) s =
    Returns (Some e) (mkState (st_conn s) (st_trace s ++ [EvWrite buf])).
Proof.
  destruct s as [c tr]. simpl. intros Hc. unfold_go. simpl. by rewrite Hc.
Qed.

(** C8: on a connection that has been torn down (transport closed, [closed]
    flag set), as [Destroy] and every fatal read or write error leave it,
    [SubmitResult] returns false for every Result, whatever the network
    would answer: it neither panics nor waits, and the connection stays torn
    down, so the same holds for every later call. *)
Theorem SubmitResult_after_teardown (s0 s : state) (env : SubmitEnv) (resp : response) :
  (quiescent s0 /\ Destroy s0 = Returns tt s) \/
  (quiescent s0 /\
     exists genv job pool, GetJob genv s0 = Returns (job, pool, false) s) \/
  (exists env0 r0, SubmitResult Bytes MarshalBinary env0 r0 s0 = Returns false s) \/
  dead s ->
  dead s /\
  exists s',
    SubmitResult Bytes MarshalBinary env (I_response resp) s = Returns false s' /\
    dead s' /\ IsAlive s' = Returns false s'.
Proof.
  intros Hs.
  assert (dead s) as Hd.
  { destruct Hs as [[Hq HD] | [[Hq (genv & job & pool & HG)] | [(env0 & r0 & HS) | Hd]]].
    - by apply (Destroy_dead s0 s).
    - revert HG. unfold GetJob.
      unfold bind at 1, get_conn. unfold bind at 1.
      destruct (conn_SetReadDeadline _ _ s0) as [[e|] s1| |] eqn:E1; try discriminate.
      + rewrite fail_conn_failed. intros [= _ _ <-]. apply failed_dead.
      + assert (quiescent s1) as Hq1.
        { clear -E1 Hq. destruct s0 as [c tr]. revert E1. unfold_go. simpl.
          destruct (sock_closed (sock c)) eqn:Hc; [discriminate|].
          destruct (setDeadline_answer genv); [discriminate|].
          intros [= <-]. destruct Hq as [H0 | [H1 [Hx _]]]; [by left|].
          simpl in Hx. congruence. }
        unfold bind at 1.
        destruct (pkt_ReadFrom _ s1) as [[e|pkt] s2| |] eqn:E2; try discriminate.
        * assert (quiescent s2) as Hq2.
          { clear -E2 Hq1. destruct s1 as [c tr]. revert E2. unfold_go. simpl.
            destruct (sock_closed (sock c)); intros [= _ <-]; exact Hq1. }
          destruct (is_net_timeout e).
          -- unfold bind at 1.
             destruct (Destroy s2) as [[] s3| |] eqn:E3; try discriminate.
             intros [= _ _ <-]. by apply (Destroy_dead s2 s3).
          -- rewrite fail_conn_failed. intros [= _ _ <-]. apply failed_dead.
        * intros HG. exfalso. revert HG. unfold_go.
          repeat (match goal with
                  | |- context [if ?b then _ else _] => destruct b
                  end; simpl); discriminate.
    - destruct r0 as [| |resp0|]; try discriminate.
      rewrite SubmitResult_unfold in HS. revert HS. unfold bind at 1.
      destruct (conn_Write _ _ s0) as [[e|] s1| |] eqn:E1; try discriminate.
      + pose proof (fail_conn_failed e s1) as Hf. unfold fail_conn in Hf.
        unfold bind at 1 in Hf. unfold bind at 1.
        destruct (LogConnErr (Some e) s1) as [[] s2| |]; try discriminate.
        unfold bind at 1 in Hf. unfold bind at 1.
        destruct (conn_Close s2) as [[] s3| |]; try discriminate.
        unfold bind at 1 in Hf. unfold bind at 1.
        destruct (StoreUint32_closed 1 s3) as [[] s4| |]; try discriminate.
        unfold ret in *. intros [= <-]. injection Hf as ->. apply failed_dead.
      + unfold_go.
        repeat (match goal with
                | |- context [if ?b then _ else _] => destruct b
                end; simpl); discriminate.
    - exact Hd. }
  split; [exact Hd|].
  eexists. split.
  - apply SubmitResult_write_fails. apply conn_Write_closed. apply Hd.
  - split; [apply failed_dead | apply dead_not_alive, failed_dead].
Qed.

Lemma conn_Write_state buf answer s r s1 :
  conn_Write buf answer s = Returns r s1 ->
  s1 = mkState (st_conn s) (st_trace s ++ [EvWrite buf]).
Proof.
  destruct s as [c tr]. unfold_go. simpl.
  destruct (sock_closed (sock c)); [by intros [= _ <-]|].
  destruct answer; by intros [= _ <-].
Qed.

Lemma SubmitResult_write_ok env resp s :
  conn_Write (wire Bytes MarshalBinary resp) (write_answer env) s =
    Returns None (mkState (st_conn s) (st_trace s ++ [EvWrite (wire Bytes MarshalBinary resp)])) ->
  lock (stats (st_conn s)) = false ->
  let c := st_conn s in
  let tr := st_trace s ++ [EvWrite (wire Bytes MarshalBinary resp);
              EvRequestTotalDuration (resp_reqOpcode resp) (resp_reqBegin resp)
                (resp_err resp)] in
  let held := mkState (set_stats (set_lock true (stats c)) c) tr in
  let updated :=
    mkState
      (set_stats
         (record_write (frame Bytes resp) resp (now_write env)
            (stats (st_conn held))) (st_conn held)) tr in
  let final :=
    mkState
      (set_stats (record_write (frame Bytes resp) resp (now_write env) (stats c)) c)
      tr in
  stats_Lock (mkState c tr) = Returns tt held /\
  stats_Unlock updated = Returns tt final /\
  SubmitResult Bytes MarshalBinary env (I_response resp) s = Returns true final.
Proof.
  intros Hw Hl. rewrite SubmitResult_unfold. unfold bind at 1. rewrite Hw.
  destruct s as [[sk nm tmo sel cl sc [sp rd wr lr lw lk]] tr0].
  simpl in Hl. subst lk. unfold_go. simpl.
  rewrite <- app_assoc. simpl. done.
Qed.


(** C2, as the code has it: the packet [SubmitResult] frames and writes
    carries the Result's correlation ID, which for a Result built from a Job
    is the ID of the packet [GetJob] read; its header is version 1.0 with the
    length of the Result's own operation, and its operation (opcode and
    payload) is the Result's own. The originating opcode is not used for any
    field of the packet: it goes to the duration metric and to the
    last-write statistics only. *)
Theorem SubmitResult_frames_result (env : SubmitEnv) (resp : response) (s : state) :
  let pkt := frame Bytes resp in
  pkt_ID pkt = resp_id resp /\
  MajorVers (PHeader pkt) = 1 /\ MinorVers (PHeader pkt) = 0 /\
  Length (PHeader pkt) = Bytes (resp_op resp) /\
  POperation pkt = resp_op resp /\
  (forall o : Op,
      frame Bytes
        (mkResponse (resp_id resp) (resp_op resp) o (resp_reqBegin resp)
           (resp_err resp)) = pkt) /\
  (exists rest,
      st_trace (outcome_state
                  (SubmitResult Bytes MarshalBinary env (I_response resp) s)) =
        st_trace s ++ EvWrite (MarshalBinary pkt).1 :: rest) /\
  (forall final,
      SubmitResult Bytes MarshalBinary env (I_response resp) s = Returns true final ->
      ev_opcode (lastWrite (stats (st_conn final))) = resp_reqOpcode resp /\
      ev_id (lastWrite (stats (st_conn final))) = resp_id resp /\
      EvRequestTotalDuration (resp_reqOpcode resp) (resp_reqBegin resp)
        (resp_err resp) ∈ st_trace final) /\
  (forall genv s0 req pool s1 outcome_op err,
      GetJob genv s0 = Returns (I_request req, pool, true) s1 ->
      read_answer genv = inr (req_pkt req) /\
      pkt_ID (frame Bytes (worker_result req outcome_op err)) =
        pkt_ID (req_pkt req)).
Proof.
  intros pkt. repeat split; try done.
  - rewrite SubmitResult_unfold. fold pkt.
    destruct s as [[sk nm tmo sel cl sc [sp rd wr lr lw lk]] tr].
    unfold_go. simpl.
    destruct sk as [[] dl]; simpl.
    + destruct (sc =? 1); simpl; [|destruct (is_EOF errClosed); simpl];
        rewrite <- ?app_assoc; simpl; eauto.
    + destruct (write_answer env) as [n|e|]; simpl.
      * destruct lk; simpl; rewrite <- ?app_assoc; simpl; eauto.
      * destruct (sc =? 1); simpl; [|destruct (is_EOF e); simpl];
          rewrite <- ?app_assoc; simpl; eauto.
      * eauto.
  - revert H. rewrite SubmitResult_unfold.
    destruct s as [[sk nm tmo sel cl sc [sp rd wr lr lw lk]] tr].
    unfold_go. simpl.
    repeat (match goal with
            | |- context [if ?b then _ else _] => destruct b
            | |- context [match write_answer env with _ => _ end] =>
                destruct (write_answer env)
            end; simpl); try discriminate; by intros [= <-].
  - revert H. rewrite SubmitResult_unfold.
    destruct s as [[sk nm tmo sel cl sc [sp rd wr lr lw lk]] tr].
    unfold_go. simpl.
    repeat (match goal with
            | |- context [if ?b then _ else _] => destruct b
            | |- context [match write_answer env with _ => _ end] =>
                destruct (write_answer env)
            end; simpl); try discriminate; by intros [= <-].
  - revert H. rewrite SubmitResult_unfold.
    destruct s as [[sk nm tmo sel cl sc [sp rd wr lr lw lk]] tr].
    unfold_go. simpl.
    repeat (match goal with
            | |- context [if ?b then _ else _] => destruct b
            | |- context [match write_answer env with _ => _ end] =>
                destruct (write_answer env)
            end; simpl); try discriminate; intros [= <-]; simpl;
      rewrite !elem_of_app, !list_elem_of_singleton; eauto.
  - revert H. destruct s0 as [[sk nm tmo sel cl sc [sp rd wr lr lw lk]] tr].
    unfold GetJob. unfold_go. simpl.
    repeat (match goal with
            | |- context [if ?b then _ else _] => destruct b
            | |- context [match setDeadline_answer genv with _ => _ end] =>
                destruct (setDeadline_answer genv)
            | |- context [match read_answer genv with _ => _ end] =>
                destruct (read_answer genv)
            end; simpl); try discriminate; by intros [= <- _ _].
Qed.

End WithCodec.

(** ** [GetJob] when the read fails *)

Lemma GetJob_read_error env s e :
  sock_closed (sock (st_conn s)) = false ->
  setDeadline_answer env = None ->
  read_answer env = inl e ->
  GetJob env s =
    (if is_net_timeout e
     then Destroy;;; ret (I_nil, None, false)
     else fail_conn e) (reading env s).
Proof.
  destruct s as [[sk nm tmo sel cl sc st] tr]. simpl.
  intros Hopen Hsd Hrd. unfold GetJob, reading.
  unfold conn_SetReadDeadline, pkt_ReadFrom, bind, ret, emit, get_conn,
    modify_conn. simpl.
  rewrite Hopen, Hsd. simpl. rewrite Hrd. rewrite <- app_assoc. simpl.
  by destruct (is_net_timeout e).
Qed.

(** C6, as the code has it: when the read of [GetJob] ends on the expiry of
    the read deadline, [GetJob] calls [Destroy] once and returns [ok = false];
    on a connection with no [Destroy] in flight this logs the one "server
    closing" debug line, closes the transport and clears the alive flag, and
    no error-level log is emitted. Every other read or parse error [e]
    force-closes the transport, clears the alive flag and returns
    [ok = false]; it is logged at error level (and counted as a connection
    failure) only when [e] is not [io.EOF] and the connection is not in
    server-initiated closing: [io.EOF] is logged at debug level as "closed
    by client", and nothing is logged while the server is closing the
    connection. *)
Theorem GetJob_read_failure (env : GetJobEnv) (s : state) (e : error) :
  sock_closed (sock (st_conn s)) = false ->
  setDeadline_answer env = None ->
  read_answer env = inl e ->
  let c := st_conn s in
  let t := now_deadline env + timeout c in
  let s1 := reading env s in
  (is_net_timeout e = true ->
   quiescent s ->
     GetJob env s = Returns (I_nil, None, false) (destroyed s1) /\
     Destroy s1 = Returns tt (destroyed s1) /\
     st_trace (destroyed s1) =
       st_trace s ++ [EvSetReadDeadline t; EvRead;
                      EvDebugf (ServerClosing (name c) (stats c)); EvClose] /\
     filter (fun ev => is_error_level ev = true) (st_trace (destroyed s1)) =
       filter (fun ev => is_error_level ev = true) (st_trace s) /\
     dead (destroyed s1) /\
     IsAlive (destroyed s1) = Returns false (destroyed s1)) /\
  (is_net_timeout e = false ->
     GetJob env s = Returns (I_nil, None, false) (failed e s1) /\
     st_trace (failed e s1) =
       st_trace s ++ [EvSetReadDeadline t; EvRead] ++ conn_err_events c e
         ++ [EvClose] /\
     existsb is_error_level (conn_err_events c e) =
       negb (serverClosing c =? 1) && negb (is_EOF e) /\
     (is_EOF e = true -> serverClosing c <> 1 ->
        conn_err_events c e = [EvDebugf (ClosedByClient (name c) (stats c))]) /\
     (serverClosing c = 1 -> conn_err_events c e = []) /\
     dead (failed e s1) /\
     IsAlive (failed e s1) = Returns false (failed e s1)).
Proof.
  intros Hopen Hsd Hrd c t s1. subst s1.
  pose proof (GetJob_read_error env s e Hopen Hsd Hrd) as HG.
  split.
  - intros Hto Hq. rewrite Hto in HG.
    assert (serverClosing (st_conn (reading env s)) = 0) as H0.
    { destruct Hq as [H0 | [_ [Hc _]]]; [exact H0 | congruence]. }
    pose proof (Destroy_wins _ H0) as HD.
    split.
    { rewrite HG. unfold bind. by rewrite HD. }
    split; [exact HD|].
    split.
    { unfold destroyed, reading. simpl. by rewrite <- app_assoc. }
    split.
    { unfold destroyed, reading. simpl.
      rewrite !filter_app. simpl. by rewrite !app_nil_r. }
    split; [by split | by apply dead_not_alive].
  - intros Hto. rewrite Hto in HG.
    split; [by rewrite HG, fail_conn_failed|].
    split.
    { unfold failed, reading. simpl. by rewrite <- app_assoc. }
    split.
    { unfold conn_err_events.
      destruct (serverClosing c =? 1); [done|]. by destruct (is_EOF e). }
    split.
    { intros He Hsc. unfold conn_err_events.
      destruct (Z.eqb_spec (serverClosing c) 1); [done|]. by rewrite He. }
    split.
    { intros Hsc. unfold conn_err_events. by rewrite Hsc. }
    split; [apply failed_dead | apply dead_not_alive, failed_dead].
Qed.

(** ** The model run on sample values *)

Lemma sample_MarshalBinary_total p : (sample_MarshalBinary p).2 = None.
Proof. reflexivity. Qed.

Example SubmitResult_after_teardown_witness :
  (quiescent sample_state /\
   Destroy sample_state = Returns tt (destroyed sample_state)) /\
  exists s',
    SubmitResult sample_Bytes sample_MarshalBinary
      (mkSubmitEnv (WriteOk 12) 2000) (I_response sample_pong)
      (destroyed sample_state) = Returns false s' /\
    dead s'.
Proof.
  assert (quiescent sample_state /\
          Destroy sample_state = Returns tt (destroyed sample_state)) as H.
  { split; [by left | reflexivity]. }
  split; [exact H|].
  destruct (SubmitResult_after_teardown sample_Bytes sample_MarshalBinary
              sample_MarshalBinary_total sample_state (destroyed sample_state)
              (mkSubmitEnv (WriteOk 12) 2000) sample_pong (or_introl H))
    as (_ & s' & HS & Hd & _).
  exists s'. by split.
Defined.



(** C2 as stated fails on its second half: the reply to a ping (opcode 241)
    is framed with the opcode of the Result's own operation (242), and a
    Result that differs only in its originating opcode gives the very same
    packet and the very same bytes on the wire. *)
Example frame_ignores_originating_opcode :
  let req := mkRequest sample_ping 1001 "10.0.0.7:51234" in
  let resp := worker_result req (mkOperation 242 [1; 2; 3]) None in
  let resp' := mkResponse 7 (mkOperation 242 [1; 2; 3]) 1 1001 None in
  resp = sample_pong /\
  resp_reqOpcode resp = pkt_Opcode sample_ping /\
  pkt_Opcode (frame sample_Bytes resp) <> resp_reqOpcode resp /\
  resp_reqOpcode resp' <> resp_reqOpcode resp /\
  frame sample_Bytes resp' = frame sample_Bytes resp /\
  PHeader (frame sample_Bytes resp) = mkHeader 1 0 3 7 /\
  st_trace (outcome_state
      (SubmitResult sample_Bytes sample_MarshalBinary
         (mkSubmitEnv (WriteOk 12) 2000) (I_response resp) sample_state)) =
    [EvWrite [1; 0; 0; 3; 0; 0; 0; 7; 242; 1; 2; 3];
     EvRequestTotalDuration 241 1001 None].
Proof. repeat split; try reflexivity; discriminate. Qed.

Example SubmitResult_frames_result_witness :
  (forall p, (sample_MarshalBinary p).2 = None) /\
  pkt_ID (frame sample_Bytes sample_pong) = resp_id sample_pong /\
  POperation (frame sample_Bytes sample_pong) = resp_op sample_pong /\
  exists rest,
    st_trace (outcome_state
        (SubmitResult sample_Bytes sample_MarshalBinary
           (mkSubmitEnv (WriteOk 12) 2000) (I_response sample_pong)
           sample_state)) =
      st_trace sample_state
        ++ EvWrite (sample_MarshalBinary (frame sample_Bytes sample_pong)).1 :: rest.
Proof.
  split; [exact sample_MarshalBinary_total|].
  destruct (SubmitResult_frames_result sample_Bytes sample_MarshalBinary
              sample_MarshalBinary_total (mkSubmitEnv (WriteOk 12) 2000)
              sample_pong sample_state)
    as (Hid & _ & _ & _ & Hop & _ & Hw & _).
  exact (conj Hid (conj Hop Hw)).
Defined.

(** C6 as stated fails on its second half: a read that ends with [io.EOF]
    is not a timeout, yet nothing is logged at error level (the peer's close
    is logged at debug level). *)
Example GetJob_EOF_not_error_level :
  let env := mkGetJobEnv 1000 None (inl io_EOF) 1001 in
  is_net_timeout io_EOF = false /\
  exists s',
    GetJob env sample_state = Returns (I_nil, None, false) s' /\
    st_trace s' =
      [EvSetReadDeadline 1030; EvRead;
       EvDebugf (ClosedByClient "10.0.0.7:51234" (stats (st_conn sample_state)));
       EvClose] /\
    existsb is_error_level (st_trace s') = false.
Proof.
  split; [reflexivity|]. eexists. split; [reflexivity|]. split; reflexivity.
Qed.

Example GetJob_read_failure_witness :
  let env := mkGetJobEnv 1000 None (inl (net_Error true "i/o timeout")) 1001 in
  sock_closed (sock (st_conn sample_state)) = false /\
  setDeadline_answer env = None /\
  read_answer env = inl (net_Error true "i/o timeout") /\
  GetJob env sample_state =
    Returns (I_nil, None, false) (destroyed (reading env sample_state)) /\
  dead (destroyed (reading env sample_state)).
Proof.
  intros env.
  destruct (GetJob_read_failure env sample_state
              (net_Error true "i/o timeout") eq_refl eq_refl eq_refl)
    as [Hto _].
  destruct (Hto eq_refl (or_introl eq_refl)) as (HG & _ & _ & _ & Hd & _).
  split; [reflexivity|]. split; [reflexivity|]. split; [reflexivity|].
  split; [exact HG | exact Hd].
Defined.

(** * Further properties of the server side *)

Ltac split_state s :=
  destruct s as [[[skc dl] nm tmo sel cl sc [sp rd wr lr lw lk]] tr].

Ltac go_cases :=
  repeat (simpl;
          match goal with
          | |- context [match ?x with _ => _ end] =>
              match type of x with
              | bool => destruct x eqn:?
              | option _ => destruct x eqn:?
              | sum _ _ => destruct x eqn:?
              | WriteResult => destruct x eqn:?
              | prod _ _ => destruct x eqn:?
              | iface => destruct x eqn:?
              | error => destruct x eqn:?
              end
          end).

Ltac zbool :=
  repeat match goal with
         | H : (_ =? _) = true |- _ => apply Z.eqb_eq in H
         | H : (_ =? _) = false |- _ => apply Z.eqb_neq in H
         end.

Ltac unfold_call :=
  unfold exec_call, GetJob, SubmitResult; unfold_go.

Lemma count_app f tr evs : count f (tr ++ evs) = count f tr + count f evs.
Proof.
  unfold count. rewrite List.filter_app, length_app. lia.
Qed.

Lemma int_incr_wrap z : int_incr (wrap_int z) = wrap_int (z + 1).
Proof.
  unfold int_incr, wrap_int.
  replace ((z + 2 ^ 63) mod 2 ^ 64 - 2 ^ 63 + 1 + 2 ^ 63)
    with ((z + 2 ^ 63) mod 2 ^ 64 + 1) by lia.
  rewrite Zplus_mod_idemp_l. f_equal. f_equal. lia.
Qed.

Lemma filter_log_app tr evs :
  List.filter is_log (tr ++ evs) = List.filter is_log tr ++ List.filter is_log evs.
Proof. apply List.filter_app. Qed.

Section Histories.
Variable Bytes : Operation -> Z.
Variable MarshalBinary : Packet -> list Z * option error.

Lemma exec_call_monotone s c :
  (closed (st_conn s) <> 0 ->
   closed (st_conn (exec_call Bytes MarshalBinary s c)) <> 0) /\
  (sock_closed (sock (st_conn s)) = true ->
   sock_closed (sock (st_conn (exec_call Bytes MarshalBinary s c))) = true) /\
  (serverClosing (st_conn s) = 1 ->
   serverClosing (st_conn (exec_call Bytes MarshalBinary s c)) = 1).
Proof.
  split_state s. destruct c as [env | env result | |]; unfold_call;
    go_cases; zbool; repeat split; intros; simpl in *;
    try done; try lia; try congruence.
Qed.

Lemma exec_call_inv s c :
  conn_inv s -> conn_inv (exec_call Bytes MarshalBinary s c).
Proof.
  split_state s. unfold conn_inv. simpl.
  intros (Hlk & Hcl & Hcs & Hsc & Hscl). subst lk.
  destruct c as [env | env result | |]; unfold_call;
    go_cases; zbool; simpl in *;
    repeat split; intros; try done; try lia; try congruence;
    try (by left); try (by right);
    try (apply Hcs; congruence); try (apply Hcs; lia);
    try (destruct Hcs as [Hcs1 Hcs2]; intuition (try lia; try congruence)).
Qed.

Lemma exec_call_counters s c :
  conn_inv s ->
  reads (stats (st_conn s)) = wrap_int (count is_request_metric (st_trace s)) ->
  writes (stats (st_conn s)) = wrap_int (count is_duration_metric (st_trace s)) ->
  let s' := exec_call Bytes MarshalBinary s c in
  reads (stats (st_conn s')) = wrap_int (count is_request_metric (st_trace s')) /\
  writes (stats (st_conn s')) = wrap_int (count is_duration_metric (st_trace s')).
Proof.
  split_state s. unfold conn_inv. simpl.
  intros (Hlk & _) Hrd Hwr. subst lk.
  destruct c as [env | env result | |]; unfold_call;
    go_cases; simpl; rewrite ?count_app; cbn [count List.filter length
      is_request_metric is_duration_metric Z.of_nat];
    rewrite ?Z.add_0_r; try (split; done);
    split; try done; subst; rewrite int_incr_wrap; reflexivity.
Qed.

Lemma exec_call_silent s c :
  serverClosing (st_conn s) = 1 ->
  List.filter is_log (st_trace (exec_call Bytes MarshalBinary s c))
  = List.filter is_log (st_trace s).
Proof.
  split_state s. simpl. intros ->.
  destruct c as [env | env result | |]; unfold_call;
    go_cases; simpl; rewrite ?filter_log_app; simpl; rewrite ?app_nil_r; done.
Qed.

Lemma exec_calls_snoc cs c s :
  exec_calls Bytes MarshalBinary (cs ++ [c]) s
  = exec_call Bytes MarshalBinary (exec_calls Bytes MarshalBinary cs s) c.
Proof. unfold exec_calls. by rewrite fold_left_app. Qed.

Lemma exec_calls_inv cs s :
  conn_inv s -> conn_inv (exec_calls Bytes MarshalBinary cs s).
Proof.
  revert s. induction cs as [|c cs IH]; intros s Hinv; [done|].
  simpl. by apply IH, exec_call_inv.
Qed.

Lemma newConn_inv nm deadline tmo sel now tr :
  conn_inv (mkState (newConn nm (mkNetConn false deadline) tmo sel now) tr).
Proof. unfold conn_inv. simpl. repeat split; try (by left); done. Qed.

(** X1: no call ever revives a connection. Once [IsAlive] answers false it
    answers false after every further history of calls; a transport that
    was closed stays closed; a connection the server is closing stays so. *)
Theorem flags_are_monotone (cs : list call) (s : state) :
  let s' := exec_calls Bytes MarshalBinary cs s in
  (IsAlive s = Returns false s -> IsAlive s' = Returns false s') /\
  (sock_closed (sock (st_conn s)) = true ->
   sock_closed (sock (st_conn s')) = true) /\
  (serverClosing (st_conn s) = 1 -> serverClosing (st_conn s') = 1).
Proof.
  revert s. induction cs as [|c cs IH]; intros s; simpl.
  { by repeat split. }
  destruct (exec_call_monotone s c) as (Hc & Hs & Hsc).
  destruct (IH (exec_call Bytes MarshalBinary s c)) as (IHc & IHs & IHsc).
  repeat split.
  - intros Hdead. apply IHc.
    assert (closed (st_conn s) <> 0) as Hne.
    { revert Hdead. unfold_go. destruct (Z.eqb_spec (closed (st_conn s)) 0);
        [discriminate | done]. }
    apply Hc in Hne. unfold_go.
    by destruct (Z.eqb_spec (closed (st_conn (exec_call Bytes MarshalBinary s c))) 0).
  - intros H. by apply IHs, Hs.
  - intros H. by apply IHsc, Hsc.
Qed.

(** X2: on a connection made by [newConn] over an open transport, after
    every history of [GetJob], [SubmitResult], [Destroy] and [IsAlive]
    calls: the stats mutex is free, [closed] and [serverClosing] are 0 or 1,
    [IsAlive] answers true exactly when the transport has not been closed,
    and a connection the server is closing is not alive. *)
Theorem newConn_invariant (nm : string) (deadline : option Time) (tmo : Z)
    (sel : Packet -> Pool) (now : Time) (tr : list event) (cs : list call) :
  let s := exec_calls Bytes MarshalBinary cs
             (mkState (newConn nm (mkNetConn false deadline) tmo sel now) tr) in
  conn_inv s /\
  IsAlive s = Returns (negb (sock_closed (sock (st_conn s)))) s /\
  (serverClosing (st_conn s) = 1 -> IsAlive s = Returns false s).
Proof.
  intros s.
  assert (conn_inv s) as Hinv by apply exec_calls_inv, newConn_inv.
  split; [exact Hinv|].
  destruct Hinv as (_ & Hcl & Hcs & _ & Hscl).
  assert (IsAlive s = Returns (negb (sock_closed (sock (st_conn s)))) s) as Ha.
  { unfold_go. destruct Hcl as [H0 | H1].
    - rewrite H0. simpl. destruct (sock_closed (sock (st_conn s))); [|done].
      destruct Hcs as [_ Hcs]. specialize (Hcs eq_refl). lia.
    - rewrite H1. simpl. destruct Hcs as [Hcs _]. by rewrite (Hcs H1). }
  split; [exact Ha|].
  intros Hsc. rewrite Ha. destruct Hcs as [Hcs _].
  by rewrite (Hcs (Hscl Hsc)).
Qed.

(** X3: on a connection made by [newConn], after every history of calls the
    read counter is the number of requests received and the write counter
    the number of results written, as Go's [int] counts them (modulo
    2^64). *)
Theorem counters_count_events (nm : string) (deadline : option Time)
    (tmo : Z) (sel : Packet -> Pool) (now : Time) (cs : list call) :
  let s := exec_calls Bytes MarshalBinary cs
             (mkState (newConn nm (mkNetConn false deadline) tmo sel now) []) in
  reads (stats (st_conn s)) = wrap_int (count is_request_metric (st_trace s)) /\
  writes (stats (st_conn s)) = wrap_int (count is_duration_metric (st_trace s)).
Proof.
  intros s. subst s. induction cs as [|c cs IH] using rev_ind.
  - simpl. split; reflexivity.
  - rewrite exec_calls_snoc. destruct IH as [Hr Hw].
    apply exec_call_counters; [|done|done].
    apply exec_calls_inv, newConn_inv.
Qed.

(** X4: a shutdown is logged once. On a connection the server is closing,
    no further call logs anything, whatever errors it meets; so on a
    connection made by [newConn], every history that starts with [Destroy]
    leaves exactly one log line, the "server closing" one. *)
Theorem closing_connection_is_silent (cs : list call) (s : state) :
  (serverClosing (st_conn s) = 1 ->
   List.filter is_log (st_trace (exec_calls Bytes MarshalBinary cs s))
   = List.filter is_log (st_trace s)) /\
  (serverClosing (st_conn s) = 0 ->
   List.filter is_log
     (st_trace (exec_calls Bytes MarshalBinary (CallDestroy :: cs) s))
   = List.filter is_log (st_trace s)
       ++ [EvDebugf (ServerClosing (name (st_conn s)) (stats (st_conn s)))]).
Proof.
  assert (forall cs s,
    serverClosing (st_conn s) = 1 ->
    List.filter is_log (st_trace (exec_calls Bytes MarshalBinary cs s))
    = List.filter is_log (st_trace s)) as Hsilent.
  { clear cs s. induction cs as [|c cs IH]; intros s H1; [done|].
    simpl. rewrite IH.
    - by apply exec_call_silent.
    - by apply exec_call_monotone. }
  split; [apply Hsilent|].
  intros H0. simpl. rewrite (Destroy_wins s H0). simpl.
  rewrite Hsilent by done. simpl.
  rewrite filter_log_app. reflexivity.
Qed.

End Histories.

(** X5: when the deadline is set and a packet arrives (the stats mutex being
    free), [GetJob] returns the job made of that packet, the arrival time
    and the connection's name, with the pool the selector chooses for the
    packet and [ok = true]; it counts the read and records its time, ID and
    opcode, leaves the write statistics, the flags and the transport as
    they were (only the deadline moves), and logs nothing. *)
Theorem GetJob_success (env : GetJobEnv) (s : state) (pkt : Packet) :
  sock_closed (sock (st_conn s)) = false ->
  setDeadline_answer env = None ->
  read_answer env = inr pkt ->
  lock (stats (st_conn s)) = false ->
  let c := st_conn s in
  let t := now_deadline env + timeout c in
  exists s',
    GetJob env s =
      Returns (I_request (mkRequest pkt (now_begin env) (name c)),
               Some (selector c pkt), true) s' /\
    st_trace s' =
      st_trace s ++ [EvSetReadDeadline t; EvRead; EvRequest (pkt_Opcode pkt)] /\
    reads (stats (st_conn s')) = int_incr (reads (stats c)) /\
    lastRead (stats (st_conn s')) =
      mkConnEvent (now_begin env) (pkt_ID pkt) (pkt_Opcode pkt) /\
    writes (stats (st_conn s')) = writes (stats c) /\
    lastWrite (stats (st_conn s')) = lastWrite (stats c) /\
    lock (stats (st_conn s')) = false /\
    closed (st_conn s') = closed c /\
    serverClosing (st_conn s') = serverClosing c /\
    sock (st_conn s') = mkNetConn false (Some t).
Proof.
  split_state s. simpl. intros -> Hsd Hrd ->.
  unfold GetJob. unfold_go. simpl. rewrite Hsd. simpl. rewrite Hrd. simpl.
  eexists. split; [reflexivity|]. simpl.
  rewrite <- !app_assoc. by repeat split.
Qed.

(** X6: when the read deadline cannot be set, because [SetReadDeadline]
    reports an error or because the transport is already closed, [GetJob]
    gives up without reading: it returns [ok = false], handles the error as
    a fatal one (logged by [LogConnErr]'s rules, transport closed, [closed]
    set) and leaves the statistics untouched. *)
Theorem GetJob_without_deadline (env : GetJobEnv) (s : state) (e : error) :
  (sock_closed (sock (st_conn s)) = true /\ e = errClosed) \/
  (sock_closed (sock (st_conn s)) = false /\ setDeadline_answer env = Some e) ->
  let c := st_conn s in
  let t := now_deadline env + timeout c in
  exists s',
    GetJob env s = Returns (I_nil, None, false) s' /\
    st_trace s' =
      st_trace s ++ [EvSetReadDeadline t] ++ conn_err_events c e ++ [EvClose] /\
    count is_read (st_trace s') = count is_read (st_trace s) /\
    stats (st_conn s') = stats c /\
    dead s' /\
    IsAlive s' = Returns false s'.
Proof.
  intros Hcase c t.
  assert (GetJob env s =
          fail_conn e (mkState c (st_trace s ++ [EvSetReadDeadline t]))) as HG.
  { subst c t. split_state s. simpl in *. unfold GetJob.
    unfold conn_SetReadDeadline, bind, ret, emit, get_conn. simpl.
    destruct Hcase as [[-> ->] | [-> ->]]; reflexivity. }
  rewrite HG, fail_conn_failed. eexists. split; [reflexivity|].
  unfold failed. simpl. split; [by rewrite <- !app_assoc|].
  split.
  { rewrite !count_app. unfold conn_err_events.
    destruct (serverClosing c =? 1); [unfold count; simpl; lia|].
    destruct (is_EOF e); unfold count; simpl; lia. }
  split; [done|]. split; [by split|]. by apply dead_not_alive.
Qed.

(** X7: [Destroy] always returns, and a second [Destroy] changes nothing:
    whatever state the first call leaves, calling [Destroy] again returns
    with that very state (no second log line, no second close). *)
Theorem Destroy_twice (s : state) :
  exists s',
    Destroy s = Returns tt s' /\
    Destroy s' = Returns tt s' /\
    (serverClosing (st_conn s) = 0 -> s' = destroyed s) /\
    (serverClosing (st_conn s) <> 0 -> s' = s).
Proof.
  destruct (decide (serverClosing (st_conn s) = 0)) as [H0 | Hne].
  - exists (destroyed s). split; [by apply Destroy_wins|].
    split; [by apply Destroy_loses|]. split; [done|]. by intros [].
  - exists s. split; [by apply Destroy_loses|].
    split; [by apply Destroy_loses|]. split; [by intros ?|done].
Qed.

(** X8: [LogConnErr] never touches the connection and adds at most one log
    line. The line is at error level exactly when the error is non-nil, is
    not [io.EOF], and the server is not closing the connection; the
    connection-failure metric is counted exactly in that case; a nil error
    always gives the debug line "server closing". *)
Theorem LogConnErr_policy (err : option error) (s : state) :
  exists evs,
    LogConnErr err s = Returns tt (mkState (st_conn s) (st_trace s ++ evs)) /\
    (count is_log evs <= 1) /\
    count is_conn_failure evs = count is_error_level evs /\
    (count is_error_level evs = 1 <->
     exists e, err = Some e /\ is_EOF e = false /\
               serverClosing (st_conn s) <> 1) /\
    (err = None ->
     evs = [EvDebugf (ServerClosing (name (st_conn s)) (stats (st_conn s)))]).
Proof.
  destruct err as [e|].
  - exists (conn_err_events (st_conn s) e).
    split; [apply LogConnErr_err|]. unfold conn_err_events.
    destruct (Z.eqb_spec (serverClosing (st_conn s)) 1) as [H1 | H1].
    + repeat split; try done. intros (e' & _ & _ & Hne). done.
    + destruct (is_EOF e) eqn:He.
      * repeat split; try done. intros (e' & [= <-] & He' & _). congruence.
      * repeat split; try done. intros _. by exists e.
  - exists [EvDebugf (ServerClosing (name (st_conn s)) (stats (st_conn s)))].
    split.
    { destruct s as [c tr]. unfold_go. reflexivity. }
    repeat split; try done. intros (e & He & _). discriminate.
Qed.

(** ** The further properties on sample values *)

Example flags_are_monotone_witness :
  IsAlive (destroyed sample_state) = Returns false (destroyed sample_state) /\
  let s' := exec_calls sample_Bytes sample_MarshalBinary sample_history
              (destroyed sample_state) in
  IsAlive s' = Returns false s'.
Proof.
  split; [reflexivity|].
  destruct (flags_are_monotone sample_Bytes sample_MarshalBinary
              sample_history (destroyed sample_state)) as (H & _).
  exact (H eq_refl).
Defined.

Example closing_connection_is_silent_witness :
  serverClosing (st_conn sample_state) = 0 /\
  List.filter is_log
    (st_trace (exec_calls sample_Bytes sample_MarshalBinary
                 (CallDestroy :: sample_history) sample_state))
  = [EvDebugf (ServerClosing (name (st_conn sample_state))
                 (stats (st_conn sample_state)))].
Proof.
  split; [reflexivity|].
  destruct (closing_connection_is_silent sample_Bytes sample_MarshalBinary
              sample_history sample_state) as (_ & H).
  exact (H eq_refl).
Defined.

Example GetJob_success_witness :
  let env := mkGetJobEnv 1000 None (inr sample_ping) 1001 in
  sock_closed (sock (st_conn sample_state)) = false /\
  lock (stats (st_conn sample_state)) = false /\
  exists s',
    GetJob env sample_state =
      Returns (I_request (mkRequest sample_ping 1001 "10.0.0.7:51234"),
               Some 0%nat, true) s' /\
    reads (stats (st_conn s')) = 1.
Proof.
  intros env. split; [reflexivity|]. split; [reflexivity|].
  destruct (GetJob_success env sample_state sample_ping
              eq_refl eq_refl eq_refl eq_refl)
    as (s' & HG & _ & Hr & _).
  exists s'. split; [exact HG | exact Hr].
Defined.

Example GetJob_without_deadline_witness :
  let env := mkGetJobEnv 1000 None (inr sample_ping) 1001 in
  sock_closed (sock (st_conn (destroyed sample_state))) = true /\
  exists s',
    GetJob env (destroyed sample_state) = Returns (I_nil, None, false) s' /\
    count is_read (st_trace s') = 0.
Proof.
  intros env. split; [reflexivity|].
  destruct (GetJob_without_deadline env (destroyed sample_state) errClosed
              (or_introl (conj eq_refl eq_refl)))
    as (s' & HG & _ & Hr & _).
  exists s'. split; [exact HG | exact Hr].
Defined.

End ServerSpec.

(** * Properties of the client side *)
Module ClientSpec.
Import Client.
Local Open Scope nat_scope.
Local Open Scope go_scope.

Ltac unfold_client :=
  unfold NewConn, deref, tls_Dial, rand_Intn, read_array, slice_index,
    slice_read, slice_to, slice_from, append, registerSKI, put_client,
    put_conn_heap, put_arrays, get_client, get_world, emit, set_conns,
    set_allServers, bind, ret, panic in *.

(** ** [Dial] *)

Section WithNetwork.
Variable tls_answer : nat -> string -> error + nat.

Lemma Dial_not_initialized server w :
  Config (client w) = None ->
  Dial tls_answer server w = Returns (None, Some errNotInitialized) w.
Proof.
  destruct w as [[cfg cs regs] h ar tr rc dc]. simpl. intros ->. reflexivity.
Qed.

Lemma Dial_cached_open server w cfg p cn :
  Config (client w) = Some cfg ->
  conns (client w) !! server = Some p ->
  conn_heap w !! p = Some cn ->
  IsOpen cn = true ->
  Dial tls_answer server w = Returns (Some p, None) w.
Proof.
  destruct w as [[cfg' cs regs] h ar tr rc dc]. simpl.
  intros -> Hc Hh Ho. unfold Dial. unfold_client. simpl.
  rewrite Hc. simpl. rewrite Hh. simpl. by rewrite Ho.
Qed.

Lemma Dial_fresh server w cfg :
  Config (client w) = Some cfg ->
  (conns (client w) !! server = None \/
   exists p cn, conns (client w) !! server = Some p /\
                conn_heap w !! p = Some cn /\ IsOpen cn = false) ->
  Dial tls_answer server w =
    match tls_answer (dial_calls w) server with
    | inl err => Returns (None, Some err) (dialed server w)
    | inr raw =>
        Returns (Some (fresh (dom (conn_heap w))), None) (connected server raw w)
    end.
Proof.
  destruct w as [[cfg' cs regs] h ar tr rc dc]. simpl.
  intros -> Hcache. unfold Dial, dialed, connected. unfold_client. simpl.
  destruct Hcache as [Hc | (p & cn & Hc & Hh & Ho)].
  - rewrite Hc. simpl. rewrite <- app_assoc. simpl.
    rewrite (delete_id cs server Hc).
    destruct (tls_answer dc server); simpl; [done|].
    by rewrite lookup_insert_eq.
  - rewrite Hc. simpl. rewrite Hh. simpl. rewrite Ho. simpl.
    rewrite <- app_assoc. simpl.
    destruct (tls_answer dc server); simpl; [done|].
    by rewrite lookup_insert_eq.
Qed.

(** C9: [Dial] before the trust configuration is set fails at once with the
    configuration error, touching nothing. With a configuration, a cached
    connection that is still open is returned as it is, without dialing. A
    cached entry that is no longer open is removed; the new connection the
    network then grants is a different, open connection cached under the
    address (and if the network refuses, the error is returned and the stale
    entry stays removed). Hence once [Dial] has returned a connection, every
    further [Dial] of the same address in the resulting state returns that
    same connection and changes nothing. *)
Theorem Dial_cache (server : string) (w : world) :
  (Config (client w) = None ->
     Dial tls_answer server w = Returns (None, Some errNotInitialized) w) /\
  (forall cfg p cn,
     Config (client w) = Some cfg ->
     conns (client w) !! server = Some p ->
     conn_heap w !! p = Some cn ->
     IsOpen cn = true ->
     Dial tls_answer server w = Returns (Some p, None) w) /\
  (forall cfg p cn,
     Config (client w) = Some cfg ->
     conns (client w) !! server = Some p ->
     conn_heap w !! p = Some cn ->
     IsOpen cn = false ->
     (forall raw,
        tls_answer (dial_calls w) server = inr raw ->
        let p' := fresh (dom (conn_heap w)) in
        let w' := connected server raw w in
        Dial tls_answer server w = Returns (Some p', None) w' /\
        p' <> p /\
        conns (client w') !! server = Some p' /\
        conn_heap w' !! p' = Some (mkConn true raw) /\
        conn_heap w' !! p = Some cn /\
        tls_dials (trace w') = tls_dials (trace w) ++ [server]) /\
     (forall err,
        tls_answer (dial_calls w) server = inl err ->
        Dial tls_answer server w = Returns (None, Some err) (dialed server w) /\
        conns (client (dialed server w)) !! server = None)) /\
  (forall p w',
     Dial tls_answer server w = Returns (Some p, None) w' ->
     Dial tls_answer server w' = Returns (Some p, None) w' /\
     exists cn, conns (client w') !! server = Some p /\
                conn_heap w' !! p = Some cn /\ IsOpen cn = true).
Proof.
  split; [apply Dial_not_initialized|].
  split; [apply Dial_cached_open|].
  split.
  - intros cfg p cn Hcfg Hc Hh Ho.
    pose proof (Dial_fresh server w cfg Hcfg
                  (or_intror (ex_intro _ p (ex_intro _ cn (conj Hc (conj Hh Ho))))))
      as HD.
    split.
    + intros raw Hraw p' w'. rewrite Hraw in HD.
      assert (p' <> p) as Hne.
      { intros Heq. apply (is_fresh (dom (conn_heap w))).
        apply elem_of_dom. exists cn. subst p'. by rewrite Heq. }
      split; [exact HD|]. split; [exact Hne|].
      subst w'. unfold connected. simpl.
      split; [by rewrite lookup_insert_eq|].
      split; [by rewrite lookup_insert_eq|].
      split; [by rewrite lookup_insert_ne|].
      unfold tls_dials. by rewrite omap_app.
    + intros err Herr. rewrite Herr in HD. split; [exact HD|].
      unfold dialed. simpl. by rewrite lookup_delete_eq.
  - intros p w' HD.
    destruct (Config (client w)) as [cfg|] eqn:Hcfg;
      [|rewrite Dial_not_initialized in HD by done; discriminate].
    assert (exists cn, Config (client w') = Some cfg /\
                       conns (client w') !! server = Some p /\
                       conn_heap w' !! p = Some cn /\ IsOpen cn = true)
      as (cn & Hcfg' & Hc' & Hh' & Ho').
    { destruct (conns (client w) !! server) as [q|] eqn:Hc.
      - destruct (conn_heap w !! q) as [cn|] eqn:Hh.
        + destruct (IsOpen cn) eqn:Ho.
          * rewrite (Dial_cached_open server w cfg q cn) in HD by done.
            injection HD as <- <-. by exists cn.
          * rewrite (Dial_fresh server w cfg) in HD by eauto 10.
            destruct (tls_answer (dial_calls w) server); [discriminate|].
            injection HD as <- <-. eexists. unfold connected. simpl.
            by rewrite !lookup_insert_eq.
        + exfalso. revert HD. destruct w as [[cfg' cs regs] h ar tr rc dc].
          simpl in *. subst cfg'. unfold Dial. unfold_client. simpl.
          rewrite Hc. simpl. by rewrite Hh.
      - rewrite (Dial_fresh server w cfg) in HD by eauto.
        destruct (tls_answer (dial_calls w) server); [discriminate|].
        injection HD as <- <-. eexists. unfold connected. simpl.
        by rewrite !lookup_insert_eq. }
    split; [by eapply Dial_cached_open | by exists cn].
Qed.

End WithNetwork.

(** ** Slices *)

Lemma remove_in_place (a : list string) (o l n : nat) :
  n < l -> o + l <= length a ->
  take (l - 1)
    (drop o (list_inserts (o + n) (take (l - n - 1) (drop (o + n + 1) a)) a))
  = delete n (take l (drop o a)).
Proof.
  intros Hn Hl. apply list_eq. intros i.
  assert (length (take (l - n - 1) (drop (o + n + 1) a)) = l - n - 1) as Hk.
  { rewrite length_take_le; [done|]. rewrite length_drop. lia. }
  destruct (decide (i < l - 1)) as [Hi | Hi].
  - rewrite lookup_take_lt, lookup_drop by lia.
    destruct (decide (i < n)) as [Hin | Hin].
    + rewrite list_lookup_inserts_lt by lia.
      rewrite list_lookup_delete_lt by lia.
      by rewrite lookup_take_lt, lookup_drop by lia.
    + rewrite list_lookup_inserts by (rewrite ?Hk; lia).
      rewrite list_lookup_delete_ge by lia.
      rewrite !lookup_take_lt, !lookup_drop by lia.
      f_equal. lia.
  - rewrite lookup_take_ge by lia. symmetry.
    apply lookup_ge_None_2. rewrite length_delete.
    + rewrite length_take_le; [lia|]. rewrite length_drop. lia.
    + apply lookup_lt_is_Some_2. rewrite length_take_le; [lia|].
      rewrite length_drop. lia.
Qed.

Lemma slice_index_spec s n w a x :
  arrays w !! arr s = Some a ->
  n < len s ->
  a !! (off s + n) = Some x ->
  slice_index s n w = Returns x w.
Proof.
  intros Ha Hn Hx. unfold slice_index.
  destruct (Nat.ltb_spec n (len s)); [|lia].
  unfold_client. by rewrite Ha, Hx.
Qed.

Lemma slice_read_spec s w a :
  arrays w !! arr s = Some a ->
  off s + len s <= length a ->
  slice_read s w = Returns (take (len s) (drop (off s) a)) w.
Proof.
  intros Ha Hl. unfold slice_read.
  destruct (Nat.eqb_spec (len s) 0) as [-> | Hne]; [done|].
  unfold_client. rewrite Ha.
  by destruct (Nat.leb_spec (off s + len s) (length a)); [|lia].
Qed.

Lemma slice_remove_spec s n w a :
  arrays w !! arr s = Some a ->
  n < len s -> len s <= cap s -> off s + cap s <= length a ->
  slice_remove s n w =
    Returns (mkSlice (arr s) (off s) (len s - 1) (cap s)) (removed s n a w).
Proof.
  intros Ha Hn Hlc Hcap.
  assert (length (take (len s - n - 1) (drop (off s + n + 1) a))
          = len s - n - 1) as Hk.
  { rewrite length_take_le; [done|]. rewrite length_drop. lia. }
  unfold slice_remove, slice_to, slice_from.
  destruct (Nat.leb_spec n (cap s)); [|lia].
  destruct (Nat.leb_spec (n + 1) (len s)); [|lia].
  unfold bind at 1. unfold ret at 1. unfold bind at 1. unfold ret at 1.
  unfold bind at 1.
  rewrite (slice_read_spec _ w a); [|done|simpl; lia].
  simpl. replace (len s - (n + 1)) with (len s - n - 1) by lia.
  replace (off s + (n + 1)) with (off s + n + 1) by lia.
  unfold append. simpl. rewrite Hk.
  destruct (Nat.leb_spec (n + (len s - n - 1)) (cap s)); [|lia].
  unfold_client. rewrite Ha. unfold removed.
  replace (n + (len s - n - 1)) with (len s - 1) by lia. done.
Qed.

Lemma view_removed s n w a :
  arrays w !! arr s = Some a ->
  n < len s -> off s + len s <= length a ->
  view (removed s n a w) (mkSlice (arr s) (off s) (len s - 1) (cap s))
  = delete n (view w s).
Proof.
  intros Ha Hn Hl. unfold view, removed. simpl.
  rewrite lookup_insert_eq, Ha. simpl. by apply remove_in_place.
Qed.

Lemma bind_Returns {St A B} (m : GoM St A) (k : A -> GoM St B) s a s' :
  m s = Returns a s' -> bind m k s = k a s'.
Proof. unfold bind. by intros ->. Qed.

Lemma view_ext w w' s : arrays w = arrays w' -> view w s = view w' s.
Proof. unfold view. by intros ->. Qed.

Lemma view_lookup w s a i :
  arrays w !! arr s = Some a -> i < len s ->
  view w s !! i = a !! (off s + i).
Proof.
  intros Ha Hi. unfold view. rewrite Ha. simpl.
  by rewrite lookup_take_lt, lookup_drop.
Qed.

Lemma view_length w s a :
  arrays w !! arr s = Some a -> off s + len s <= length a ->
  length (view w s) = len s.
Proof.
  intros Ha Hl. unfold view. rewrite Ha. simpl.
  rewrite length_take_le; [done|]. rewrite length_drop. lia.
Qed.

(** What the removal does to a slice header that still has the old length,
    as the one stored in the registry: the elements after [n] move down by
    one and the last element stays, now twice. *)
Lemma view_stale_after_remove s n w a :
  arrays w !! arr s = Some a ->
  n < len s -> off s + len s <= length a ->
  view (removed s n a w) s
  = delete n (view w s) ++ drop (len s - 1) (view w s).
Proof.
  intros Ha Hn Hl.
  destruct (lookup_lt_is_Some_2 a (off s + (len s - 1)) ltac:(lia)) as [x Hx].
  assert (drop (len s - 1) (view w s) = [x]) as ->.
  { unfold view. rewrite Ha. simpl.
    replace (len s) with (S (len s - 1)) at 2 by lia.
    rewrite (take_S_r _ _ x) by (by rewrite lookup_drop).
    rewrite drop_app_length'; [done|].
    rewrite length_take_le; [done|]. rewrite length_drop. lia. }
  rewrite <- (view_removed s n w a Ha Hn Hl).
  unfold view, removed. simpl. rewrite lookup_insert_eq. simpl.
  replace (len s) with (S (len s - 1)) at 1 by lia.
  apply take_S_r. rewrite lookup_drop.
  rewrite list_lookup_inserts_ge; [done|].
  rewrite length_take_le; [lia|]. rewrite length_drop. lia.
Qed.

(** ** [DialAny] *)

Section WithOracles.
Variable rand_raw : nat -> nat.
Variable tls_answer : nat -> string -> error + nat.

Lemma rand_Intn_spec n w :
  n <> 0 ->
  rand_Intn rand_raw n w = Returns (rand_raw (rand_calls w) mod n) (tick w) /\
  rand_raw (rand_calls w) mod n < n.
Proof.
  intros Hn. split; [|by apply Nat.mod_upper_bound].
  unfold rand_Intn. by destruct (Nat.eqb_spec n 0).
Qed.

Lemma Dial_uncached server w :
  conns (client w) !! server = None ->
  exists r w' evs,
    Dial tls_answer server w = Returns r w' /\
    trace w' = trace w ++ evs /\ failed_dials evs = [] /\
    arrays w' = arrays w /\
    allServers (client w') = allServers (client w) /\
    ((exists err, r = (None, Some err) /\
                  conns (client w') = conns (client w) /\
                  conn_heap w' = conn_heap w) \/
     (exists p cn, r = (Some p, None) /\
                   conns (client w') !! server = Some p /\
                   conn_heap w' !! p = Some cn /\ IsOpen cn = true)).
Proof.
  intros Hc. destruct (Config (client w)) as [cfg|] eqn:Hcfg.
  - rewrite (Dial_fresh tls_answer server w cfg Hcfg (or_introl Hc)).
    destruct (tls_answer (dial_calls w) server) as [err | raw].
    + eexists _, _, _. split; [reflexivity|]. simpl.
      split; [reflexivity|]. split; [reflexivity|]. split; [reflexivity|].
      split; [reflexivity|]. left. exists err.
      split; [reflexivity|]. split; [|reflexivity].
      by apply delete_id.
    + eexists _, _, _. split; [reflexivity|]. simpl.
      split; [reflexivity|]. split; [reflexivity|]. split; [reflexivity|].
      split; [reflexivity|]. right. eexists _, _.
      split; [reflexivity|]. by rewrite !lookup_insert_eq.
  - rewrite (Dial_not_initialized tls_answer server w Hcfg).
    exists (None, Some errNotInitialized), w, [].
    split; [reflexivity|]. split; [by rewrite app_nil_r|].
    split; [reflexivity|]. split; [reflexivity|]. split; [reflexivity|].
    left. by exists errNotInitialized.
Qed.

Lemma dial_loop_done fuel s w :
  len s = 0 ->
  dial_loop rand_raw tls_answer fuel s w = Returns (None, Some errCouldntDial) w.
Proof. intros H. destruct fuel; simpl; by rewrite H. Qed.

Lemma dial_loop_step fuel s :
  len s <> 0 ->
  dial_loop rand_raw tls_answer (S fuel) s =
    (n <- rand_Intn rand_raw (len s);;
     server <- slice_index s n;;
     r <- Dial tls_answer server;;
     match r with
     | (conn, None) => ret (conn, None)
     | (_, Some err) =>
         server <- slice_index s n;;
         emit (EvCouldntDial server err);;;
         servers' <- slice_remove s n;;
         dial_loop rand_raw tls_answer fuel servers'
     end).
Proof.
  intros H. simpl. by destruct (Nat.eqb_spec (len s) 0).
Qed.

Lemma dial_loop_spec fuel : forall s w a,
  len s <= fuel ->
  arrays w !! arr s = Some a ->
  len s <= cap s -> off s + cap s <= length a ->
  (forall server, server ∈ view w s -> conns (client w) !! server = None) ->
  exists r w' evs a',
    dial_loop rand_raw tls_answer fuel s w = Returns r w' /\
    trace w' = trace w ++ evs /\
    allServers (client w') = allServers (client w) /\
    arrays w' = <[arr s := a']> (arrays w) /\ length a' = length a /\
    ((r = (None, Some errCouldntDial) /\
      failed_dials evs ≡ₚ view w s /\
      conns (client w') = conns (client w) /\
      conn_heap w' = conn_heap w) \/
     (exists p server cn,
        r = (Some p, None) /\ server ∈ view w s /\
        conns (client w') !! server = Some p /\
        conn_heap w' !! p = Some cn /\ IsOpen cn = true /\
        length (failed_dials evs) < length (view w s))).
Proof.
  induction fuel as [|fuel IH]; intros s w a Hfuel Ha Hlc Hcap Hunc.
  { exists (None, Some errCouldntDial), w, [], a.
    split; [apply dial_loop_done; lia|].
    split; [by rewrite app_nil_r|]. split; [done|].
    split; [by rewrite insert_id|]. split; [done|]. left.
    split; [done|]. split; [|done].
    unfold view. replace (len s) with 0 by lia. by rewrite take_0. }
  destruct (decide (len s = 0)) as [Hz | Hnz].
  { exists (None, Some errCouldntDial), w, [], a.
    split; [by apply dial_loop_done|].
    split; [by rewrite app_nil_r|]. split; [done|].
    split; [by rewrite insert_id|]. split; [done|]. left.
    split; [done|]. split; [|done].
    unfold view. rewrite Hz. by rewrite take_0. }
  rewrite (dial_loop_step fuel s Hnz).
  destruct (rand_Intn_spec (len s) w Hnz) as [Hrand Hn].
  set (n := rand_raw (rand_calls w) mod len s) in *.
  rewrite (bind_Returns _ _ _ _ _ Hrand).
  destruct (lookup_lt_is_Some_2 a (off s + n) ltac:(lia)) as [server Hserver].
  assert (view w s !! n = Some server) as Hvn.
  { by rewrite (view_lookup w s a n Ha Hn). }
  assert (server ∈ view w s) as Hin.
  { apply list_elem_of_lookup. by exists n. }
  rewrite (bind_Returns _ _ _ _ _ (slice_index_spec s n (tick w) a server Ha Hn Hserver)).
  destruct (Dial_uncached server (tick w) (Hunc server Hin))
    as (r & w2 & evs & HD & Htr & Hfd & Harr & Hregs & Hres).
  rewrite (bind_Returns _ _ _ _ _ HD).
  destruct Hres as [(err & -> & Hconns & Hheap) | (p & cn & -> & Hp & Hcn & Hopen)].
  - assert (arrays w2 !! arr s = Some a) as Ha2 by (by rewrite Harr).
    rewrite (bind_Returns _ _ _ _ _ (slice_index_spec s n w2 a server Ha2 Hn Hserver)).
    set (w3 := mkWorld (client w2) (conn_heap w2) (arrays w2)
                 (trace w2 ++ [EvCouldntDial server err])
                 (rand_calls w2) (dial_calls w2)).
    rewrite (bind_Returns (emit (EvCouldntDial server err)) _ w2 tt w3 eq_refl).
    rewrite (bind_Returns _ _ _ _ _ (slice_remove_spec s n w3 a Ha2 Hn Hlc Hcap)).
    set (s' := mkSlice (arr s) (off s) (len s - 1) (cap s)).
    set (a4 := list_inserts (off s + n)
                 (take (len s - n - 1) (drop (off s + n + 1) a)) a).
    assert (view (removed s n a w3) s' = delete n (view w s)) as Hview.
    { unfold s'. rewrite (view_removed s n w3 a Ha2 Hn ltac:(lia)).
      f_equal. apply view_ext. simpl. by rewrite Harr. }
    destruct (IH s' (removed s n a w3) a4)
      as (r' & w' & evs' & a' & HL & Htr' & Hregs' & Harr' & Hlen' & Hres').
    + simpl. lia.
    + simpl. by rewrite lookup_insert_eq.
    + simpl. lia.
    + simpl. unfold a4. rewrite length_inserts. lia.
    + intros x Hx. rewrite Hview in Hx.
      apply list_elem_of_delete_inv in Hx. simpl. rewrite Hconns. by apply Hunc.
    + exists r', w', (evs ++ [EvCouldntDial server err] ++ evs'), a'.
      split; [exact HL|].
      split.
      { rewrite Htr'. simpl. rewrite Htr. simpl. by rewrite <- !app_assoc. }
      split.
      { rewrite Hregs'. simpl. by rewrite Hregs. }
      split.
      { rewrite Harr'. simpl. rewrite Harr. simpl. by rewrite insert_insert_eq. }
      split.
      { rewrite Hlen'. unfold a4. by rewrite length_inserts. }
      assert (failed_dials (evs ++ [EvCouldntDial server err] ++ evs')
              = server :: failed_dials evs') as Hfailed.
      { unfold failed_dials in *. rewrite !omap_app, Hfd. reflexivity. }
      rewrite Hfailed.
      destruct Hres' as [(-> & Hperm & Hconns' & Hheap')
                        | (p & x & cn & -> & Hx & Hp & Hcn & Hopen & Hlt)].
      * left. split; [done|]. split.
        { rewrite Hperm, Hview. symmetry. by apply delete_Permutation. }
        split; [rewrite Hconns'; simpl; by rewrite Hconns|].
        rewrite Hheap'. simpl. by rewrite Hheap.
      * right. exists p, x, cn. split; [done|].
        split. { rewrite Hview in Hx. by apply list_elem_of_delete_inv in Hx. }
        split; [done|]. split; [done|]. split; [done|].
        rewrite Hview in Hlt. rewrite length_delete in Hlt by eauto.
        simpl. assert (n < length (view w s)) by (by eapply lookup_lt_Some).
        lia.
  - exists (Some p, None), w2, evs, a.
    split; [reflexivity|]. split; [exact Htr|]. split; [exact Hregs|].
    split. { rewrite Harr. simpl. by rewrite insert_id. }
    split; [done|]. right. exists p, server, cn.
    repeat (split; [done|]). rewrite Hfd. simpl.
    rewrite (view_length w s a Ha ltac:(lia)). lia.
Qed.

End WithOracles.

Lemma collect_existing_omap (cs : gmap string ptr) (servers : list string) :
  collect_existing cs servers = omap (fun server => cs !! server) servers.
Proof.
  unfold collect_existing.
  assert (forall acc : list ptr,
            foldl (fun existing server =>
                     match cs !! server with
                     | Some conn => existing ++ [conn]
                     | None => existing
                     end) acc servers
            = acc ++ omap (fun server => cs !! server) servers) as H.
  { induction servers as [|x l IH]; intros acc; simpl.
    - by rewrite app_nil_r.
    - rewrite IH. destruct (cs !! x); [|done]. by rewrite <- app_assoc. }
  apply (H []).
Qed.

Lemma collect_existing_nil (cs : gmap string ptr) (servers : list string) :
  collect_existing cs servers = [] ->
  forall server, server ∈ servers -> cs !! server = None.
Proof.
  rewrite collect_existing_omap. intros Hnil server Hin.
  destruct (cs !! server) as [p|] eqn:Hp; [|done].
  assert (p ∈ omap (fun server => cs !! server) servers) as Hel.
  { apply list_elem_of_omap. by exists server. }
  rewrite Hnil in Hel. by apply not_elem_of_nil in Hel.
Qed.

Lemma collect_existing_elem (cs : gmap string ptr) (servers : list string) p :
  p ∈ collect_existing cs servers ->
  exists server, server ∈ servers /\ cs !! server = Some p.
Proof.
  rewrite collect_existing_omap. intros Hel.
  by apply list_elem_of_omap in Hel.
Qed.

Section WithOraclesAny.
Variable rand_raw : nat -> nat.
Variable tls_answer : nat -> string -> error + nat.

(** With a cached connection among the candidates, [DialAny] hands out the
    one [rand.Intn] points at and touches neither the network nor the
    registry. *)
Lemma DialAny_cached ski w :
  registry_ok w ski ->
  let existing := collect_existing (conns (client w)) (registry w ski) in
  existing <> [] ->
  DialAny rand_raw tls_answer ski w =
    Returns (existing !! (rand_raw (rand_calls w) mod length existing), None)
      (tick w) /\
  is_Some (existing !! (rand_raw (rand_calls w) mod length existing)).
Proof.
  intros Hok existing Hex.
  unfold registry in existing. unfold registry_ok in Hok.
  unfold DialAny. unfold bind at 1. unfold get_client.
  set (s := default nil_slice (allServers (client w) !! ski)) in *.
  destruct Hok as [Hlc Hback].
  destruct (Nat.eqb_spec (len s) 0) as [Hz | Hnz].
  { exfalso. apply Hex. subst existing. unfold view. rewrite Hz.
    by rewrite take_0. }
  destruct Hback as [Hc0 | (a & Ha & Hcap)]; [lia|].
  rewrite (bind_Returns _ _ _ _ _ (slice_read_spec s w a Ha ltac:(lia))).
  assert (take (len s) (drop (off s) a) = view w s) as ->.
  { unfold view. by rewrite Ha. }
  fold existing.
  assert (length existing <> 0) as Hlen.
  { destruct existing; [done | simpl; lia]. }
  destruct (Nat.ltb_spec 0 (length existing)); [|lia].
  destruct (rand_Intn_spec rand_raw (length existing) w Hlen) as [Hrand Hn].
  rewrite (bind_Returns _ _ _ _ _ Hrand).
  destruct (lookup_lt_is_Some_2 existing _ Hn) as [p Hp].
  rewrite Hp. split; [reflexivity | by exists p].
Qed.

End WithOraclesAny.

(** ** [append] of one element *)

Lemma append_one s x w :
  slice_ok w s ->
  exists s' w',
    append s [x] w = Returns s' w' /\
    view w' s' = view w s ++ [x] /\
    client w' = client w /\ conn_heap w' = conn_heap w /\
    trace w' = trace w /\ slice_ok w' s'.
Proof.
  intros [Hlc Hback]. unfold append. change (length [x]) with 1.
  destruct (Nat.leb_spec (len s + 1) (cap s)) as [Hfit | Hfull].
  - destruct Hback as [Hc0 | (a & Ha & Hcap)]; [lia|].
    unfold_client. rewrite Ha. eexists _, _. split; [reflexivity|].
    unfold view, slice_ok. simpl. rewrite lookup_insert_eq, Ha. simpl.
    split.
    { replace (len s + 1) with (S (len s)) by lia.
      rewrite (take_S_r _ _ x).
      - by rewrite drop_insert_ge, take_insert_ge by lia.
      - rewrite lookup_drop. apply list_lookup_insert_eq. lia. }
    repeat split; try done; try lia.
    right. eexists. split; [reflexivity|]. rewrite length_insert. lia.
  - assert (exists old, slice_read s w = Returns old w /\ old = view w s /\
                        length old = len s) as (old & Hread & Hold & Hlen).
    { destruct (decide (len s = 0)) as [Hz | Hnz].
      - exists []. unfold slice_read, view. rewrite Hz. simpl.
        by rewrite take_0.
      - destruct Hback as [Hc0 | (a & Ha & Hcap)]; [lia|].
        exists (take (len s) (drop (off s) a)).
        split; [apply slice_read_spec; [done | lia]|].
        split; [unfold view; by rewrite Ha|].
        rewrite length_take_le; [done|]. rewrite length_drop. lia. }
    rewrite (bind_Returns _ _ _ _ _ Hread).
    unfold_client. eexists _, _. split; [reflexivity|].
    unfold view at 1. unfold slice_ok. simpl. rewrite lookup_insert_eq. simpl.
    rewrite drop_0.
    split.
    { rewrite ?cons_middle, (app_assoc old [x]).
      rewrite take_app_length'; [by rewrite Hold|].
      rewrite length_app. simpl. lia. }
    repeat split; try done.
    + unfold grow_cap. destruct (Nat.ltb_spec (cap s + cap s) (len s + 1)); lia.
    + right. eexists. split; [reflexivity|].
      rewrite length_app. simpl. rewrite length_replicate, Hlen.
      unfold grow_cap.
      destruct (Nat.ltb_spec (cap s + cap s) (len s + 1)); lia.
Qed.

(** ** [RegisterPublicKey] *)

Section WithKeys.
Variable GetSKI : PublicKey -> SKI * option error.
Variable GetDigest : PublicKey -> Digest * option error.

(** C10: when the SKI computation fails, [RegisterPublicKey] returns that
    error and no handle, and registers nothing. When it succeeds,
    [RegisterPublicKey] appends the server to the candidate list of that
    SKI and returns a handle and no error, whether or not [GetDigest]
    reports an error: the handle carries whatever digest [GetDigest]
    returned next to its error, hence the zero digest when [GetDigest]
    returns the zero value with its error. An error is returned only when
    the SKI computation fails. *)
Theorem RegisterPublicKey_outcomes (server : string) (pub : PublicKey) (w : world) :
  registry_ok w (GetSKI pub).1 ->
  let ski := (GetSKI pub).1 in
  (forall e,
     (GetSKI pub).2 = Some e ->
     RegisterPublicKey GetSKI GetDigest server pub w = Returns (None, Some e) w) /\
  ((GetSKI pub).2 = None ->
   exists w',
     RegisterPublicKey GetSKI GetDigest server pub w =
       Returns (Some (mkPrivateKey pub ski (GetDigest pub).1), None) w' /\
     registry w' ski = registry w ski ++ [server] /\
     trace w' = trace w ++ [EvRegistering server ski] /\
     conns (client w') = conns (client w) /\
     registry_ok w' ski /\
     (forall e, GetDigest pub = (zero_digest, Some e) ->
        RegisterPublicKey GetSKI GetDigest server pub w =
          Returns (Some (mkPrivateKey pub ski zero_digest), None) w')) /\
  (forall r w',
     RegisterPublicKey GetSKI GetDigest server pub w = Returns r w' ->
     (r.2 <> None <-> (GetSKI pub).2 <> None) /\
     (r.1 <> None <-> (GetSKI pub).2 = None)).
Proof.
  intros Hok ski.
  assert ((GetSKI pub).2 = None ->
   exists w',
     RegisterPublicKey GetSKI GetDigest server pub w =
       Returns (Some (mkPrivateKey pub ski (GetDigest pub).1), None) w' /\
     registry w' ski = registry w ski ++ [server] /\
     trace w' = trace w ++ [EvRegistering server ski] /\
     conns (client w') = conns (client w) /\
     registry_ok w' ski) as Hsucc.
  { intros Hnone. unfold RegisterPublicKey. subst ski.
    destruct (GetSKI pub) as [ski err]. simpl in *. subst err.
    unfold registerSKI.
    set (w1 := mkWorld (client w) (conn_heap w) (arrays w)
                 (trace w ++ [EvRegistering server ski])
                 (rand_calls w) (dial_calls w)).
    unfold bind at 1.
    rewrite (bind_Returns (emit (EvRegistering server ski)) _ w tt w1 eq_refl).
    unfold bind at 1. unfold get_client at 1.
    destruct (append_one (default nil_slice (allServers (client w1) !! ski))
                server w1 Hok)
      as (s' & w2 & Happ & Hview & Hcl & Hheap & Htr & Hok').
    rewrite (bind_Returns _ _ _ _ _ Happ).
    unfold_client. destruct (GetDigest pub) as [dg derr]. simpl.
    eexists. split; [reflexivity|].
    unfold registry, registry_ok. simpl. rewrite lookup_insert_eq. simpl.
    split; [exact Hview|]. split; [by rewrite Htr|].
    split; [by rewrite Hcl|]. exact Hok'. }
  split.
  { intros e He. unfold RegisterPublicKey.
    destruct (GetSKI pub) as [ski' err]. simpl in He. by subst err. }
  split.
  { intros Hnone. destruct (Hsucc Hnone) as (w' & HR & Hreg & Htr & Hc & Hok').
    exists w'. repeat (split; [done|]).
    intros e He. rewrite HR. by rewrite He. }
  intros r w' HR.
  destruct ((GetSKI pub).2) as [e|] eqn:He.
  - assert (RegisterPublicKey GetSKI GetDigest server pub w
            = Returns (None, Some e) w) as HR'.
    { unfold RegisterPublicKey.
      destruct (GetSKI pub) as [ski' err]. simpl in He. by subst err. }
    rewrite HR' in HR. injection HR as <- <-. simpl. split; split; done.
  - destruct (Hsucc eq_refl) as (w'' & HR' & _).
    rewrite HR' in HR. injection HR as <- <-. simpl. split; split; done.
Qed.

End WithKeys.

(** ** The registry across [DialAny] *)

Section WithOraclesRegistry.
Variable rand_raw : nat -> nat.
Variable tls_answer : nat -> string -> error + nat.

(** What failed dials leave alone: the slice header stored in the registry,
    and with it the length of the candidate list. *)
Lemma DialAny_registry_header ski w r w' :
  registry_ok w ski ->
  DialAny rand_raw tls_answer ski w = Returns r w' ->
  allServers (client w') = allServers (client w) /\
  length (registry w' ski) = length (registry w ski).
Proof.
  intros Hok HD. pose proof Hok as [Hlc Hback].
  unfold registry. 
  set (s := default nil_slice (allServers (client w) !! ski)) in *.
  destruct (decide (len s = 0)) as [Hz | Hnz].
  { revert HD. unfold DialAny. unfold bind, get_client. fold s.
    destruct (Nat.eqb_spec (len s) 0); [|done]. by intros [= _ <-]. }
  destruct Hback as [Hc0 | (a & Ha & Hcap)]; [lia|].
  destruct (collect_existing (conns (client w)) (registry w ski)) as [|p0 ex] eqn:Hex.
  - destruct (dial_loop_spec rand_raw tls_answer (len s) s w a
                ltac:(lia) Ha Hlc Hcap (collect_existing_nil _ _ Hex))
      as (r0 & w0 & evs & a' & HL & _ & Hregs & Harr & Hlen & _).
    assert (DialAny rand_raw tls_answer ski w = Returns r0 w0) as HD'.
    { unfold DialAny. unfold bind at 1. unfold get_client. fold s.
      destruct (Nat.eqb_spec (len s) 0); [lia|].
      rewrite (bind_Returns _ _ _ _ _ (slice_read_spec s w a Ha ltac:(lia))).
      assert (take (len s) (drop (off s) a) = registry w ski) as ->.
      { unfold registry. fold s. unfold view. by rewrite Ha. }
      rewrite Hex. simpl. exact HL. }
    rewrite HD' in HD. injection HD as <- <-.
    split; [exact Hregs|]. rewrite Hregs. fold s.
    rewrite (view_length w0 s a').
    + by rewrite (view_length w s a Ha ltac:(lia)).
    + by rewrite Harr, lookup_insert_eq.
    + lia.
  - destruct (DialAny_cached rand_raw tls_answer ski w Hok) as [HD' _].
    { by rewrite Hex. }
    rewrite HD' in HD. by injection HD as <- <-.
Qed.

End WithOraclesRegistry.

(** ** Well-formed registries

    Every slice header of the registry is backed by its array in the world
    [NewClient] starts from, and registration, [Dial] and [DialAny] keep it
    so. *)

Lemma slice_ok_mono w w' s :
  (forall l a, arrays w !! l = Some a ->
     exists a', arrays w' !! l = Some a' /\ length a' = length a) ->
  slice_ok w s -> slice_ok w' s.
Proof.
  intros Hmono [Hlc Hback]. split; [done|].
  destruct Hback as [Hc0 | (a & Ha & Hcap)]; [by left|]. right.
  destruct (Hmono _ _ Ha) as (a' & Ha' & Hlen). exists a'.
  split; [done | lia].
Qed.

Lemma new_world_ok ski : registry_ok new_world ski.
Proof. split; [done | by left]. Qed.

Lemma append_arrays s xs w s' w' :
  append s xs w = Returns s' w' ->
  forall l a, arrays w !! l = Some a ->
    exists a', arrays w' !! l = Some a' /\ length a' = length a.
Proof.
  unfold append. intros Happ l a Hl.
  destruct (len s + length xs <=? cap s).
  - revert Happ. unfold_client.
    destruct (arrays w !! arr s) as [a0|] eqn:Ha0; [|discriminate].
    intros [= _ <-]. simpl.
    destruct (decide (arr s = l)) as [<- | Hne].
    + rewrite lookup_insert_eq. eexists. split; [done|].
      rewrite length_inserts. congruence.
    + rewrite lookup_insert_ne by done. eauto.
  - revert Happ. unfold bind at 1.
    destruct (slice_read s w) as [old w0| |] eqn:Hread; try discriminate.
    assert (w0 = w) as ->.
    { revert Hread. unfold slice_read. unfold_client.
      destruct (len s =? 0); [by intros [= _ <-]|].
      destruct (arrays w !! arr s) as [b|]; [|discriminate].
      destruct (off s + len s <=? length b);
        [by intros [= _ <-] | discriminate]. }
    unfold_client. intros [= _ <-]. simpl.
    rewrite lookup_insert_ne; [eauto|].
    intros Heq. apply (is_fresh (dom (arrays w))). rewrite Heq.
    apply elem_of_dom. eauto.
Qed.

Lemma registerSKI_ok server ski w w' :
  (forall k, registry_ok w k) ->
  registerSKI server ski w = Returns tt w' ->
  forall k, registry_ok w' k.
Proof.
  intros Hok HR k. revert HR. unfold registerSKI.
  set (w1 := mkWorld (client w) (conn_heap w) (arrays w)
               (trace w ++ [EvRegistering server ski])
               (rand_calls w) (dial_calls w)).
  rewrite (bind_Returns (emit (EvRegistering server ski)) _ w tt w1 eq_refl).
  unfold bind at 1. unfold get_client at 1.
  destruct (append_one (default nil_slice (allServers (client w1) !! ski))
              server w1 (Hok ski))
    as (s' & w2 & Happ & Hview & Hcl & Hheap & Htr & Hok').
  rewrite (bind_Returns _ _ _ _ _ Happ).
  pose proof (append_arrays _ _ _ _ _ Happ) as Hmono. clear Happ.
  unfold bind, get_client, put_client, set_allServers.
  intros [= <-]. unfold registry_ok. simpl.
  destruct (decide (ski = k)) as [<- | Hne].
  - rewrite lookup_insert_eq. exact Hok'.
  - rewrite lookup_insert_ne by done. rewrite Hcl. simpl.
    apply (slice_ok_mono w1); [exact Hmono|]. apply Hok.
Qed.

Section WithOraclesOk.
Variable rand_raw : nat -> nat.
Variable tls_answer : nat -> string -> error + nat.

Lemma Dial_registry server w r w' :
  Dial tls_answer server w = Returns r w' ->
  arrays w' = arrays w /\ allServers (client w') = allServers (client w).
Proof.
  destruct w as [[cfg cs regs] h ar tr rc dc].
  unfold Dial. unfold_client. simpl.
  destruct cfg as [cfg|]; [|by intros [= _ <-]].
  destruct (cs !! server) as [p|]; simpl.
  - destruct (h !! p) as [[[] raw]|]; simpl; [by intros [= _ <-]| |discriminate].
    destruct (tls_answer dc server); by intros [= _ <-].
  - destruct (tls_answer dc server); by intros [= _ <-].
Qed.

Lemma Dial_ok server w r w' :
  (forall k, registry_ok w k) ->
  Dial tls_answer server w = Returns r w' ->
  forall k, registry_ok w' k.
Proof.
  intros Hok HD k. destruct (Dial_registry server w r w' HD) as [Harr Hregs].
  unfold registry_ok. rewrite Hregs.
  apply (slice_ok_mono w w'); [|apply Hok].
  intros l a Hl. rewrite Harr. eauto.
Qed.

Lemma DialAny_ok ski w r w' :
  (forall k, registry_ok w k) ->
  DialAny rand_raw tls_answer ski w = Returns r w' ->
  forall k, registry_ok w' k.
Proof.
  intros Hok HD k. pose proof (Hok ski) as [Hlc Hback].
  set (s := default nil_slice (allServers (client w) !! ski)) in *.
  destruct (decide (len s = 0)) as [Hz | Hnz].
  { revert HD. unfold DialAny. unfold bind, get_client. fold s.
    destruct (Nat.eqb_spec (len s) 0); [|done]. intros [= _ <-]. apply Hok. }
  destruct Hback as [Hc0 | (a & Ha & Hcap)]; [lia|].
  destruct (collect_existing (conns (client w)) (registry w ski))
    as [|p0 ex] eqn:Hex.
  - destruct (dial_loop_spec rand_raw tls_answer (len s) s w a
                ltac:(lia) Ha Hlc Hcap (collect_existing_nil _ _ Hex))
      as (r0 & w0 & evs & a' & HL & _ & Hregs & Harr & Hlen & _).
    assert (DialAny rand_raw tls_answer ski w = Returns r0 w0) as HD'.
    { unfold DialAny. unfold bind at 1. unfold get_client. fold s.
      destruct (Nat.eqb_spec (len s) 0); [lia|].
      rewrite (bind_Returns _ _ _ _ _ (slice_read_spec s w a Ha ltac:(lia))).
      assert (take (len s) (drop (off s) a) = registry w ski) as ->.
      { unfold registry. fold s. unfold view. by rewrite Ha. }
      rewrite Hex. simpl. exact HL. }
    rewrite HD' in HD. injection HD as <- <-.
    unfold registry_ok. rewrite Hregs.
    apply (slice_ok_mono w w0); [|apply Hok].
    intros l b Hl. rewrite Harr.
    destruct (decide (arr s = l)) as [<- | Hne].
    + rewrite lookup_insert_eq. exists a'. split; [done | congruence].
    + rewrite lookup_insert_ne by done. eauto.
  - destruct (DialAny_cached rand_raw tls_answer ski w (Hok ski)) as [HD' _].
    { by rewrite Hex. }
    rewrite HD' in HD. injection HD as <- <-. apply Hok.
Qed.

End WithOraclesOk.

(** C3 on the code: with [a:1] and [b:1] registered and nothing cached, a
    [DialAny] whose first pick is [a:1] and whose dials all fail returns the
    "couldn't dial" error and leaves the registry entry with its length, but
    with [b:1] written over [a:1]: removing the failed address from the
    working slice shifts the elements of the backing array that the registry
    entry shares. The same happens when the dial of [b:1] then succeeds. *)
Theorem DialAny_failed_dial_overwrites_registry :
  let first := fun _ : nat => 0 in
  let w1 := outcome_state (DialAny first unreachable sample_ski sample_world) in
  let w2 := outcome_state (DialAny first only_b sample_ski sample_world) in
  registry sample_world sample_ski = ["a:1"; "b:1"]%string /\
  allServers (client sample_world) !! sample_ski = Some (mkSlice 1 0 2 2) /\
  outcome_value (DialAny first unreachable sample_ski sample_world)
    = Some (None, Some errCouldntDial) /\
  failed_dials (trace w1) = ["a:1"; "b:1"]%string /\
  registry w1 sample_ski = ["b:1"; "b:1"]%string /\
  allServers (client w1) !! sample_ski
    = allServers (client sample_world) !! sample_ski /\
  outcome_value (DialAny first only_b sample_ski sample_world)
    = Some (Some 0, None) /\
  conns (client w2) !! "b:1"%string = Some 0 /\
  registry w2 sample_ski = ["b:1"; "b:1"]%string.
Proof. vm_compute. repeat split. Qed.

(** C4 on the code: with a stale cached connection to [a:1] and an open one
    to [b:1], a [DialAny] whose pick is the first cached connection returns
    the stale one, without dialing; [Dial] on the same address would have
    discarded the stale entry and connected anew. *)
Theorem DialAny_returns_stale_connection :
  let w := sample_world_cached in
  let first := fun _ : nat => 0 in
  registry w sample_ski = ["a:1"; "b:1"]%string /\
  conns (client w) !! "b:1"%string = Some 1 /\
  conn_heap w !! 1 = Some (mkConn true 11) /\
  collect_existing (conns (client w)) (registry w sample_ski) = [0; 1] /\
  outcome_value (DialAny first always_up sample_ski w) = Some (Some 0, None) /\
  conn_heap (outcome_state (DialAny first always_up sample_ski w)) !! 0
    = Some (mkConn false 10) /\
  tls_dials (trace (outcome_state (DialAny first always_up sample_ski w))) = [] /\
  outcome_value (Dial always_up "a:1" w) = Some (Some 2, None) /\
  tls_dials (trace (outcome_state (Dial always_up "a:1" w))) = ["a:1"%string] /\
  conn_heap (outcome_state (Dial always_up "a:1" w)) !! 2
    = Some (mkConn true 42).
Proof. vm_compute. repeat split. Qed.

(** ** The model run on sample values *)

Lemma sample_registry_ok : registry_ok sample_world sample_ski.
Proof.
  unfold registry_ok.
  replace (default nil_slice (allServers (client sample_world) !! sample_ski))
    with (mkSlice 1 0 2 2) by (vm_compute; reflexivity).
  split; [simpl; lia|]. right. exists ["a:1"; "b:1"]%string.
  split; [vm_compute; reflexivity | simpl; lia].
Qed.

Example Dial_cache_witness :
  exists p w',
    Dial always_up "a:1" sample_world_cached = Returns (Some p, None) w' /\
    Dial always_up "a:1" w' = Returns (Some p, None) w'.
Proof.
  destruct (Dial_cache always_up "a:1" sample_world_cached)
    as (_ & _ & Hstale & Hrepeat).
  destruct (Hstale 1 0 (mkConn false 10) eq_refl eq_refl eq_refl eq_refl)
    as [Hnew _].
  destruct (Hnew 42 eq_refl) as (HD & _).
  destruct (Hrepeat _ _ HD) as [HD' _].
  eexists _, _. exact (conj HD HD').
Defined.

Example RegisterPublicKey_outcomes_witness :
  registry_ok sample_world (only_rsa_ski [1; 2]%Z).1 /\
  exists w',
    RegisterPublicKey only_rsa_ski no_digest "c:1" [1; 2]%Z sample_world =
      Returns (Some (mkPrivateKey [1; 2]%Z [1; 2]%Z zero_digest), None) w' /\
    registry w' [1; 2]%Z = registry sample_world [1; 2]%Z ++ ["c:1"%string].
Proof.
  assert (registry_ok sample_world (only_rsa_ski [1; 2]%Z).1) as Hok.
  { unfold registry_ok.
    replace (default nil_slice
               (allServers (client sample_world) !! (only_rsa_ski [1; 2]%Z).1))
      with nil_slice by (vm_compute; reflexivity).
    split; [simpl; lia | by left]. }
  split; [exact Hok|].
  destruct (RegisterPublicKey_outcomes only_rsa_ski no_digest "c:1" [1; 2]%Z
              sample_world Hok) as (_ & Hsucc & _).
  destruct (Hsucc eq_refl) as (w' & HR & Hreg & _).
  exists w'. exact (conj HR Hreg).
Defined.

(** * Further properties of the client side *)

Section Further.
Variable rand_raw : nat -> nat.
Variable tls_answer : nat -> string -> error + nat.

Lemma dialed_uncached server w :
  conns (client w) !! server = None ->
  client (dialed server w) = client w.
Proof.
  intros Hc. unfold dialed, set_conns. simpl.
  destruct (client w) as [cfg cs regs]. simpl in *.
  by rewrite (delete_id cs server Hc).
Qed.

Lemma Dial_uncached_cases server w :
  conns (client w) !! server = None ->
  (Config (client w) = None /\
   Dial tls_answer server w = Returns (None, Some errNotInitialized) w) \/
  (exists cfg, Config (client w) = Some cfg /\
     ((exists e, tls_answer (dial_calls w) server = inl e /\
                 Dial tls_answer server w = Returns (None, Some e) (dialed server w)) \/
      (exists raw, tls_answer (dial_calls w) server = inr raw /\
                   Dial tls_answer server w =
                     Returns (Some (fresh (dom (conn_heap w))), None)
                       (connected server raw w)))).
Proof.
  intros Hc. destruct (Config (client w)) as [cfg|] eqn:Hcfg.
  - right. exists cfg. split; [done|].
    rewrite (Dial_fresh tls_answer server w cfg Hcfg (or_introl Hc)).
    destruct (tls_answer (dial_calls w) server) as [e | raw]; eauto.
  - left. split; [done|]. by apply Dial_not_initialized.
Qed.

Lemma dial_loop_full fuel : forall s w a,
  len s <= fuel ->
  arrays w !! arr s = Some a ->
  len s <= cap s -> off s + cap s <= length a ->
  (forall server, server ∈ view w s -> conns (client w) !! server = None) ->
  exists r w' evs a',
    dial_loop rand_raw tls_answer fuel s w = Returns r w' /\
    trace w' = trace w ++ evs /\
    Config (client w') = Config (client w) /\
    allServers (client w') = allServers (client w) /\
    arrays w' = <[arr s := a']> (arrays w) /\ length a' = length a /\
    (forall i, i < off s \/ off s + (len s - 1) <= i -> a' !! i = a !! i) /\
    (forall i x, window a' s i x -> exists j, window a s j x) /\
    tls_dials evs ⊆+ view w s /\
    failed_dials evs ⊆+ view w s /\
    (forall x, x ∈ failed_dials evs ->
       Config (client w) = None \/ exists i e, tls_answer i x = inl e) /\
    ((r = (None, Some errCouldntDial) /\
      failed_dials evs ≡ₚ view w s /\
      conns (client w') = conns (client w) /\
      conn_heap w' = conn_heap w) \/
     (exists p server raw i,
        r = (Some p, None) /\ server ∈ view w s /\ window a' s i server /\
        p = fresh (dom (conn_heap w)) /\
        conns (client w') = <[server := p]> (conns (client w)) /\
        conn_heap w' = <[p := mkConn true raw]> (conn_heap w))) /\
    (forall i x, failed_dials evs !! i = Some x ->
       exists e, EvCouldntDial x e ∈ evs /\
         match Config (client w) with
         | None => e = errNotInitialized
         | Some _ => tls_dials evs !! i = Some x /\
                     tls_answer (dial_calls w + i) x = inl e
         end) /\
    (Config (client w) = None -> tls_dials evs = [] /\ r.1 = None) /\
    (Config (client w) <> None -> r.2 <> None ->
       tls_dials evs = failed_dials evs) /\
    (forall p, r = (Some p, None) ->
       Config (client w) <> None /\
       exists x raw,
         tls_dials evs = failed_dials evs ++ [x] /\
         tls_answer (dial_calls w + length (failed_dials evs)) x = inr raw /\
         conns (client w') !! x = Some p /\
         conn_heap w' !! p = Some (mkConn true raw)).
Proof.
  induction fuel as [|fuel IH]; intros s w a Hfuel Ha Hlc Hcap Hunc.
  { exists (None, Some errCouldntDial), w, [], a.
    split; [apply dial_loop_done; lia|].
    split; [by rewrite app_nil_r|]. split; [done|]. split; [done|].
    split; [by rewrite insert_id|]. split; [done|]. split; [done|].
    split; [eauto|]. split; [apply submseteq_nil_l|].
    split; [apply submseteq_nil_l|].
    split; [intros x Hx; by apply not_elem_of_nil in Hx|].
    split.
    { left. split; [done|]. split; [|done].
      unfold view. replace (len s) with 0 by lia. by rewrite take_0. }
    split; [intros i x Hx; simpl in Hx; discriminate|].
    split; [done|]. split; [done|]. intros p Hp. discriminate. }
  destruct (decide (len s = 0)) as [Hz | Hnz].
  { exists (None, Some errCouldntDial), w, [], a.
    split; [by apply dial_loop_done|].
    split; [by rewrite app_nil_r|]. split; [done|]. split; [done|].
    split; [by rewrite insert_id|]. split; [done|]. split; [done|].
    split; [eauto|]. split; [apply submseteq_nil_l|].
    split; [apply submseteq_nil_l|].
    split; [intros x Hx; by apply not_elem_of_nil in Hx|].
    split.
    { left. split; [done|]. split; [|done].
      unfold view. rewrite Hz. by rewrite take_0. }
    split; [intros i x Hx; simpl in Hx; discriminate|].
    split; [done|]. split; [done|]. intros p Hp. discriminate. }
  rewrite (dial_loop_step rand_raw tls_answer fuel s Hnz).
  destruct (rand_Intn_spec rand_raw (len s) w Hnz) as [Hrand Hn].
  set (n := rand_raw (rand_calls w) mod len s) in *.
  rewrite (bind_Returns _ _ _ _ _ Hrand).
  destruct (lookup_lt_is_Some_2 a (off s + n) ltac:(lia)) as [server Hserver].
  assert (view w s !! n = Some server) as Hvn.
  { by rewrite (view_lookup w s a n Ha Hn). }
  assert (server ∈ view w s) as Hin.
  { apply list_elem_of_lookup. by exists n. }
  assert (length (view w s) = len s) as Hvlen.
  { apply (view_length w s a Ha). lia. }
  rewrite (bind_Returns _ _ _ _ _
             (slice_index_spec s n (tick w) a server Ha Hn Hserver)).
  assert (exists w2 evs err,
    (Dial tls_answer server (tick w) = Returns (None, Some err) w2 /\
     trace w2 = trace w ++ evs /\ failed_dials evs = [] /\
     tls_dials evs ⊆+ [server] /\
     client w2 = client w /\ conn_heap w2 = conn_heap w /\
     arrays w2 = arrays w /\
     (Config (client w) = None \/ exists i e, tls_answer i server = inl e) /\
     ((Config (client w) = None /\ evs = [] /\ err = errNotInitialized /\
       dial_calls w2 = dial_calls w) \/
      (Config (client w) <> None /\
       evs = [EvDialing server; EvTlsDial server] /\
       tls_answer (dial_calls w) server = inl err /\
       dial_calls w2 = S (dial_calls w)))) \/
    (exists raw,
       Dial tls_answer server (tick w) =
         Returns (Some (fresh (dom (conn_heap w))), None) w2 /\
       trace w2 = trace w ++ evs /\ failed_dials evs = [] /\
       tls_dials evs ⊆+ [server] /\
       Config (client w2) = Config (client w) /\
       allServers (client w2) = allServers (client w) /\
       conns (client w2) = <[server := fresh (dom (conn_heap w))]> (conns (client w)) /\
       conn_heap w2 = <[fresh (dom (conn_heap w)) := mkConn true raw]> (conn_heap w) /\
       arrays w2 = arrays w /\
       Config (client w) <> None /\
       evs = [EvDialing server; EvTlsDial server] /\
       tls_answer (dial_calls w) server = inr raw)) as (w2 & evs & err & HDial).
  { destruct (Dial_uncached_cases server (tick w) (Hunc server Hin))
      as [[Hcfg HD] | (cfg & Hcfg & [(e & He & HD) | (raw & Hraw & HD)])].
    - exists (tick w), [], errNotInitialized. left.
      split; [exact HD|]. split; [simpl; by rewrite app_nil_r|].
      split; [done|]. split; [apply submseteq_nil_l|].
      do 3 (split; [done|]). split; [by left|]. left. by repeat split.
    - assert (Config (client w) <> None) as Hset.
      { simpl in Hcfg. by rewrite Hcfg. }
      exists (dialed server (tick w)), [EvDialing server; EvTlsDial server], e.
      left. split; [exact HD|]. split; [done|]. split; [done|].
      split; [done|].
      split; [rewrite dialed_uncached; [done | exact (Hunc server Hin)]|].
      split; [done|]. split; [done|]. split; [right; eauto|].
      right. by repeat split.
    - assert (Config (client w) <> None) as Hset.
      { simpl in Hcfg. by rewrite Hcfg. }
      exists (connected server raw (tick w)),
        [EvDialing server; EvTlsDial server], errNotInitialized.
      right. exists raw. split; [exact HD|]. split; [done|]. split; [done|].
      split; [done|]. split; [done|]. split; [done|].
      split.
      { unfold connected. simpl. by rewrite (delete_id _ _ (Hunc server Hin)). }
      by repeat split. }
  destruct HDial as [(HD & Htr & Hfd & Htd & Hcl & Hheap & Harr & Hwhy & Hexact)
                    | (raw & HD & Htr & Hfd & Htd & Hcfg & Hregs & Hconns & Hheap
                       & Harr & Hset & Hevs & Hgrant)].
  - rewrite (bind_Returns _ _ _ _ _ HD).
    assert (arrays w2 !! arr s = Some a) as Ha2 by (by rewrite Harr).
    rewrite (bind_Returns _ _ _ _ _
               (slice_index_spec s n w2 a server Ha2 Hn Hserver)).
    set (w3 := mkWorld (client w2) (conn_heap w2) (arrays w2)
                 (trace w2 ++ [EvCouldntDial server err])
                 (rand_calls w2) (dial_calls w2)).
    rewrite (bind_Returns (emit (EvCouldntDial server err)) _ w2 tt w3 eq_refl).
    rewrite (bind_Returns _ _ _ _ _ (slice_remove_spec s n w3 a Ha2 Hn Hlc Hcap)).
    set (s' := mkSlice (arr s) (off s) (len s - 1) (cap s)).
    set (a4 := list_inserts (off s + n)
                 (take (len s - n - 1) (drop (off s + n + 1) a)) a).
    assert (length (take (len s - n - 1) (drop (off s + n + 1) a))
            = len s - n - 1) as Hk.
    { rewrite length_take_le; [done|]. rewrite length_drop. lia. }
    assert (view (removed s n a w3) s' = delete n (view w s)) as Hview.
    { unfold s'. rewrite (view_removed s n w3 a Ha2 Hn ltac:(lia)).
      f_equal. apply view_ext. simpl. by rewrite Harr. }
    assert (forall j x, j < len s - 1 -> a4 !! (off s + j) = Some x ->
                        exists j', window a s j' x) as Hwin4.
    { intros j x Hj Hx. unfold a4 in Hx.
      destruct (decide (j < n)) as [Hjn | Hjn].
      - rewrite list_lookup_inserts_lt in Hx by lia. exists j. split; [lia|done].
      - rewrite list_lookup_inserts in Hx by (rewrite ?Hk; lia).
        rewrite lookup_take_lt, lookup_drop in Hx by lia.
        exists (S j). split; [lia|]. rewrite <- Hx. f_equal. lia. }
    destruct (IH s' (removed s n a w3) a4)
      as (r' & w' & evs' & a' & HL & Htr' & Hcfg' & Hregs' & Harr' & Hlen'
          & Hout' & Hwin' & Htd' & Hfs' & Hwhy' & Hres' & Hlog' & Hnone' & Herr'
          & Hok').
    + simpl. lia.
    + simpl. by rewrite lookup_insert_eq.
    + simpl. lia.
    + simpl. unfold a4. rewrite length_inserts. lia.
    + intros x Hx. rewrite Hview in Hx.
      apply list_elem_of_delete_inv in Hx. simpl. rewrite Hcl. by apply Hunc.
    + exists r', w', (evs ++ [EvCouldntDial server err] ++ evs'), a'.
      split; [exact HL|].
      split.
      { rewrite Htr'. simpl. rewrite Htr. by rewrite <- !app_assoc. }
      split; [rewrite Hcfg'; simpl; by rewrite Hcl|].
      split; [rewrite Hregs'; simpl; by rewrite Hcl|].
      split.
      { rewrite Harr'. simpl. rewrite Harr. by rewrite insert_insert_eq. }
      split; [rewrite Hlen'; unfold a4; by rewrite length_inserts|].
      assert (forall i, i < off s \/ off s + (len s - 1) <= i ->
                        a' !! i = a !! i) as Hout.
      { intros i Hi. rewrite Hout' by (simpl; lia). unfold a4.
        destruct Hi as [Hi | Hi].
        - by rewrite list_lookup_inserts_lt by lia.
        - by rewrite list_lookup_inserts_ge by (rewrite ?Hk; lia). }
      split; [exact Hout|].
      split.
      { intros i x [Hi Hx].
        destruct (decide (i < len s - 1)) as [Hlt | Hge].
        - destruct (Hwin' i x) as (j & Hj & Hjx); [by split|].
          simpl in Hj, Hjx. by apply (Hwin4 j x).
        - exists i. split; [done|]. rewrite <- Hout; [done | lia]. }
      assert (failed_dials (evs ++ [EvCouldntDial server err] ++ evs')
              = server :: failed_dials evs') as Hfailed.
      { unfold failed_dials in *. rewrite !omap_app, Hfd. reflexivity. }
      assert (tls_dials (evs ++ [EvCouldntDial server err] ++ evs')
              = tls_dials evs ++ tls_dials evs') as Htls.
      { unfold tls_dials. by rewrite !omap_app. }
      split.
      { rewrite Htls. rewrite (delete_Permutation (view w s) n server Hvn).
        change (server :: delete n (view w s))
          with ([server] ++ delete n (view w s)).
        apply submseteq_app; [done|]. by rewrite <- Hview. }
      split.
      { rewrite Hfailed. rewrite (delete_Permutation (view w s) n server Hvn).
        apply submseteq_skip. by rewrite <- Hview. }
      split.
      { intros x. rewrite Hfailed. intros Hx.
        apply elem_of_cons in Hx as [-> | Hx]; [exact Hwhy|].
        destruct (Hwhy' x Hx) as [Hnone | Hrefused]; [left | by right].
        simpl in Hnone. by rewrite Hcl in Hnone. }
      assert (Config (client (removed s n a w3)) = Config (client w)) as Hcfg4.
      { simpl. by rewrite Hcl. }
      assert (dial_calls (removed s n a w3) = dial_calls w2) as Hdc4 by done.
      rewrite Hcfg4 in Hlog', Hnone', Herr', Hok'.
      rewrite Hdc4 in Hlog', Hok'.
      rewrite Hfailed. rewrite Htls.
      split.
      { destruct Hres' as [(-> & Hperm & Hconns' & Hheap')
                        | (p & x & raw & i & -> & Hx & Hwx & Hp & Hconns' & Hheap')].
        * left. split; [done|]. split.
          { rewrite Hperm, Hview. symmetry. by apply delete_Permutation. }
          split; [rewrite Hconns'; simpl; by rewrite Hcl|].
          rewrite Hheap'. simpl. by rewrite Hheap.
        * right. exists p, x, raw, i. split; [done|].
          split. { rewrite Hview in Hx. by apply list_elem_of_delete_inv in Hx. }
          split. { destruct Hwx as [Hi Hix]. simpl in Hi, Hix. split; [lia|done]. }
          split; [rewrite Hp; simpl; by rewrite Hheap|].
          split; [rewrite Hconns'; simpl; by rewrite Hcl|].
          rewrite Hheap'. simpl. by rewrite Hheap. }
      split.
      { intros [|i] x Hx; simpl in Hx.
        - injection Hx as <-. exists err. split.
          { apply elem_of_app. right. apply elem_of_app. left.
            apply list_elem_of_singleton. done. }
          destruct Hexact as [(Hn0 & -> & -> & _) | (Hs0 & -> & Hrefused & _)].
          + by rewrite Hn0.
          + destruct (Config (client w)); [|done]. split; [done|].
            by rewrite Nat.add_0_r.
        - destruct (Hlog' i x Hx) as (e & Hin' & Hmatch). exists e. split.
          { apply elem_of_app. right. apply elem_of_app. by right. }
          destruct Hexact as [(Hn0 & -> & _ & _) | (Hs0 & -> & _ & Hdc2)].
          + by rewrite Hn0 in Hmatch |- *.
          + destruct (Config (client w)); [|done].
            destruct Hmatch as [Hti Hans]. split; [done|].
            rewrite Hdc2 in Hans.
            by replace (dial_calls w + S i) with (S (dial_calls w) + i) by lia. }
      split.
      { intros Hn0. destruct (Hnone' Hn0) as [Htd0 Hr0].
        destruct Hexact as [(_ & -> & _ & _) | (Hs0 & _)]; [|done].
        split; [by rewrite Htd0 | done]. }
      split.
      { intros Hs0 Hr0. rewrite (Herr' Hs0 Hr0).
        destruct Hexact as [(Hn0 & _) | (_ & -> & _ & _)]; done. }
      intros p Hp. destruct (Hok' p Hp) as (Hs0 & x & raw & Htd0 & Hans & Hcx & Hhx).
      split; [done|]. exists x, raw.
      destruct Hexact as [(Hn0 & _) | (_ & -> & _ & Hdc2)]; [done|].
      split; [rewrite Htd0; done|]. split; [|done].
      rewrite Hdc2 in Hans. simpl.
      by replace (dial_calls w + S (length (failed_dials evs')))
        with (S (dial_calls w) + length (failed_dials evs')) by lia.
  - rewrite (bind_Returns _ _ _ _ _ HD).
    exists (Some (fresh (dom (conn_heap w))), None), w2, evs, a.
    split; [reflexivity|]. split; [exact Htr|]. split; [exact Hcfg|].
    split; [exact Hregs|].
    split. { rewrite Harr. simpl. by rewrite insert_id. }
    split; [done|]. split; [done|]. split; [eauto|].
    split.
    { etrans; [exact Htd|].
      rewrite (delete_Permutation (view w s) n server Hvn).
      change (server :: delete n (view w s))
        with ([server] ++ delete n (view w s)).
      apply submseteq_inserts_r. done. }
    split; [rewrite Hfd; apply submseteq_nil_l|].
    split; [rewrite Hfd; intros x Hx; by apply not_elem_of_nil in Hx|].
    split.
    { right. exists (fresh (dom (conn_heap w))), server, raw, n.
      by repeat split. }
    rewrite Hfd. subst evs.
    split; [intros i x Hx; simpl in Hx; discriminate|].
    split; [done|]. split; [by intros _ Hr|].
    intros p [= <-]. split; [done|]. exists server, raw.
    split; [done|]. split; [simpl; by rewrite Nat.add_0_r|].
    by rewrite Hconns, Hheap, !lookup_insert_eq.
Qed.

Lemma DialAny_cases ski w :
  registry_ok w ski ->
  let s := default nil_slice (allServers (client w) !! ski) in
  let existing := collect_existing (conns (client w)) (registry w ski) in
  (len s = 0 /\ registry w ski = [] /\
   DialAny rand_raw tls_answer ski w = Returns (None, Some errNoServers) w) \/
  (len s <> 0 /\
   exists a, arrays w !! arr s = Some a /\ off s + cap s <= length a /\
             len s <= cap s /\ length (registry w ski) = len s /\
     ((existing <> [] /\
       exists p, p ∈ existing /\
         DialAny rand_raw tls_answer ski w = Returns (Some p, None) (tick w)) \/
      (existing = [] /\
       DialAny rand_raw tls_answer ski w
       = dial_loop rand_raw tls_answer (len s) s w))).
Proof.
  intros Hok s existing. pose proof Hok as [Hlc Hback]. fold s in Hlc, Hback.
  destruct (decide (len s = 0)) as [Hz | Hnz].
  { left. split; [done|]. split.
    - unfold registry. fold s. unfold view. rewrite Hz. by rewrite take_0.
    - unfold DialAny. unfold bind, get_client. fold s.
      by destruct (Nat.eqb_spec (len s) 0). }
  right. split; [done|].
  destruct Hback as [Hc0 | (a & Ha & Hcap)]; [lia|].
  exists a. split; [done|]. split; [done|]. split; [done|].
  split; [apply (view_length w s a Ha); lia|].
  destruct existing as [|p0 ex] eqn:Hex.
  - right. split; [done|].
    unfold DialAny. unfold bind at 1. unfold get_client. fold s.
    destruct (Nat.eqb_spec (len s) 0); [lia|].
    rewrite (bind_Returns _ _ _ _ _ (slice_read_spec s w a Ha ltac:(lia))).
    assert (take (len s) (drop (off s) a) = registry w ski) as ->.
    { unfold registry. fold s. unfold view. by rewrite Ha. }
    subst existing. by rewrite Hex.
  - left. split; [done|].
    destruct (DialAny_cached rand_raw tls_answer ski w Hok) as [HD [p Hp]].
    { fold existing. by rewrite Hex. }
    fold existing in HD, Hp. rewrite Hex in HD, Hp. exists p.
    split; [apply list_elem_of_lookup; eauto|]. by rewrite HD, Hp.
Qed.

(** C5: on a registry entry backed by its array, [DialAny] always returns,
    in one of three ways. With no candidate registered it returns the "no
    servers given" error at once and changes nothing (no dial, no log).
    Otherwise it either returns the "couldn't dial any of the servers" error,
    after a [Dial] of every registered candidate has failed (the failed
    attempts are the candidate list up to order, and with a configuration
    each of them went to the network), or it returns, without error, the
    connection that is cached under one of the registered candidates after
    the call: one that was cached before, in which case nothing is dialled,
    or the one the network granted to the last dial, after fewer failed
    attempts than there are candidates. Every failed attempt is logged with
    its error, which is the network's refusal of that very dial (or the
    configuration error when the client has no configuration, in which case
    nothing is dialled). So an error is returned exactly when the candidate
    list is empty or a [Dial] of every candidate has failed; and with a
    configuration and a candidate the network always accepts, no error is
    returned. *)
Theorem DialAny_outcomes (ski : SKI) (w : world) :
  registry_ok w ski ->
  let servers := registry w ski in
  exists r w' evs,
    DialAny rand_raw tls_answer ski w = Returns r w' /\
    trace w' = trace w ++ evs /\
    ((servers = [] /\ r = (None, Some errNoServers) /\ w' = w /\ evs = []) \/
     (servers <> [] /\ r = (None, Some errCouldntDial) /\
      collect_existing (conns (client w)) servers = [] /\
      failed_dials evs ≡ₚ servers /\
      (Config (client w) <> None -> tls_dials evs = failed_dials evs)) \/
     (servers <> [] /\
      exists p server,
        r = (Some p, None) /\ server ∈ servers /\
        conns (client w') !! server = Some p /\
        length (failed_dials evs) < length servers /\
        ((conns (client w) !! server = Some p /\ evs = [] /\
          dial_calls w' = dial_calls w) \/
         (collect_existing (conns (client w)) servers = [] /\
          Config (client w) <> None /\
          tls_dials evs = failed_dials evs ++ [server] /\
          exists raw,
            tls_answer (dial_calls w + length (failed_dials evs)) server
              = inr raw /\
            conn_heap w' !! p = Some (mkConn true raw))))) /\
    (forall i x, failed_dials evs !! i = Some x ->
       exists e, EvCouldntDial x e ∈ evs /\
         match Config (client w) with
         | None => e = errNotInitialized
         | Some _ => tls_dials evs !! i = Some x /\
                     tls_answer (dial_calls w + i) x = inl e
         end) /\
    (Config (client w) = None -> tls_dials evs = []) /\
    (r.2 <> None <-> servers = [] \/ failed_dials evs ≡ₚ servers) /\
    (Config (client w) <> None ->
     (exists good, good ∈ servers /\
                   forall i, exists raw, tls_answer i good = inr raw) ->
     r.2 = None).
Proof.
  intros Hok servers.
  destruct (DialAny_cases ski w Hok)
    as [(Hz & Hnil & HD)
       | (Hnz & a & Ha & Hcap & Hlc & Hlen & [(Hex & p & Hp & HD) | (Hex & HD)])].
  - exists (None, Some errNoServers), w, []. split; [done|].
    split; [by rewrite app_nil_r|]. split; [by left|].
    split; [intros i x Hx; simpl in Hx; discriminate|].
    split; [done|]. split; [split; [by left | done]|].
    intros _ (good & Hgood & _). subst servers. rewrite Hnil in Hgood.
    by apply not_elem_of_nil in Hgood.
  - assert (servers <> []) as Hne.
    { subst servers. intros Hnil. rewrite Hnil in Hlen. simpl in Hlen. lia. }
    destruct (collect_existing_elem _ _ _ Hp) as (server & Hin & Hc).
    exists (Some p, None), (tick w), []. split; [done|].
    split; [simpl; by rewrite app_nil_r|].
    split.
    { right. right. split; [done|]. exists p, server.
      split; [done|]. split; [done|]. split; [done|].
      split; [simpl; destruct servers; [done | simpl; lia]|]. by left. }
    split; [intros i x Hx; simpl in Hx; discriminate|].
    split; [done|]. split; [|done]. split; [done|].
    intros [Hnil | Hperm]; [done|]. simpl in Hperm.
    by apply Permutation_nil_l in Hperm.
  - assert (servers <> []) as Hne.
    { subst servers. intros Hnil. rewrite Hnil in Hlen. simpl in Hlen. lia. }
    destruct (dial_loop_full _ _ _ _ ltac:(reflexivity) Ha Hlc Hcap
                (collect_existing_nil _ _ Hex))
      as (r & w' & evs & a' & HL & Htr & _ & _ & _ & _ & _ & _ & Htd & _ & _
          & Hres & Hlog & Hnone & Herr & Hgranted).
    change (view w (default nil_slice (allServers (client w) !! ski)))
      with servers in Htd, Hres.
    exists r, w', evs. split; [by rewrite HD|]. split; [done|].
    destruct Hres as [(-> & Hperm & _)
                     | (p & server0 & raw0 & i0 & -> & _)].
    + split.
      { right. left. do 4 (split; [done|]). intros Hset. by apply Herr. }
      split; [exact Hlog|]. split; [intros H; by apply Hnone|].
      split; [split; [by right | done]|].
      intros Hset (good & Hgood & Hup).
      assert (good ∈ failed_dials evs) as Hf by (by rewrite Hperm).
      apply list_elem_of_lookup in Hf as [i Hi].
      destruct (Hlog i good Hi) as (e & _ & Hmatch).
      destruct (Config (client w)); [|done].
      destruct Hmatch as [_ Hans]. destruct (Hup (dial_calls w + i)) as [raw Hraw].
      congruence.
    + destruct (Hgranted p eq_refl)
        as (Hset & server & raw & Htd0 & Hans & Hcx & Hhx).
      assert (length (failed_dials evs) < length servers) as Hlt.
      { apply submseteq_length in Htd. rewrite Htd0, length_app in Htd.
        simpl in Htd. lia. }
      split.
      { right. right. split; [done|]. exists p, server. split; [done|].
        split.
        { eapply elem_of_submseteq; [|exact Htd].
          rewrite Htd0. apply elem_of_app. right.
          by apply list_elem_of_singleton. }
        split; [done|]. split; [done|]. right.
        do 3 (split; [done|]). by exists raw. }
      split; [exact Hlog|]. split; [intros H; by apply Hnone|].
      split; [|done]. split; [done|].
      intros [Hnil | Hperm]; [done|].
      apply Permutation_length in Hperm. lia.
Qed.

(** X9: [DialAny] dials nobody but the registered candidates, and none of
    them more often than it is registered: the addresses handed to
    [tls.Dial] during the call are, as a multiset, part of the candidate
    list. With a cached connection among the candidates it dials nobody, and
    with no candidate it neither dials nor logs. Every "couldn't dial" line
    stands for a dial that the network refused or for a missing
    configuration. *)
Theorem DialAny_dials_only_candidates (ski : SKI) (w : world) :
  registry_ok w ski ->
  exists r w' evs,
    DialAny rand_raw tls_answer ski w = Returns r w' /\
    trace w' = trace w ++ evs /\
    tls_dials evs ⊆+ registry w ski /\
    (collect_existing (conns (client w)) (registry w ski) <> [] -> evs = []) /\
    (registry w ski = [] -> evs = []) /\
    (forall x, x ∈ failed_dials evs ->
       x ∈ registry w ski /\
       (Config (client w) = None \/ exists i e, tls_answer i x = inl e)).
Proof.
  intros Hok.
  destruct (DialAny_cases ski w Hok)
    as [(Hz & Hnil & HD)
       | (Hnz & a & Ha & Hcap & Hlc & Hlen & [(Hex & p & Hp & HD) | (Hex & HD)])].
  - exists (None, Some errNoServers), w, []. split; [done|].
    split; [by rewrite app_nil_r|]. split; [apply submseteq_nil_l|].
    repeat split; try done; by apply not_elem_of_nil in H.
  - exists (Some p, None), (tick w), []. split; [done|].
    split; [simpl; by rewrite app_nil_r|]. split; [apply submseteq_nil_l|].
    repeat split; try done; by apply not_elem_of_nil in H.
  - destruct (dial_loop_full _ _ _ _ ltac:(reflexivity) Ha Hlc Hcap
                (collect_existing_nil _ _ Hex))
      as (r & w' & evs & a' & HL & Htr & _ & _ & _ & _ & _ & _ & Htd & Hfs
          & Hwhy & _).
    exists r, w', evs. split; [by rewrite HD|]. split; [done|].
    split; [done|]. split; [by intros ?|].
    split.
    { intros Hnil. rewrite Hnil in Hlen. simpl in Hlen. lia. }
    intros x Hx. split; [by eapply elem_of_submseteq | by apply Hwhy].
Qed.

Lemma registry_wf_ok w : registry_wf w -> forall k, registry_ok w k.
Proof.
  intros Hwf k. unfold registry_ok.
  destruct (allServers (client w) !! k) as [s|] eqn:Hk; simpl.
  - destruct (Hwf k s Hk) as (_ & Hlc & (a & Ha & Hcap) & _).
    split; [done|]. right. eauto.
  - split; [done | by left].
Qed.

Lemma view_elem w s a x :
  arrays w !! arr s = Some a ->
  x ∈ view w s -> exists i, window a s i x.
Proof.
  intros Ha Hx. apply list_elem_of_lookup in Hx as [i Hi].
  unfold view in Hi. rewrite Ha in Hi. simpl in Hi.
  apply lookup_take_Some in Hi as [Hi Hlt]. rewrite lookup_drop in Hi.
  exists i. by split.
Qed.

Lemma window_view w s a i x :
  arrays w !! arr s = Some a ->
  window a s i x -> view w s !! i = Some x.
Proof.
  intros Ha [Hi Hx]. by rewrite (view_lookup w s a i Ha Hi).
Qed.

(** X10: when the client is configured, nothing is cached for the
    candidates, and one registered candidate is reachable (the network
    grants every dial of it), [DialAny] returns a connection and no error,
    whatever the random picks and however many other candidates fail
    first. *)
Theorem DialAny_reaches_reachable (ski : SKI) (w : world) (good : string) :
  registry_ok w ski ->
  Config (client w) <> None ->
  good ∈ registry w ski ->
  (forall i, exists raw, tls_answer i good = inr raw) ->
  exists p w' server,
    DialAny rand_raw tls_answer ski w = Returns (Some p, None) w' /\
    server ∈ registry w ski /\
    conns (client w') !! server = Some p.
Proof.
  intros Hok Hcfg Hgood Hup.
  destruct (DialAny_cases ski w Hok)
    as [(Hz & Hnil & HD)
       | (Hnz & a & Ha & Hcap & Hlc & Hlen & [(Hex & p & Hp & HD) | (Hex & HD)])].
  - rewrite Hnil in Hgood. by apply not_elem_of_nil in Hgood.
  - destruct (collect_existing_elem _ _ _ Hp) as (server & Hin & Hc).
    exists p, (tick w), server. by repeat split.
  - destruct (dial_loop_full _ _ _ _ ltac:(reflexivity) Ha Hlc Hcap
                (collect_existing_nil _ _ Hex))
      as (r & w' & evs & a' & HL & _ & _ & _ & _ & _ & _ & _ & _ & _ & Hwhy & Hres
          & _).
    destruct Hres as [(_ & Hperm & _)
                     | (p & server & raw & i & -> & Hin & _ & _ & Hconns & _)].
    + exfalso. assert (good ∈ failed_dials evs) as Hf by (by rewrite Hperm).
      destruct (Hwhy good Hf) as [Hnone | (i & e & He)]; [done|].
      destruct (Hup i) as [raw Hraw]. congruence.
    + exists p, w', server. split; [by rewrite HD|]. split; [done|].
      by rewrite Hconns, lookup_insert_eq.
Qed.

Lemma DialAny_registry ski w r w' :
  registry_wf w ->
  DialAny rand_raw tls_answer ski w = Returns r w' ->
  allServers (client w') = allServers (client w) /\
  length (registry w' ski) = length (registry w ski) /\
  (forall x, x ∈ registry w' ski -> x ∈ registry w ski) /\
  last (registry w' ski) = last (registry w ski) /\
  (forall k, k <> ski -> registry w' k = registry w k).
Proof.
  intros Hwf HD.
  destruct (DialAny_cases ski w (registry_wf_ok w Hwf ski))
    as [(Hz & Hnil & HD')
       | (Hnz & a & Ha & Hcap & Hlc & Hlen & [(Hex & p & Hp & HD') | (Hex & HD')])].
  - rewrite HD' in HD. injection HD as <- <-. by repeat split.
  - rewrite HD' in HD. injection HD as <- <-. by repeat split.
  - set (s := default nil_slice (allServers (client w) !! ski)) in *.
    destruct (dial_loop_full _ _ _ _ ltac:(reflexivity) Ha Hlc Hcap
                (collect_existing_nil _ _ Hex))
      as (r0 & w0 & evs & a' & HL & _ & _ & Hregs & Harr & Hlen' & Hout & Hwin & _).
    rewrite HD', HL in HD. injection HD as <- <-.
    assert (arrays w0 !! arr s = Some a') as Ha'.
    { by rewrite Harr, lookup_insert_eq. }
    assert (registry w0 ski = view w0 s) as Hreg0.
    { unfold registry. by rewrite Hregs. }
    assert (length (view w0 s) = len s) as Hlen0.
    { apply (view_length w0 s a' Ha'). lia. }
    split; [done|]. rewrite Hreg0.
    split; [by rewrite Hlen0, Hlen|].
    split.
    { intros x Hx. destruct (view_elem w0 s a' x Ha' Hx) as (i & Hi).
      destruct (Hwin i x Hi) as (j & Hj).
      apply list_elem_of_lookup. exists j. by apply (window_view w s a). }
    split.
    { change (registry w ski) with (view w s).
      rewrite !last_lookup, Hlen0.
      rewrite (view_length w s a Ha) by lia.
      rewrite (view_lookup w0 s a' _ Ha') by lia.
      rewrite (view_lookup w s a _ Ha) by lia.
      apply Hout. right. lia. }
    intros k Hk. unfold registry. rewrite Hregs.
    destruct (allServers (client w) !! k) as [sk|] eqn:Hsk; simpl;
      [|unfold view; simpl; by rewrite !take_0].
    destruct (allServers (client w) !! ski) as [s0|] eqn:Hs0;
      [|subst s; simpl in Hnz; done].
    destruct (Hwf ski s0 Hs0) as (_ & _ & _ & Hdist).
    unfold view. rewrite Harr.
    rewrite lookup_insert_ne; [done|].
    subst s. simpl. intros Heq. by apply (Hdist k sk Hk Hsk).
Qed.

(** X11: whatever [DialAny] does to the candidate list of its fingerprint,
    the entry keeps its length and its last address, and every address it
    holds afterwards was registered before: [DialAny] never adds an address.
    The entries of all other fingerprints are left exactly as they were. *)
Theorem DialAny_keeps_registered_addresses (ski : SKI) (w : world)
    (r : option ptr * option error) (w' : world) :
  registry_wf w ->
  DialAny rand_raw tls_answer ski w = Returns r w' ->
  allServers (client w') = allServers (client w) /\
  length (registry w' ski) = length (registry w ski) /\
  (forall x, x ∈ registry w' ski -> x ∈ registry w ski) /\
  last (registry w' ski) = last (registry w ski) /\
  (forall k, k <> ski -> registry w' k = registry w k).
Proof. apply DialAny_registry. Qed.

(** X12: a connection that [DialAny] had to dial is reused. When nothing was
    cached for the candidates and [DialAny] returned a connection, every
    further [DialAny] for that fingerprint in the resulting state, whatever
    the random source and the network do, returns that same connection and
    dials nobody. *)
Theorem DialAny_then_reuses (ski : SKI) (w : world) (p : ptr) (w' : world)
    (rand_raw' : nat -> nat) (tls_answer' : nat -> string -> error + nat) :
  registry_ok w ski ->
  collect_existing (conns (client w)) (registry w ski) = [] ->
  DialAny rand_raw tls_answer ski w = Returns (Some p, None) w' ->
  DialAny rand_raw' tls_answer' ski w' = Returns (Some p, None) (tick w') /\
  trace (tick w') = trace w' /\
  dial_calls (tick w') = dial_calls w'.
Proof.
  intros Hok Hex HD.
  destruct (DialAny_cases ski w Hok)
    as [(Hz & Hnil & HD')
       | (Hnz & a & Ha & Hcap & Hlc & Hlen & [(Hex' & _) | (_ & HD')])];
    [rewrite HD' in HD; discriminate | done |].
  set (s := default nil_slice (allServers (client w) !! ski)) in *.
  destruct (dial_loop_full _ _ _ _ ltac:(reflexivity) Ha Hlc Hcap
              (collect_existing_nil _ _ Hex))
    as (r0 & w0 & evs & a' & HL & _ & _ & Hregs & Harr & Hlen' & _ & Hwin
        & _ & _ & _ & Hres & _).
  rewrite HD', HL in HD. injection HD as -> <-.
  destruct Hres as [(Hr & _) | (q & server & raw & i & Hr & Hin & Hwi & _ & Hconns & _)];
    [discriminate|]. injection Hr as <-.
  assert (arrays w0 !! arr s = Some a') as Ha'.
  { by rewrite Harr, lookup_insert_eq. }
  assert (registry w0 ski = view w0 s) as Hreg0.
  { unfold registry. by rewrite Hregs. }
  assert (registry_ok w0 ski) as Hok0.
  { unfold registry_ok. rewrite Hregs. fold s. split; [done|]. right.
    exists a'. split; [done | lia]. }
  set (existing := collect_existing (conns (client w0)) (registry w0 ski)).
  assert (forall q', q' ∈ existing -> q' = p) as Hall.
  { intros q' Hq'.
    destruct (collect_existing_elem _ _ _ Hq') as (x & Hx & Hcx).
    rewrite Hreg0 in Hx. destruct (view_elem w0 s a' x Ha' Hx) as (j & Hj).
    destruct (Hwin j x Hj) as (j' & Hj').
    assert (x ∈ registry w ski) as Hxw.
    { apply list_elem_of_lookup. exists j'. by apply (window_view w s a). }
    pose proof (collect_existing_nil _ _ Hex x Hxw) as Hnone.
    rewrite Hconns in Hcx. destruct (decide (server = x)) as [<- | Hne].
    - rewrite lookup_insert_eq in Hcx. congruence.
    - rewrite lookup_insert_ne in Hcx by done. congruence. }
  assert (existing <> []) as Hne.
  { assert (p ∈ existing) as Hp; [|by destruct existing; [apply not_elem_of_nil in Hp|]].
    subst existing. rewrite collect_existing_omap.
    apply list_elem_of_omap. exists server. split.
    - rewrite Hreg0. apply list_elem_of_lookup. exists i.
      by apply (window_view w0 s a').
    - by rewrite Hconns, lookup_insert_eq. }
  destruct (DialAny_cached rand_raw' tls_answer' ski w0 Hok0 Hne) as [HD2 [q' Hq']].
  fold existing in HD2, Hq'. rewrite Hq' in HD2.
  assert (q' = p) as ->.
  { apply Hall. apply list_elem_of_lookup. eauto. }
  by repeat split.
Qed.

(** X13: [Dial] touches the cache entry of its own address only. The
    entries of all other addresses, every connection object that existed
    before, the registry, the configuration and the random source are left
    as they were. *)
Theorem Dial_frame (server : string) (w : world)
    (r : option ptr * option error) (w' : world) :
  Dial tls_answer server w = Returns r w' ->
  (forall other, other <> server ->
     conns (client w') !! other = conns (client w) !! other) /\
  (forall p cn, conn_heap w !! p = Some cn -> conn_heap w' !! p = Some cn) /\
  arrays w' = arrays w /\
  allServers (client w') = allServers (client w) /\
  Config (client w') = Config (client w) /\
  rand_calls w' = rand_calls w /\
  (forall k, registry w' k = registry w k).
Proof.
  intros HD.
  assert ((forall other, other <> server ->
             conns (client w') !! other = conns (client w) !! other) /\
          (forall p cn, conn_heap w !! p = Some cn -> conn_heap w' !! p = Some cn) /\
          arrays w' = arrays w /\
          allServers (client w') = allServers (client w) /\
          Config (client w') = Config (client w) /\
          rand_calls w' = rand_calls w) as (H1 & H2 & H3 & H4 & H5 & H6).
  { revert HD. destruct w as [[cfg cs regs] h ar tr rc dc].
    unfold Dial. unfold_client. simpl.
    destruct cfg as [cfg|]; [|by intros [= _ <-]].
    assert (forall p cn raw, h !! p = Some cn ->
              <[fresh (dom h) := mkConn true raw]> h !! p = Some cn) as Hfresh.
    { intros p cn raw Hp. rewrite lookup_insert_ne; [done|].
      intros Heq. apply (is_fresh (dom h)). rewrite Heq.
      apply elem_of_dom. eauto. }
    destruct (cs !! server) as [p|] eqn:Hc; simpl.
    - destruct (h !! p) as [[[] raw]|]; simpl;
        [by intros [= _ <-]| |discriminate].
      destruct (tls_answer dc server); intros [= _ <-]; simpl;
        repeat split; try done; intros;
        rewrite ?lookup_insert_ne, ?lookup_delete_ne by done; eauto.
    - destruct (tls_answer dc server); intros [= _ <-]; simpl;
        repeat split; try done; intros;
        rewrite ?lookup_insert_ne by done; eauto. }
  repeat split; try done.
  intros k. unfold registry, view. by rewrite H4, H3.
Qed.

(** X14: with a configuration, [Dial] never leaves a stale entry behind.
    If it returns a connection, that connection is open and is the one
    cached under the address afterwards; if it returns an error, the
    network refused the dial and nothing is cached under the address. *)
Theorem Dial_cache_entry (server : string) (w : world)
    (r : option ptr * option error) (w' : world) :
  Config (client w) <> None ->
  Dial tls_answer server w = Returns r w' ->
  (exists p cn,
     r = (Some p, None) /\ conns (client w') !! server = Some p /\
     conn_heap w' !! p = Some cn /\ IsOpen cn = true) \/
  (exists e,
     r = (None, Some e) /\ conns (client w') !! server = None /\
     tls_answer (dial_calls w) server = inl e /\
     dial_calls w' = S (dial_calls w)).
Proof.
  intros Hcfg HD.
  destruct (Config (client w)) as [cfg|] eqn:Hc; [clear Hcfg|done].
  pose proof (Dial_fresh tls_answer server w cfg Hc) as Hfresh.
  assert (conns (client w) !! server = None \/
          (exists p cn, conns (client w) !! server = Some p /\
                        conn_heap w !! p = Some cn /\ IsOpen cn = false) ->
          (exists p cn,
             r = (Some p, None) /\ conns (client w') !! server = Some p /\
             conn_heap w' !! p = Some cn /\ IsOpen cn = true) \/
          (exists e,
             r = (None, Some e) /\ conns (client w') !! server = None /\
             tls_answer (dial_calls w) server = inl e /\
             dial_calls w' = S (dial_calls w))) as Hmiss.
  { intros Hcase. rewrite (Hfresh Hcase) in HD.
    destruct (tls_answer (dial_calls w) server) as [e | raw] eqn:Hans;
      injection HD as <- <-.
    - right. exists e. unfold dialed. simpl. by rewrite lookup_delete_eq.
    - left. eexists _, _. unfold connected. simpl.
      by rewrite !lookup_insert_eq. }
  destruct (conns (client w) !! server) as [p|] eqn:Hp; [|by apply Hmiss; left].
  destruct (conn_heap w !! p) as [cn|] eqn:Hcn.
  - destruct (IsOpen cn) eqn:Ho.
    + rewrite (Dial_cached_open tls_answer server w cfg p cn) in HD by done.
      injection HD as <- <-. left. by exists p, cn.
    + apply Hmiss. right. by exists p, cn.
  - exfalso. revert HD. destruct w as [[cfg' cs regs] h ar tr rc dc].
    simpl in *. subst cfg'. unfold Dial. unfold_client. simpl.
    rewrite Hp. simpl. by rewrite Hcn.
Qed.

End Further.

(** ** Registration and histories of calls *)

Lemma append_shape s xs w s' w' :
  append s xs w = Returns s' w' ->
  len s' = len s + length xs /\
  rand_calls w' = rand_calls w /\ dial_calls w' = dial_calls w /\
  (forall l, l <> arr s' -> arrays w' !! l = arrays w !! l) /\
  ((arr s' = arr s /\ len s + length xs <= cap s) \/
   arrays w !! arr s' = None).
Proof.
  unfold append. intros Happ.
  destruct (Nat.leb_spec (len s + length xs) (cap s)) as [Hfit | Hfull].
  - revert Happ. unfold_client.
    destruct (arrays w !! arr s) as [a0|] eqn:Ha0; [|discriminate].
    intros [= <- <-]. simpl. repeat split; try done.
    + intros l Hl. by rewrite lookup_insert_ne.
    + by left.
  - revert Happ. unfold bind at 1.
    destruct (slice_read s w) as [old w0| |] eqn:Hread; try discriminate.
    assert (w0 = w) as ->.
    { revert Hread. unfold slice_read. unfold_client.
      destruct (len s =? 0); [by intros [= _ <-]|].
      destruct (arrays w !! arr s) as [b|]; [|discriminate].
      destruct (off s + len s <=? length b);
        [by intros [= _ <-] | discriminate]. }
    unfold_client. intros [= <- <-]. simpl. repeat split; try done.
    + intros l Hl. by rewrite lookup_insert_ne.
    + right. apply not_elem_of_dom. apply is_fresh.
Qed.

Lemma view_nil w : view w nil_slice = [].
Proof. unfold view. simpl. by rewrite take_0. Qed.

Lemma registerSKI_full server ski w :
  registry_wf w ->
  exists w',
    registerSKI server ski w = Returns tt w' /\
    registry w' ski = registry w ski ++ [server] /\
    (forall k, k <> ski -> registry w' k = registry w k) /\
    conns (client w') = conns (client w) /\
    Config (client w') = Config (client w) /\
    conn_heap w' = conn_heap w /\
    trace w' = trace w ++ [EvRegistering server ski] /\
    rand_calls w' = rand_calls w /\ dial_calls w' = dial_calls w /\
    registry_wf w'.
Proof.
  intros Hwf. unfold registerSKI.
  set (w1 := mkWorld (client w) (conn_heap w) (arrays w)
               (trace w ++ [EvRegistering server ski])
               (rand_calls w) (dial_calls w)).
  rewrite (bind_Returns (emit (EvRegistering server ski)) _ w tt w1 eq_refl).
  unfold bind at 1. unfold get_client at 1.
  assert (registry_wf w1) as Hwf1 by exact Hwf.
  set (s := default nil_slice (allServers (client w1) !! ski)).
  destruct (append_one s server w1 (registry_wf_ok w1 Hwf1 ski))
    as (s' & w2 & Happ & Hview & Hcl & Hheap & Htr & Hok').
  rewrite (bind_Returns _ _ _ _ _ Happ).
  destruct (append_shape _ _ _ _ _ Happ) as (Hlen & Hrc & Hdc & Hother & Hcase).
  change (length [server]) with 1 in Hlen, Hcase.
  assert (forall k sk, k <> ski -> allServers (client w) !! k = Some sk ->
                       arr sk <> arr s') as Hdist.
  { intros k sk Hk Hsk Heq.
    destruct (Hwf k sk Hsk) as (_ & _ & (ak & Hak & _) & Hd).
    destruct Hcase as [[Harr Hfit] | Hnone].
    - subst s. simpl in *.
      destruct (allServers (client w) !! ski) as [s0|] eqn:Hs0;
        simpl in *; [|lia].
      apply (Hd ski s0); [done | done | congruence].
    - simpl in Hnone. rewrite <- Heq in Hnone. congruence. }
  destruct Hok' as [Hlc' Hback'].
  assert (exists a', arrays w2 !! arr s' = Some a' /\
                     off s' + cap s' <= length a') as Hback.
  { destruct Hback' as [Hz | Hb]; [lia | done]. }
  unfold bind, get_client, put_client, set_allServers.
  eexists. split; [reflexivity|]. simpl.
  split.
  { unfold registry. simpl. rewrite lookup_insert_eq. simpl.
    etrans; [|exact Hview]. by apply view_ext. }
  split.
  { intros k Hk. unfold registry. simpl.
    rewrite lookup_insert_ne by done. rewrite Hcl. simpl.
    destruct (allServers (client w) !! k) as [sk|] eqn:Hsk; simpl;
      [|by rewrite !view_nil].
    unfold view. simpl. rewrite (Hother (arr sk)); [done|].
    by apply (Hdist k sk). }
  rewrite Hcl, Hheap, Htr, Hrc, Hdc.
  do 6 (split; [done|]).
  intros k sk. simpl. destruct (decide (ski = k)) as [<- | Hne].
  - rewrite lookup_insert_eq. intros [= <-].
    split; [lia|]. split; [done|]. split; [done|].
    intros k' sk' Hk'. rewrite lookup_insert_ne by done.
    intros Hsk'. by apply (Hdist k' sk').
  - rewrite lookup_insert_ne by done. intros Hsk.
    destruct (Hwf k sk Hsk) as (Hpos & Hlc & (ak & Hak & Hcap) & Hd).
    split; [done|]. split; [done|]. split.
    { exists ak. split; [|done]. rewrite (Hother (arr sk)); [done|].
      by apply (Hdist k sk). }
    intros k' sk' Hk'. destruct (decide (ski = k')) as [<- | Hne'].
    + rewrite lookup_insert_eq. intros [= <-]. intros Heq.
      by apply (Hdist k sk).
    + rewrite lookup_insert_ne by done. by apply Hd.
Qed.

Section Histories.
Variable rand_raw : nat -> nat.
Variable tls_answer : nat -> string -> error + nat.
Variable GetSKI : PublicKey -> SKI * option error.
Variable GetDigest : PublicKey -> Digest * option error.

Lemma continues_refl w : continues (fun _ => []) w w.
Proof.
  split; [done|]. split; [exists []; by rewrite app_nil_r|].
  intros k. rewrite app_nil_r. simpl. split; [lia | done].
Qed.

Lemma continues_trans f g w w' w'' :
  continues f w w' -> continues g w' w'' ->
  continues (fun k => f k ++ g k) w w''.
Proof.
  intros (Hc1 & [e1 Ht1] & H1) (Hc2 & [e2 Ht2] & H2).
  split; [congruence|].
  split; [exists (e1 ++ e2); by rewrite Ht2, Ht1, app_assoc|].
  intros k. destruct (H1 k) as (Hl1 & Hlast1 & Hin1).
  destruct (H2 k) as (Hl2 & Hlast2 & Hin2).
  split; [rewrite length_app; lia|]. split.
  - rewrite Hlast2, app_assoc, !last_app, Hlast1, ?last_app. done.
  - intros x Hx. apply Hin2 in Hx. rewrite app_assoc.
    apply elem_of_app in Hx as [Hx | Hx]; apply elem_of_app; [left | by right].
    by apply Hin1.
Qed.

Lemma continues_same w w' :
  Config (client w') = Config (client w) ->
  (exists evs, trace w' = trace w ++ evs) ->
  (forall k, registry w' k = registry w k) ->
  continues (fun _ => []) w w'.
Proof.
  intros Hc Ht Hr. split; [done|]. split; [done|].
  intros k. rewrite Hr, app_nil_r. simpl. split; [lia | done].
Qed.

Lemma Dial_step server w :
  world_wf w ->
  exists r w',
    Dial tls_answer server w = Returns r w' /\
    world_wf w' /\ continues (fun _ => []) w w'.
Proof.
  intros [Hr Hc].
  destruct (Config (client w)) as [cfg|] eqn:Hcfg.
  2:{ eexists _, w. split; [by apply Dial_not_initialized|].
      split; [done | apply continues_refl]. }
  assert (conns (client w) !! server = None \/
          (exists p cn, conns (client w) !! server = Some p /\
                        conn_heap w !! p = Some cn /\ IsOpen cn = false) ->
          exists r w',
            Dial tls_answer server w = Returns r w' /\
            world_wf w' /\ continues (fun _ => []) w w') as Hmiss.
  { intros Hcase. rewrite (Dial_fresh tls_answer server w cfg Hcfg Hcase).
    destruct (tls_answer (dial_calls w) server) as [e | raw].
    - eexists _, _. split; [reflexivity|]. split.
      + split; [exact Hr|]. intros sv p. unfold dialed. simpl.
        intros Hp. apply lookup_delete_Some in Hp as [_ Hp]. by apply (Hc sv).
      + apply continues_same; [done | by eexists | done].
    - eexists _, _. split; [reflexivity|]. split.
      + split; [exact Hr|]. intros sv p. unfold connected. simpl.
        intros Hp. apply lookup_insert_is_Some.
        destruct (decide (fresh (dom (conn_heap w)) = p)) as [|Hne];
          [by left | right]. split; [done|].
        apply lookup_insert_Some in Hp as [[_ Hp] | [_ Hp]]; [done|].
        apply lookup_delete_Some in Hp as [_ Hp]. by apply (Hc sv).
      + apply continues_same; [done | by eexists | done]. }
  destruct (conns (client w) !! server) as [p|] eqn:Hp; [|by apply Hmiss; left].
  destruct (Hc server p Hp) as [cn Hcn].
  destruct (IsOpen cn) eqn:Ho.
  - exists (Some p, None), w.
    split; [by apply (Dial_cached_open tls_answer server w cfg p cn)|].
    split; [done | apply continues_refl].
  - apply Hmiss. right. by exists p, cn.
Qed.

Lemma DialAny_step ski w :
  world_wf w ->
  exists r w',
    DialAny rand_raw tls_answer ski w = Returns r w' /\
    world_wf w' /\ continues (fun _ => []) w w'.
Proof.
  intros [Hr Hc].
  assert (exists r w',
            DialAny rand_raw tls_answer ski w = Returns r w' /\
            cache_wf w' /\ registry_wf w' /\
            Config (client w') = Config (client w) /\
            exists evs, trace w' = trace w ++ evs) as (r & w' & HD & Hc' & Hr' & Hcfg & Htr).
  { destruct (DialAny_cases rand_raw tls_answer ski w (registry_wf_ok w Hr ski))
      as [(Hz & Hnil & HD)
         | (Hnz & a & Ha & Hcap & Hlc & Hlen & [(Hex & p & Hp & HD) | (Hex & HD)])].
    - eexists _, w. split; [done|]. do 3 (split; [done|]).
      exists []. by rewrite app_nil_r.
    - eexists _, (tick w). split; [done|]. do 3 (split; [done|]).
      exists []. simpl. by rewrite app_nil_r.
    - set (s := default nil_slice (allServers (client w) !! ski)) in *.
      destruct (dial_loop_full rand_raw tls_answer _ _ _ _ ltac:(reflexivity)
                  Ha Hlc Hcap (collect_existing_nil _ _ Hex))
        as (r0 & w0 & evs & a' & HL & Htr & Hcfg & Hregs & Harr & Hlen' & _ & _
            & _ & _ & _ & Hres & _).
      exists r0, w0. split; [by rewrite HD|]. split.
      { destruct Hres as [(_ & _ & Hcs & Hh)
                         | (p & sv & raw & i & _ & _ & _ & -> & Hcs & Hh)].
        - intros sv p. rewrite Hcs, Hh. apply Hc.
        - intros sv' p'. rewrite Hcs, Hh. intros Hp.
          apply lookup_insert_is_Some.
          destruct (decide (fresh (dom (conn_heap w)) = p')) as [|Hne];
            [by left | right]. split; [done|].
          apply lookup_insert_Some in Hp as [[_ Hp] | [_ Hp]]; [done|].
          by apply (Hc sv'). }
      split; [|by eauto].
      intros k sk. rewrite Hregs. intros Hsk.
      destruct (Hr k sk Hsk) as (Hpos & Hlc0 & (ak & Hak & Hcapk) & Hd).
      split; [done|]. split; [done|]. split; [|done].
      rewrite Harr. destruct (decide (arr s = arr sk)) as [Heq | Hne].
      + rewrite Heq, lookup_insert_eq. exists a'. split; [done|].
        rewrite Heq in Ha. assert (ak = a) as -> by congruence. lia.
      + rewrite lookup_insert_ne by done. eauto. }
  exists r, w'. split; [done|]. split; [done|].
  destruct (DialAny_registry rand_raw tls_answer ski w r w' Hr HD)
    as (_ & Hlen & Hin & Hlast & Hother).
  split; [done|]. split; [done|].
  intros k. rewrite app_nil_r. simpl.
  destruct (decide (k = ski)) as [-> | Hne].
  - split; [lia | done].
  - rewrite (Hother k Hne). split; [lia | done].
Qed.

Lemma conn_closes_step p w :
  world_wf w ->
  exists w',
    conn_closes p w = Returns tt w' /\
    world_wf w' /\ continues (fun _ => []) w w'.
Proof.
  intros [Hr Hc]. unfold conn_closes. unfold_client.
  destruct (conn_heap w !! p) as [cn|] eqn:Hp.
  - eexists. split; [reflexivity|]. split.
    + split; [exact Hr|]. intros sv q Hq. simpl.
      apply lookup_insert_is_Some.
      destruct (decide (p = q)) as [|Hne]; [by left | right].
      split; [done|]. by apply (Hc sv).
    + apply continues_same; [done | exists []; simpl; by rewrite app_nil_r | done].
  - exists w. split; [by destruct w|]. split; [done | apply continues_refl].
Qed.

Lemma RegisterPublicKey_step server pub w :
  world_wf w ->
  exists r w',
    RegisterPublicKey GetSKI GetDigest server pub w = Returns r w' /\
    world_wf w' /\
    continues
      (fun k => registered_by GetSKI k (CallRegisterPublicKey server pub)) w w'.
Proof.
  intros [Hr Hc]. unfold RegisterPublicKey, registered_by.
  destruct (GetSKI pub) as [ski [e|]].
  { eexists _, w. split; [reflexivity|]. split; [done | apply continues_refl]. }
  destruct (registerSKI_full server ski w Hr)
    as (w' & HR & Hreg & Hother & Hcs & Hcfg & Hh & Htr & _ & _ & Hr').
  rewrite (bind_Returns _ _ _ _ _ HR).
  destruct (GetDigest pub) as [d ?]. eexists _, w'. split; [reflexivity|].
  split.
  { split; [done|]. intros sv p. rewrite Hcs, Hh. apply Hc. }
  split; [done|]. split; [by eauto|].
  intros k. destruct (decide (ski = k)) as [<- | Hne].
  - rewrite Hreg. rewrite length_app. done.
  - rewrite (Hother k) by done. rewrite app_nil_r. simpl. split; [lia | done].
Qed.

Lemma exec_call_step c w :
  world_wf w ->
  exists w',
    exec_call rand_raw tls_answer GetSKI GetDigest c w = Returns tt w' /\
    world_wf w' /\ continues (fun k => registered_by GetSKI k c) w w'.
Proof.
  intros Hwf. destruct c as [server pub | server cert | server | ski | p]; simpl.
  - destruct (RegisterPublicKey_step server pub w Hwf) as (r & w' & HR & H).
    exists w'. by rewrite (bind_Returns _ _ _ _ _ HR).
  - destruct (RegisterPublicKey_step server (cert_PublicKey cert) w Hwf)
      as (r & w' & HR & H).
    exists w'. unfold RegisterCert. by rewrite (bind_Returns _ _ _ _ _ HR).
  - destruct (Dial_step server w Hwf) as (r & w' & HR & H).
    exists w'. by rewrite (bind_Returns _ _ _ _ _ HR).
  - destruct (DialAny_step ski w Hwf) as (r & w' & HR & H).
    exists w'. by rewrite (bind_Returns _ _ _ _ _ HR).
  - apply conn_closes_step, Hwf.
Qed.

Lemma exec_calls_step cs : forall w,
  world_wf w ->
  exists w',
    exec_calls rand_raw tls_answer GetSKI GetDigest cs w = Returns tt w' /\
    world_wf w' /\ continues (fun k => registered GetSKI k cs) w w'.
Proof.
  induction cs as [|c cs IH]; intros w Hwf.
  { exists w. split; [done|]. split; [done | apply continues_refl]. }
  destruct (exec_call_step c w Hwf) as (w1 & H1 & Hwf1 & Hc1).
  destruct (IH w1 Hwf1) as (w2 & H2 & Hwf2 & Hc2).
  exists w2. split; [simpl; by rewrite (bind_Returns _ _ _ _ _ H1)|].
  split; [done|]. exact (continues_trans _ _ _ _ _ Hc1 Hc2).
Qed.

(** X15: the calls keep the client's data well formed. Take a state in
    which every candidate list is a non-empty slice over a backing array of
    its own and every cached pointer points to a connection object, and a
    sequence of registrations, [Dial]s, [DialAny]s and connections closing
    behind the client's back that has run to its end. Then the state it
    ended in is of that kind again: no two fingerprints have come to share
    a backing array, so what [DialAny] overwrites in one list never shows in
    another, and no cached pointer dangles. The configuration is the one
    the client started with, and the log has only grown. *)
Theorem calls_keep_wellformed (cs : list call) (w w' : world) :
  world_wf w ->
  exec_calls rand_raw tls_answer GetSKI GetDigest cs w = Returns tt w' ->
  world_wf w' /\
  Config (client w') = Config (client w) /\
  exists evs, trace w' = trace w ++ evs.
Proof.
  intros Hwf HE.
  destruct (exec_calls_step cs w Hwf) as (w0 & HE0 & Hwf' & Hcfg & Htr & _).
  rewrite HE in HE0. injection HE0 as <-. done.
Qed.

(** X16: the registry only grows by registrations. After any history of
    calls the candidate list of a fingerprint is as much longer as the
    history registered addresses for it, holds no address that was not
    there before or registered since, and ends with the address registered
    last: whatever the failed dials of [DialAny] overwrite, they never
    shorten a list, add a stranger or touch its last place. *)
Theorem registry_accounting (cs : list call) (w w' : world) (k : SKI) :
  world_wf w ->
  exec_calls rand_raw tls_answer GetSKI GetDigest cs w = Returns tt w' ->
  length (registry w' k) =
    length (registry w k) + length (registered GetSKI k cs) /\
  last (registry w' k) = last (registry w k ++ registered GetSKI k cs) /\
  forall x, x ∈ registry w' k -> x ∈ registry w k ++ registered GetSKI k cs.
Proof.
  intros Hwf HE.
  destruct (exec_calls_step cs w Hwf) as (w0 & HE0 & _ & _ & _ & Hreg).
  rewrite HE in HE0. injection HE0 as <-. apply Hreg.
Qed.

(** X17: registering a public key touches the candidate list of its
    fingerprint only: the server is appended to that list, the lists of all
    other fingerprints, the cache and the connection objects are left as
    they were, exactly one registration line is logged, and every candidate
    list still has a backing array of its own. A key whose fingerprint
    cannot be computed changes nothing. *)
Theorem RegisterPublicKey_frame (server : string) (pub : PublicKey) (w : world) :
  registry_wf w ->
  exists r w',
    RegisterPublicKey GetSKI GetDigest server pub w = Returns r w' /\
    registry_wf w' /\
    conns (client w') = conns (client w) /\
    conn_heap w' = conn_heap w /\
    Config (client w') = Config (client w) /\
    match (GetSKI pub).2 with
    | Some e => r = (None, Some e) /\ w' = w
    | None =>
        r.2 = None /\
        registry w' (GetSKI pub).1 = registry w (GetSKI pub).1 ++ [server] /\
        (forall k, k <> (GetSKI pub).1 -> registry w' k = registry w k) /\
        trace w' = trace w ++ [EvRegistering server (GetSKI pub).1]
    end.
Proof.
  intros Hr. unfold RegisterPublicKey.
  destruct (GetSKI pub) as [ski [e|]]; simpl.
  { by eexists _, w. }
  destruct (registerSKI_full server ski w Hr)
    as (w' & HR & Hreg & Hother & Hcs & Hcfg & Hh & Htr & _ & _ & Hr').
  rewrite (bind_Returns _ _ _ _ _ HR).
  destruct (GetDigest pub) as [d ?]. by eexists _, w'.
Qed.

(** X18: [NewClient] returns either an error and no client, or a client and
    no error, the latter exactly when the key pair loads, the CA file reads
    and holds a certificate. After every sequence of calls on that client
    that has run to its end, the configuration is still the one [NewClient]
    set, with the loaded key pair, and the candidate list of every
    fingerprint holds as many addresses as the sequence registered for it,
    all of them registered ones. *)
Theorem NewClient_outcomes (env : NewClientEnv)
    (certFile keyFile caFile : string) :
  ((exists e, NewClient env certFile keyFile caFile = (None, Some e)) /\
   ~ (exists cert pem,
        LoadX509KeyPair_answer env certFile keyFile = inr cert /\
        ReadFile_answer env caFile = inr pem /\
        AppendCertsFromPEM_answer env pem = true)) \/
  (exists c cert pem,
     NewClient env certFile keyFile caFile = (Some c, None) /\
     LoadX509KeyPair_answer env certFile keyFile = inr cert /\
     ReadFile_answer env caFile = inr pem /\
     AppendCertsFromPEM_answer env pem = true /\
     forall cs w',
       exec_calls rand_raw tls_answer GetSKI GetDigest cs (world_of c)
         = Returns tt w' ->
       Config (client w') = Some cert /\
       forall k,
         length (registry w' k) = length (registered GetSKI k cs) /\
         forall x, x ∈ registry w' k -> x ∈ registered GetSKI k cs).
Proof.
  unfold NewClient.
  destruct (LoadX509KeyPair_answer env certFile keyFile) as [e | cert] eqn:Hload.
  { left. split; [by eexists|]. by intros (? & ? & ? & _). }
  destruct (ReadFile_answer env caFile) as [e | pem] eqn:Hread.
  { left. split; [by eexists|]. by intros (? & ? & _ & ? & _). }
  destruct (AppendCertsFromPEM_answer env pem) eqn:Hca; simpl.
  2:{ left. split; [by eexists|]. intros (? & pem' & _ & [= <-] & ?). congruence. }
  right. exists (mkClient (Some cert) ∅ ∅), cert, pem.
  do 4 (split; [done|]). intros cs w' HE.
  assert (world_wf (world_of (mkClient (Some cert) ∅ ∅))) as Hwf.
  { split.
    - intros k sk Hk. simpl in Hk. by rewrite lookup_empty in Hk.
    - intros sv p Hp. simpl in Hp. by rewrite lookup_empty in Hp. }
  destruct (exec_calls_step cs _ Hwf) as (w0 & HE0 & _ & Hcfg & _ & Hreg).
  rewrite HE in HE0. injection HE0 as <-.
  split; [done|]. intros k.
  destruct (Hreg k) as (Hlen & _ & Hin).
  assert (registry (world_of (mkClient (Some cert) ∅ ∅)) k = []) as Hnil.
  { unfold registry. simpl. rewrite lookup_empty. apply view_nil. }
  rewrite Hnil in Hlen, Hin. done.
Qed.

End Histories.

(** ** The proxy test's [LoadX509KeyPair] *)

Section Loading.
Variable env : LoadEnv.
Variable GetSKI : PublicKey -> SKI * option error.
Variable GetDigest : PublicKey -> Digest * option error.

Lemma decode_loop_returns fuel : forall data chain w,
  (forall d b rest, pem_Decode env d = (Some b, rest) -> length rest < length d) ->
  length data < fuel ->
  exists more,
    decode_loop env fuel data chain w = Returns (chain ++ more) w /\
    forall der, der ∈ more ->
      exists d b rest, pem_Decode env d = (Some b, rest) /\
                       blk_Type b = "CERTIFICATE"%string /\ blk_Bytes b = der.
Proof.
  induction fuel as [|fuel IH]; intros data chain w Hshrink Hfuel; [lia|].
  simpl. destruct (pem_Decode env data) as [[b|] rest] eqn:Hdec.
  2:{ exists []. rewrite app_nil_r. split; [done|].
      intros der Hder. by apply not_elem_of_nil in Hder. }
  pose proof (Hshrink _ _ _ Hdec) as Hlt.
  destruct (String.eqb_spec (blk_Type b) "CERTIFICATE") as [Hty | Hty].
  - destruct (IH rest (chain ++ [blk_Bytes b]) w Hshrink ltac:(lia))
      as (more & HL & Hmore).
    exists (blk_Bytes b :: more). split.
    + rewrite HL. by rewrite <- app_assoc.
    + intros der Hder. apply elem_of_cons in Hder as [-> | Hder]; [|by apply Hmore].
      by exists data, b, rest.
  - destruct (IH rest chain w Hshrink ltac:(lia)) as (more & HL & Hmore).
    by exists more.
Qed.


End Loading.

(** ** The further properties on sample values *)

Lemma new_world_wf : world_wf new_world.
Proof.
  split.
  - intros k sk Hk. simpl in Hk. by rewrite lookup_empty in Hk.
  - intros sv p Hp. simpl in Hp. by rewrite lookup_empty in Hp.
Qed.

Lemma sample_world_wf : world_wf sample_world.
Proof.
  destruct new_world_wf as [Hr Hc].
  destruct (registerSKI_full "a:1" sample_ski new_world Hr)
    as (w1 & H1 & _ & _ & Hcs1 & _ & Hh1 & _ & _ & _ & Hr1).
  destruct (registerSKI_full "b:1" sample_ski w1 Hr1)
    as (w2 & H2 & _ & _ & Hcs2 & _ & Hh2 & _ & _ & _ & Hr2).
  assert (sample_world = w2) as ->.
  { unfold sample_world. rewrite (bind_Returns _ _ _ _ _ H1), H2. done. }
  split; [done|]. intros sv p. rewrite Hcs2, Hcs1. simpl.
  by rewrite lookup_empty.
Qed.

Lemma sample_registry :
  registry sample_world sample_ski = ["a:1"; "b:1"]%string.
Proof. vm_compute. reflexivity. Qed.

Lemma sample_decode_shrinks d b rest :
  sample_decode d = (Some b, rest) -> length rest < length d.
Proof.
  destruct d as [|z d]; simpl; [discriminate|].
  destruct (z =? 1)%Z; [intros [= _ <-]; lia|].
  destruct (z =? 2)%Z; [intros [= _ <-]; lia | discriminate].
Qed.

Example DialAny_outcomes_witness :
  registry_ok sample_world sample_ski /\
  exists w' evs,
    DialAny (fun _ => 0) only_b sample_ski sample_world
      = Returns (Some 0, None) w' /\
    trace w' = trace sample_world ++ evs /\
    length (failed_dials evs) < 2 /\
    tls_dials evs = failed_dials evs ++ ["b:1"%string] /\
    conns (client w') !! "b:1"%string = Some 0 /\
    conn_heap w' !! 0 = Some (mkConn true 42).
Proof.
  split; [exact sample_registry_ok|].
  destruct (DialAny_outcomes (fun _ => 0) only_b sample_ski sample_world
              sample_registry_ok)
    as (r & w' & evs & HD & Htr & Hcases & _).
  assert (exists w0,
            DialAny (fun _ => 0) only_b sample_ski sample_world
              = Returns (Some 0, None) w0) as [w0 Hrun]
    by (eexists; vm_compute; reflexivity).
  rewrite Hrun in HD. injection HD as <- <-.
  exists w0, evs. split; [exact Hrun|]. split; [exact Htr|].
  rewrite sample_registry in Hcases.
  destruct Hcases as [(Hnil & _)
                     | [(_ & Hr & _)
                       | (_ & p & server & Hr & _ & Hc & Hlt & Hhow)]];
    [discriminate Hnil | discriminate Hr |].
  injection Hr as <-.
  destruct Hhow as [(Hcached & _) | (_ & _ & Htd & raw & Hans & Hheap)].
  { exfalso. revert Hcached.
    replace (conns (client sample_world)) with (∅ : gmap string ptr)
      by (vm_compute; reflexivity).
    rewrite lookup_empty. intros Hcached. discriminate Hcached. }
  revert Hans Hheap. unfold only_b.
  destruct (String.eqb_spec server "b:1") as [-> | _];
    [|intros Hans; discriminate Hans].
  intros Hans Hheap. injection Hans as <-.
  exact (conj Hlt (conj Htd (conj Hc Hheap))).
Defined.

Example DialAny_dials_only_candidates_witness :
  registry_ok sample_world sample_ski /\
  exists r w' evs,
    DialAny (fun _ => 0) only_b sample_ski sample_world = Returns r w' /\
    trace w' = trace sample_world ++ evs /\
    tls_dials evs ⊆+ registry sample_world sample_ski.
Proof.
  split; [exact sample_registry_ok|].
  destruct (DialAny_dials_only_candidates (fun _ => 0) only_b sample_ski
              sample_world sample_registry_ok)
    as (r & w' & evs & HD & Htr & Hsub & _).
  exists r, w', evs. exact (conj HD (conj Htr Hsub)).
Defined.

Example DialAny_reaches_reachable_witness :
  "b:1"%string ∈ registry sample_world sample_ski /\
  exists p w' server,
    DialAny (fun _ => 0) only_b sample_ski sample_world
      = Returns (Some p, None) w' /\
    server ∈ registry sample_world sample_ski /\
    conns (client w') !! server = Some p.
Proof.
  assert ("b:1"%string ∈ registry sample_world sample_ski) as Hin.
  { rewrite sample_registry. repeat constructor. }
  split; [exact Hin|].
  apply (DialAny_reaches_reachable (fun _ => 0) only_b sample_ski sample_world
           "b:1" sample_registry_ok); [done | exact Hin |].
  intros i. by exists 42.
Defined.

Example DialAny_keeps_registered_addresses_witness :
  registry_wf sample_world /\
  exists r w',
    DialAny (fun _ => 0) unreachable sample_ski sample_world = Returns r w' /\
    length (registry w' sample_ski) = length (registry sample_world sample_ski) /\
    last (registry w' sample_ski) = last (registry sample_world sample_ski).
Proof.
  split; [apply sample_world_wf|].
  assert (exists r w',
            DialAny (fun _ => 0) unreachable sample_ski sample_world
              = Returns r w') as (r & w' & HD)
    by (eexists _, _; vm_compute; reflexivity).
  exists r, w'. split; [exact HD|].
  destruct (DialAny_keeps_registered_addresses (fun _ => 0) unreachable
              sample_ski sample_world r w' (proj1 sample_world_wf) HD)
    as (_ & Hlen & _ & Hlast & _).
  exact (conj Hlen Hlast).
Defined.

Example DialAny_then_reuses_witness :
  collect_existing (conns (client sample_world))
    (registry sample_world sample_ski) = [] /\
  exists p w',
    DialAny (fun _ => 0) only_b sample_ski sample_world
      = Returns (Some p, None) w' /\
    DialAny (fun _ => 1) unreachable sample_ski w'
      = Returns (Some p, None) (tick w').
Proof.
  assert (collect_existing (conns (client sample_world))
            (registry sample_world sample_ski) = []) as Hex
    by (vm_compute; reflexivity).
  split; [exact Hex|].
  assert (exists p w',
            DialAny (fun _ => 0) only_b sample_ski sample_world
              = Returns (Some p, None) w') as (p & w' & HD)
    by (eexists _, _; vm_compute; reflexivity).
  exists p, w'. split; [exact HD|].
  exact (proj1 (DialAny_then_reuses (fun _ => 0) only_b sample_ski sample_world
                  p w' (fun _ => 1) unreachable sample_registry_ok Hex HD)).
Defined.

Example Dial_frame_witness :
  exists r w',
    Dial always_up "a:1" sample_world_cached = Returns r w' /\
    conns (client w') !! "b:1"%string
      = conns (client sample_world_cached) !! "b:1"%string /\
    allServers (client w') = allServers (client sample_world_cached).
Proof.
  assert (exists r w',
            Dial always_up "a:1" sample_world_cached = Returns r w')
    as (r & w' & HD) by (eexists _, _; vm_compute; reflexivity).
  exists r, w'. split; [exact HD|].
  destruct (Dial_frame always_up "a:1" sample_world_cached r w' HD)
    as (Hother & _ & _ & Hregs & _).
  split; [by apply Hother | exact Hregs].
Defined.

Example Dial_cache_entry_witness :
  Config (client sample_world_cached) <> None /\
  exists r w',
    Dial unreachable "a:1" sample_world_cached = Returns r w' /\
    exists e, r = (None, Some e) /\ conns (client w') !! "a:1"%string = None.
Proof.
  assert (Config (client sample_world_cached) <> None) as Hcfg
    by (vm_compute; discriminate).
  split; [exact Hcfg|].
  assert (exists e w',
            Dial unreachable "a:1" sample_world_cached
              = Returns (None, Some e) w') as (e0 & w' & HD)
    by (eexists _, _; vm_compute; reflexivity).
  exists (None, Some e0), w'. split; [exact HD|].
  destruct (Dial_cache_entry unreachable "a:1" sample_world_cached _ w'
              Hcfg HD)
    as [(p & cn & Hr & _) | (e & Hr & Hc & _)]; [discriminate|].
  exists e. exact (conj Hr Hc).
Defined.

Example calls_keep_wellformed_witness :
  world_wf new_world /\
  exists w',
    exec_calls (fun _ => 0) only_b only_rsa_ski no_digest sample_calls new_world
      = Returns tt w' /\
    world_wf w' /\ Config (client w') = Config (client new_world).
Proof.
  split; [exact new_world_wf|].
  assert (exists w',
            exec_calls (fun _ => 0) only_b only_rsa_ski no_digest sample_calls
              new_world = Returns tt w') as (w' & HE)
    by (eexists; vm_compute; reflexivity).
  exists w'. split; [exact HE|].
  destruct (calls_keep_wellformed (fun _ => 0) only_b only_rsa_ski no_digest
              sample_calls new_world w' new_world_wf HE) as (Hwf & Hcfg & _).
  exact (conj Hwf Hcfg).
Defined.

Example registry_accounting_witness :
  world_wf new_world /\
  exists w',
    exec_calls (fun _ => 0) only_b only_rsa_ski no_digest sample_calls new_world
      = Returns tt w' /\
    length (registry w' [1; 2]%Z) =
      length (registry new_world [1; 2]%Z) +
      length (registered only_rsa_ski [1; 2]%Z sample_calls).
Proof.
  split; [exact new_world_wf|].
  assert (exists w',
            exec_calls (fun _ => 0) only_b only_rsa_ski no_digest sample_calls
              new_world = Returns tt w') as (w' & HE)
    by (eexists; vm_compute; reflexivity).
  exists w'. split; [exact HE|].
  exact (proj1 (registry_accounting (fun _ => 0) only_b only_rsa_ski no_digest
                  sample_calls new_world w' [1; 2]%Z new_world_wf HE)).
Defined.

Example RegisterPublicKey_frame_witness :
  registry_wf sample_world /\
  exists r w',
    RegisterPublicKey only_rsa_ski no_digest "c:1" [7]%Z sample_world
      = Returns r w' /\
    registry_wf w' /\ conns (client w') = conns (client sample_world).
Proof.
  split; [apply sample_world_wf|].
  destruct (RegisterPublicKey_frame only_rsa_ski no_digest "c:1" [7]%Z
              sample_world (proj1 sample_world_wf))
    as (r & w' & HR & Hwf & Hcs & _).
  exists r, w'. exact (conj HR (conj Hwf Hcs)).
Defined.


End ClientSpec.

